(** * Reconcilers: SyncReconciler, ChildSetReconciler and the status conditions

    A shallow embedding of [SyncReconciler] and [ChildSetReconciler] of the
    reconcilers package and of [apis/status_types.go], with the properties
    of the design document proved over it.  The assertions of the testing
    package ([testing/config.go]) are embedded as well, and further
    properties of the code follow those of the design document.

    Conventions of the embedding
    - A Go [error] value is an [option error]: [None] is [nil].
    - A Go function-typed field is an [option]: [None] is the nil function,
      and calling it panics.
    - The reconciled resource is a pointer in Go; its pointee lives in the
      [World], next to the state of the external store and the stash carried
      by the context.
    - Every call of a user callback, of the store and of the logger is
      recorded in the [trace] of the [World], so that "is invoked", "is
      logged" and "before" are statements about that list.  The trace is
      ghost state: no code reads it.
    - What the package uses of its own code that is not in the sources at
      hand ([Sequence], [WithFinalizer], [ChildReconciler], the stasher, the
      condition manager) is modelled from the design document; each such
      definition says so. *)

From Stdlib Require Import String Ascii ZArith List Bool Lia OrderedTypeEx.
From stdpp Require Import gmap strings list sorting.

Set Default Proof Using "Type".
Set Warnings "-register-all,-clear-no-such-hyp".
Local Open Scope string_scope.
Local Open Scope Z_scope.
Local Open Scope list_scope.

(* ===================================================================== *)
(** ** Go errors *)
(* ===================================================================== *)

Module GoErrors.

(** The error values the package builds or inspects.
    - [Sentinel]: a package-level error variable, compared by identity;
    - [Errorf]: [fmt.Errorf] without a wrapping verb, kept as its format
      string and its arguments;
    - [Wrapf]: an error wrapping another one ([Unwrap() error]);
    - [StatusError]: an API status error of the store, with its reason;
    - [joinError]: the value built by [errors.Join] ([Unwrap() []error]). *)
Inductive error : Type :=
| Sentinel (name : string)
| Errorf (format : string) (args : list string)
| Wrapf (msg : string) (inner : error)
| StatusError (reason : string) (msg : string)
| joinError (errs : list error).

(** [errors.Is(err, target)] for a sentinel target: walks the tree that
    [Unwrap] spans, depth first. *)
Fixpoint errors_Is_sentinel (err : error) (target : string) : bool :=
  match err with
  | Sentinel name => String.eqb name target
  | Errorf _ _ => false
  | Wrapf _ inner => errors_Is_sentinel inner target
  | StatusError _ _ => false
  | joinError errs => existsb (fun e => errors_Is_sentinel e target) errs
  end.

Definition errors_Is (err : option error) (target : string) : bool :=
  match err with
  | None => false
  | Some e => errors_Is_sentinel e target
  end.

(** [errors.Join(errs...)]: nil values are discarded; nil when none is
    left. *)
Definition errors_Join (errs : list (option error)) : option error :=
  match omap id errs with
  | [] => None
  | es => Some (joinError es)
  end.

(** [metav1.StatusReason] is a string type. *)
Definition StatusReason := string.
Definition StatusReasonUnknown : StatusReason := "".
Definition StatusReasonAlreadyExists : StatusReason := "AlreadyExists".
Definition StatusReasonForbidden : StatusReason := "Forbidden".
Definition StatusReasonInvalid : StatusReason := "Invalid".

(** [errors.As] to an API status, depth first. *)
Fixpoint as_APIStatus (err : error) : option StatusReason :=
  match err with
  | Sentinel _ => None
  | Errorf _ _ => None
  | Wrapf _ inner => as_APIStatus inner
  | StatusError reason _ => Some reason
  | joinError errs =>
      (fix first (es : list error) : option StatusReason :=
         match es with
         | [] => None
         | e :: es' =>
             match as_APIStatus e with
             | Some r => Some r
             | None => first es'
             end
         end) errs
  end.

(** [apierrs.ReasonForError]. *)
Definition ReasonForError (err : error) : StatusReason :=
  match as_APIStatus err with
  | Some r => r
  | None => StatusReasonUnknown
  end.

(** Modelled from the spec: the declaration of [ErrQuiet] is missing from
    the sources.  "A designated sentinel wraps an underlying error to
    suppress logging while still halting the pass." *)
Definition ErrQuiet_name : string := "ErrQuiet".

(** Modelled from the spec: see [ErrQuiet_name]. *)
Definition ErrQuiet : error := Sentinel ErrQuiet_name.

(** Modelled from the spec: the declaration of [OnlyReconcileChildStatus]
    is missing from the sources.  "The policy may signal status-only via a
    distinguished sentinel error." *)
Definition OnlyReconcileChildStatus_name : string := "OnlyReconcileChildStatus".


End GoErrors.
Export GoErrors.

(* ===================================================================== *)
(** ** Result *)
(* ===================================================================== *)

(** Modelled from the spec: the declaration of [Result] is missing from
    the sources.  "Result: {requeue: bool, requeueAfter: duration}"; a
    duration is an integer count of nanoseconds. *)
Record Result : Type := mkResult {
  Requeue : bool;
  RequeueAfter : Z;
}.

(** [Result{}]. *)
Definition emptyResult : Result := {| Requeue := false; RequeueAfter := 0 |}.

(** Modelled from the spec: [AggregateResults] is missing from the sources.
    "Aggregation of two Results takes the logical OR of requeue and the
    minimum non-zero requeueAfter." *)
Definition AggregateResults (a b : Result) : Result :=
  {| Requeue := Requeue a || Requeue b;
     RequeueAfter :=
       if RequeueAfter a =? 0 then RequeueAfter b
       else if RequeueAfter b =? 0 then RequeueAfter a
       else Z.min (RequeueAfter a) (RequeueAfter b) |}.

(* ===================================================================== *)
(** ** The generic parameters and the world *)
(* ===================================================================== *)

(** The type parameters [Type] and [ChildType] of the reconcilers, what
    the code uses of [client.Object], and the part of the client it calls.
    They belong to controller-runtime and apimachinery, and stay abstract. *)
Class Kinds : Type := {
  ResourceType : Type;
  ChildType : Type;
  (** state of the external store *)
  Cluster : Type;
  ListOption : Type;
  (** state of the manager and builder handed to [Setup] *)
  Builder : Type;
  InNamespace : string -> ListOption;
  GetDeletionTimestamp : ResourceType -> option Z;
  GetNamespace : ResourceType -> string;
  GetFinalizers : ResourceType -> list string;
  SetFinalizers : list string -> ResourceType -> ResourceType;
  IsControlledBy : ChildType -> ResourceType -> bool;
  (** [typeName] of the child type *)
  childTypeName : string;
  (** [c.List(ctx, children, opts...)] *)
  client_List : list ListOption -> Cluster -> list ChildType + error;
  (** persisting the reconciled resource *)
  client_Patch : ResourceType -> Cluster -> option error * Cluster;
}.

Section World.
Context `{K : Kinds}.

(** [ChildSetPartialResult] and [ChildSetResult].  [Child] is a pointer:
    [None] is nil. *)
Record ChildSetPartialResult : Type := {
  Id : string;
  Child : option ChildType;
  Err : option error;
}.

Record ChildSetResult : Type := {
  Children : list ChildSetPartialResult;
}.

Inductive Event : Type :=
| CallSync
| CallSyncWithResult
| CallFinalize
| CallFinalizeWithResult
| LogError (err : error) (msg : string)
| CallList (opts : list ListOption)
| CallDesiredChildren
| ChildReconcile (id : string)
| StoreCreate (desired : ChildType)
| StoreUpdate (current desired : ChildType)
| StoreDelete (current : ChildType)
| CallReflectChildrenStatus (result : ChildSetResult)
| PersistFinalizers (finalizers : list string).

Record World : Type := mkWorld {
  resource : ResourceType;
  cluster : Cluster;
  (** the entry of the context's stash under the child-set-result key *)
  childSetResultStash : option ChildSetResult;
  trace : list Event;
}.

(** The outcome of running Go code from a world: it returns, or it
    panics (calling a nil function, dereferencing a nil pointer). *)
Inductive Outcome (A : Type) : Type :=
| Returns (a : A) (w : World)
| Panics (w : World).
Arguments Returns {A} a w.
Arguments Panics {A} w.

Definition M (A : Type) : Type := World -> Outcome A.

Definition ret {A} (a : A) : M A := fun w => Returns a w.

Definition bind {A B} (m : M A) (k : A -> M B) : M B :=
  fun w =>
    match m w with
    | Returns a w' => k a w'
    | Panics w' => Panics w'
    end.

Definition panic {A} : M A := fun w => Panics w.

Definition emit (e : Event) : M unit :=
  fun w =>
    Returns tt {| resource := resource w; cluster := cluster w;
                  childSetResultStash := childSetResultStash w;
                  trace := trace w ++ [e] |}.

Definition getResource : M ResourceType := fun w => Returns (resource w) w.

(** A user callback sees and may change the reconciled resource and the
    external store, and nothing else of the world. *)
Definition UserFn (A : Type) : Type :=
  ResourceType -> Cluster -> A * ResourceType * Cluster.

Definition callUser {A} (f : UserFn A) : M A :=
  fun w =>
    let '(a, res, cl) := f (resource w) (cluster w) in
    Returns a {| resource := res; cluster := cl;
                 childSetResultStash := childSetResultStash w;
                 trace := trace w |}.

(** The events a run added to the trace. *)
Definition newEvents (w w' : World) : list Event :=
  drop (length (trace w)) (trace w').

End World.

Arguments Returns {K A} a w.
Arguments Panics {K A} w.

Declare Scope go_scope.
Delimit Scope go_scope with go.
Notation "'let*' x ':=' c1 'in' c2" := (bind c1 (fun x => c2))
  (at level 10, x pattern, c1 at level 100, c2 at level 200) : go_scope.
Notation "c1 ;;; c2" := (bind c1 (fun _ => c2))
  (at level 100, right associativity) : go_scope.

(** [f == nil] for a function-typed or pointer-typed field. *)
Definition isNil {A} (f : option A) : bool :=
  match f with
  | None => true
  | Some _ => false
  end.

(* ===================================================================== *)
(** ** SyncReconciler *)
(* ===================================================================== *)

Module SyncReconciler.
Section WithKinds.
Context `{K : Kinds}.
Local Open Scope go_scope.

Record t : Type := {
  Name : string;
  Setup : option (Builder -> option error * Builder);
  SyncDuringFinalization : bool;
  Sync : option (UserFn (option error));
  SyncWithResult : option (UserFn (Result * option error));
  Finalize : option (UserFn (option error));
  FinalizeWithResult : option (UserFn (Result * option error));
  (** [lazyInit sync.Once]: whether the initialisation has run *)
  lazyInit : bool;
}.

Definition init (r : t) : t :=
  if lazyInit r then r
  else
    {| Name := if String.eqb (Name r) "" then "SyncReconciler" else Name r;
       Setup := Setup r;
       SyncDuringFinalization := SyncDuringFinalization r;
       Sync := Sync r;
       SyncWithResult := SyncWithResult r;
       Finalize := Finalize r;
       FinalizeWithResult := FinalizeWithResult r;
       lazyInit := true |}.

(** [Validate]; the receiver is left as [init r]. *)
Definition Validate (r : t) : option error :=
  let r := init r in
  (* validate Sync and SyncWithResult *)
  if isNil (Sync r) && isNil (SyncWithResult r) then
    Some (Errorf "SyncReconciler %q must implement Sync or SyncWithResult" [Name r])
  else if negb (isNil (Sync r)) && negb (isNil (SyncWithResult r)) then
    Some (Errorf "SyncReconciler %q may not implement both Sync and SyncWithResult" [Name r])
  (* validate Finalize and FinalizeWithResult *)
  else if negb (isNil (Finalize r)) && negb (isNil (FinalizeWithResult r)) then
    Some (Errorf "SyncReconciler %q may not implement both Finalize and FinalizeWithResult" [Name r])
  else None.

(** [SetupWithManager]; the logger it sets up is not modelled. *)
Definition SetupWithManager (r : t) (bldr : Builder) : option error * Builder :=
  let r := init r in
  match Setup r with
  | None => (None, bldr)
  | Some setup =>
      match Validate r with
      | Some err => (Some err, bldr)
      | None => setup bldr
      end
  end.

Definition sync (r : t) : M (Result * option error) :=
  match Sync r with
  | Some f =>
      emit CallSync ;;;
      let* err := callUser f in
      ret (emptyResult, err)
  | None =>
      match SyncWithResult r with
      | Some f => emit CallSyncWithResult ;;; callUser f
      | None => panic
      end
  end.

Definition finalize (r : t) : M (Result * option error) :=
  match Finalize r with
  | Some f =>
      emit CallFinalize ;;;
      let* err := callUser f in
      ret (emptyResult, err)
  | None =>
      match FinalizeWithResult r with
      | Some f => emit CallFinalizeWithResult ;;; callUser f
      | None => ret (emptyResult, None)
      end
  end.

(** [if !errors.Is(err, ErrQuiet) { log.Error(err, msg) }] *)
Definition logUnlessQuiet (err : error) (msg : string) : M unit :=
  if negb (errors_Is (Some err) ErrQuiet_name) then emit (LogError err msg)
  else ret tt.

Definition Reconcile (r : t) : M (Result * option error) :=
  let result := emptyResult in
  let* resource := getResource in
  let* (result, returned) :=
    if isNil (GetDeletionTimestamp resource) || SyncDuringFinalization r then
      let* (syncResult, err) := sync r in
      let result := AggregateResults result syncResult in
      match err with
      | Some e => logUnlessQuiet e "unable to sync" ;;; ret (result, Some e)
      | None => ret (result, None)
      end
    else ret (result, None) in
  match returned with
  | Some e => ret (result, Some e)
  | None =>
      (* the resource is a pointer: the second test reads it again *)
      let* resource := getResource in
      if negb (isNil (GetDeletionTimestamp resource)) then
        let* (finalizeResult, err) := finalize r in
        let result := AggregateResults result finalizeResult in
        match err with
        | Some e => logUnlessQuiet e "unable to finalize" ;;; ret (result, Some e)
        | None => ret (result, None)
        end
      else ret (result, None)
  end.

End WithKinds.
End SyncReconciler.

(* ===================================================================== *)
(** ** The stash, the object manager and the composition of units *)
(* ===================================================================== *)

Section Units.
Context `{K : Kinds}.
Local Open Scope go_scope.

(** What the code reads of [context.Context]: the known children stashed
    by [stashKnownChildren].  The stash itself is shared and mutable, and
    lives in the [World]. *)
Record Context : Type := {
  knownChildrenStash : option (list ChildType);
}.

Definition stashKnownChildren (ctx : Context) (children : list ChildType) : Context :=
  {| knownChildrenStash := Some children |}.

(** [RetrieveKnownChildren]: a copy of the stashed slice, nil when there
    is none. *)
Definition RetrieveKnownChildren (ctx : Context) : list ChildType :=
  match knownChildrenStash ctx with
  | Some result => result
  | None => []
  end.

Definition setStash (s : option ChildSetResult) : M unit :=
  fun w =>
    Returns tt {| resource := resource w; cluster := cluster w;
                  childSetResultStash := s; trace := trace w |}.

(** Modelled from the spec: the [Stasher] of the child-set result is
    missing from the sources.  It is the "per-pass result accumulator
    passed via request context": [RetrieveOrEmpty] reads it (the empty
    result when nothing is stored), [Store] writes it, [Clear] reads it
    and leaves the stash empty. *)
Definition childSetResult_RetrieveOrEmpty : M ChildSetResult :=
  fun w =>
    match childSetResultStash w with
    | Some result => Returns result w
    | None => Returns {| Children := [] |} w
    end.

(** Modelled from the spec: [Store] of the same stasher. *)
Definition childSetResult_Store (result : ChildSetResult) : M unit :=
  setStash (Some result).

(** Modelled from the spec: [Clear] of the same stasher. *)
Definition childSetResult_Clear : M ChildSetResult :=
  let* result := childSetResult_RetrieveOrEmpty in
  setStash None ;;;
  ret result.

(** A call into the external store. *)
Definition callStore {A} (f : Cluster -> A * Cluster) : M A :=
  fun w =>
    let '(a, cl) := f (cluster w) in
    Returns a {| resource := resource w; cluster := cl;
                 childSetResultStash := childSetResultStash w;
                 trace := trace w |}.

(** Modelled from the spec: the [ObjectManager] interface is missing from
    the sources.  "Create(desired) -> (stored, error), Update(current,
    desired) -> (stored, error), Delete(current) -> error, plus a
    drift-detection comparison deciding whether an update is needed." *)
Record ObjectManager : Type := {
  om_Create : ChildType -> Cluster -> (ChildType + error) * Cluster;
  om_Update : ChildType -> ChildType -> Cluster -> (ChildType + error) * Cluster;
  om_Delete : ChildType -> Cluster -> option error * Cluster;
  om_NeedsUpdate : ChildType -> ChildType -> bool;
}.

(** Modelled from the spec: the declaration of [ChildReconciler] is
    missing from the sources; these are the fields [childReconcilerFor]
    sets (but for the two that only carry types).  The [OurChild] closure
    built there calls [IdentifyChild], which may be nil: its result is
    [None] when the call panics. *)
Record ChildReconciler : Type := {
  cr_Name : string;
  cr_SkipOwnerReference : bool;
  cr_DesiredChild : ResourceType -> option ChildType * option error;
  cr_ChildObjectManager : option ObjectManager;
  cr_ReflectChildStatusOnParent : option ChildType -> option error -> M unit;
  cr_ReflectedChildErrorReasons : option (list StatusReason);
  cr_ListOptions : option (ResourceType -> list ListOption);
  cr_OurChild : option (ResourceType -> ChildType -> option bool);
}.

(** Modelled from the spec: [ChildReconciler.listOptions] is missing from
    the sources.  "List candidate child resources using caller-supplied
    list filters (defaulting to same-namespace scoping ...)". *)
Definition cr_listOptions (cr : ChildReconciler) (resource : ResourceType) : list ListOption :=
  match cr_ListOptions cr with
  | Some f => f resource
  | None => [InNamespace (GetNamespace resource)]
  end.

(** Modelled from the spec: [ChildReconciler.ourChild] is missing from the
    sources.  A candidate is ours when it is owner-linked to the resource
    (unless owner-linking is skipped) and passes the ownership predicate;
    "if not specified, all children match". *)
Definition cr_ourChild (cr : ChildReconciler) (resource : ResourceType)
    (child : ChildType) : option bool :=
  if negb (cr_SkipOwnerReference cr) && negb (IsControlledBy child resource) then Some false
  else
    match cr_OurChild cr with
    | None => Some true
    | Some f => f resource child
    end.

(** Modelled from the spec: "retain only those passing the ownership
    predicate".  Panics when the predicate does. *)
Fixpoint filterChildren (cr : ChildReconciler) (resource : ResourceType)
    (items : list ChildType) : M (list ChildType) :=
  match items with
  | [] => ret []
  | child :: items' =>
      match cr_ourChild cr resource child with
      | None => panic
      | Some keep =>
          let* rest := filterChildren cr resource items' in
          ret (if keep then child :: rest else rest)
      end
  end.

(** Modelled from the spec: the default of [ReflectedChildErrorReasons]
    is set in code missing from the sources.  "A configurable, closed list
    of reasons (default: already-exists, forbidden, invalid)". *)
Definition defaultReflectedChildErrorReasons : list StatusReason :=
  [StatusReasonAlreadyExists; StatusReasonForbidden; StatusReasonInvalid].

(** Modelled from the spec: the configured list, or the default. *)
Definition cr_reflectedReasons (cr : ChildReconciler) : list StatusReason :=
  match cr_ReflectedChildErrorReasons cr with
  | Some reasons => reasons
  | None => defaultReflectedChildErrorReasons
  end.

(** Modelled from the spec: the convergence of one child is missing from
    the sources.  "Create if absent, update if drifted, delete if no longer
    desired"; a nil object manager panics when it is called. *)
Definition converge (om : option ObjectManager) (actual desired : option ChildType)
    : M (option ChildType * option error) :=
  match actual, desired with
  | None, None => ret (None, None)
  | None, Some d =>
      match om with
      | None => panic
      | Some om =>
          emit (StoreCreate d) ;;;
          let* stored := callStore (om_Create om d) in
          match stored with
          | inl c => ret (Some c, None)
          | inr e => ret (None, Some e)
          end
      end
  | Some a, Some d =>
      match om with
      | None => panic
      | Some om =>
          if om_NeedsUpdate om a d then
            emit (StoreUpdate a d) ;;;
            let* stored := callStore (om_Update om a d) in
            match stored with
            | inl c => ret (Some c, None)
            | inr e => ret (None, Some e)
            end
          else ret (Some a, None)
      end
  | Some a, None =>
      match om with
      | None => panic
      | Some om =>
          emit (StoreDelete a) ;;;
          let* err := callStore (om_Delete om a) in
          ret (None, err)
      end
  end.

(** [c.List]: reads the store. *)
Definition callList (opts : list ListOption) : M (list ChildType + error) :=
  emit (CallList opts) ;;;
  fun w => Returns (client_List opts (cluster w)) w.

(** Modelled from the spec: [ChildReconciler.Reconcile] is missing from
    the sources.  The error taxonomy of the design: a unit converges (also
    when the status-only sentinel made it skip create, update and delete),
    or the store fails, or the desired-child policy fails. *)
Inductive Convergence : Type :=
| Converged (child : option ChildType)
| StoreFailed (child : option ChildType) (e : error)
| PolicyFailed (e : error).

(** Modelled from the spec: the store-facing half of
    [ChildReconciler.Reconcile].  The candidates are listed and filtered by
    ownership (of several, the first is the current child; the spec is
    silent there).  The status-only sentinel as desired-child error skips
    create, update and delete and keeps the current child; any other
    desired-child error is a policy error. *)
Definition cr_converge (cr : ChildReconciler) : M Convergence :=
  let* resource := getResource in
  let* listed := callList (cr_listOptions cr resource) in
  match listed with
  | inr e => ret (StoreFailed None e)
  | inl items =>
      let* ours := filterChildren cr resource items in
      let actual := head ours in
      let '(desired, desiredErr) := cr_DesiredChild cr resource in
      match desiredErr with
      | Some e =>
          if errors_Is (Some e) OnlyReconcileChildStatus_name then ret (Converged actual)
          else ret (PolicyFailed e)
      | None =>
          let* (child, err) := converge (cr_ChildObjectManager cr) actual desired in
          match err with
          | None => ret (Converged child)
          | Some e => ret (StoreFailed child e)
          end
      end
  end.

(** Modelled from the spec: store errors are "classified by reason". *)
Definition reasonReflected (cr : ChildReconciler) (e : error) : bool :=
  bool_decide (ReasonForError e ∈ cr_reflectedReasons cr).

(** Modelled from the spec: [ChildReconciler.Reconcile].  A converged
    child is reflected on the parent.  A store error whose reason is in the
    reflected list is "captured in the child's result entry and handed to
    status reflection rather than retried"; "any other reason is treated as
    transient and propagated for retry".  A policy error is returned. *)
Definition cr_Reconcile (cr : ChildReconciler) : M (Result * option error) :=
  emit (ChildReconcile (cr_Name cr)) ;;;
  let* outcome := cr_converge cr in
  match outcome with
  | Converged child =>
      cr_ReflectChildStatusOnParent cr child None ;;;
      ret (emptyResult, None)
  | StoreFailed child e =>
      if reasonReflected cr e then
        cr_ReflectChildStatusOnParent cr child (Some e) ;;;
        ret (emptyResult, None)
      else ret (emptyResult, Some e)
  | PolicyFailed e => ret (emptyResult, Some e)
  end.

(** Modelled from the spec: the [SubReconciler] interface is missing from
    the sources; these are its implementers the child set composes. *)
Inductive SubReconciler : Type :=
| ChildUnit (cr : ChildReconciler)
| Sequence (units : list SubReconciler)
| WithFinalizer (Finalizer : string) (Reconciler : SubReconciler).

(** Modelled from the spec: "add it and persist", "remove the token and
    persist".  The resource keeps the change when the store accepted it. *)
Definition persistFinalizers (finalizers : list string) : M (option error) :=
  emit (PersistFinalizers finalizers) ;;;
  fun w =>
    let res := SetFinalizers finalizers (resource w) in
    let '(err, cl) := client_Patch res (cluster w) in
    Returns err {| resource := match err with None => res | Some _ => resource w end;
                   cluster := cl;
                   childSetResultStash := childSetResultStash w;
                   trace := trace w |}.

(** Modelled from the spec: [Sequence] and [WithFinalizer] are missing
    from the sources.
    [Sequence]: "Executing it runs each unit in order against the same
    resource snapshot, accumulating Results; if a unit fails, execution
    stops and the accumulated Result plus the error are returned
    immediately."
    [WithFinalizer]: "On a live resource: if the token is absent, add it
    and persist before running the inner unit.  On a resource pending
    deletion: run the inner unit first; if it completes without error,
    remove the token and persist.  If the inner unit errors, the token
    remains and the outer reconcile returns the error."  A failure to
    persist the token is returned before the inner unit runs, and a token
    that is already absent is not removed again. *)
Definition runSequence (reconcile : SubReconciler -> M (Result * option error))
    : list SubReconciler -> Result -> M (Result * option error) :=
  fix run (units : list SubReconciler) (aggregate : Result) :=
    match units with
    | [] => ret (aggregate, None)
    | u :: units' =>
        let* (result, err) := reconcile u in
        let aggregate := AggregateResults aggregate result in
        match err with
        | Some e => ret (aggregate, Some e)
        | None => run units' aggregate
        end
    end.

(** Modelled from the spec: the [Reconcile] of the composed units, see
    above for [Sequence] and [WithFinalizer]. *)
Fixpoint sub_Reconcile (s : SubReconciler) : M (Result * option error) :=
  match s with
  | ChildUnit cr => cr_Reconcile cr
  | Sequence units => runSequence sub_Reconcile units emptyResult
  | WithFinalizer finalizer inner =>
      let* resource := getResource in
      if isNil (GetDeletionTimestamp resource) then
        let* err :=
          if bool_decide (finalizer ∈ GetFinalizers resource) then ret None
          else persistFinalizers (GetFinalizers resource ++ [finalizer]) in
        match err with
        | Some e => ret (emptyResult, Some e)
        | None => sub_Reconcile inner
        end
      else
        let* (result, err) := sub_Reconcile inner in
        match err with
        | Some e => ret (result, Some e)
        | None =>
            let* resource := getResource in
            let* err :=
              if bool_decide (finalizer ∈ GetFinalizers resource) then
                persistFinalizers (filter (fun f => f <> finalizer) (GetFinalizers resource))
              else ret None in
            ret (result, err)
        end
  end.

End Units.

(** [sets.String] of apimachinery: a set of strings whose [List] is sorted.
    Go compares strings byte by byte, as [String.leb] does. *)
Module StringSet.
Definition string_le (a b : string) : Prop := String.leb a b = true.
Definition string_lt (a b : string) : Prop := String.ltb a b = true.

#[global] Instance string_le_dec : RelDecision string_le.
Proof. intros a b. unfold string_le. apply _. Defined.

Definition Has (s : gset string) (item : string) : bool := bool_decide (item ∈ s).
Definition Insert (s : gset string) (item : string) : gset string := {[item]} ∪ s.
Definition List (s : gset string) : list string := merge_sort string_le (elements s).
End StringSet.

(* ===================================================================== *)
(** ** ChildSetReconciler *)
(* ===================================================================== *)

Module ChildSetReconciler.
Section WithKinds.
Context `{K : Kinds}.
Local Open Scope go_scope.

(** The fields [ChildType] and [ChildListType], which only carry types,
    are left out. *)
Record t : Type := {
  Name : string;
  Finalizer : string;
  SkipOwnerReference : bool;
  Setup : option (Builder -> option error * Builder);
  DesiredChildren : option (Context -> UserFn (list ChildType * option error));
  ChildObjectManager : option ObjectManager;
  ReflectChildrenStatusOnParent : option (Context -> ChildSetResult -> UserFn unit);
  ReflectChildrenStatusOnParentWithError :
    option (Context -> ChildSetResult -> UserFn (option error));
  ReflectedChildErrorReasons : option (list StatusReason);
  ListOptions : option (ResourceType -> list ListOption);
  OurChild : option (ResourceType -> ChildType -> bool);
  IdentifyChild : option (ChildType -> string);
  (** [lazyInit sync.Once]: whether the initialisation has run *)
  lazyInit : bool;
  voidReconciler : option ChildReconciler;
}.

(** [childReconcilerFor].  The closures capture the receiver; the fields
    they read ([OurChild], [IdentifyChild]) are never assigned after the
    reconciler is built. *)
Definition childReconcilerFor (r : t) (desired : option ChildType)
    (desiredErr : option error) (id : string) (void : bool) : ChildReconciler :=
  {| cr_Name := id;
     cr_SkipOwnerReference := SkipOwnerReference r;
     cr_DesiredChild := fun resource => (desired, desiredErr);
     cr_ChildObjectManager := ChildObjectManager r;
     cr_ReflectChildStatusOnParent := fun child err =>
       let* result := childSetResult_RetrieveOrEmpty in
       let result :=
         {| Children := Children result ++ [{| Id := id; Child := child; Err := err |}] |} in
       childSetResult_Store result;
     cr_ReflectedChildErrorReasons := ReflectedChildErrorReasons r;
     cr_ListOptions := ListOptions r;
     cr_OurChild := Some (fun resource child =>
       if match OurChild r with
          | Some ourChild => negb (ourChild resource child)
          | None => false
          end
       then Some false
       else if void then Some true
       else
         match IdentifyChild r with
         | Some identify => Some (String.eqb id (identify child))
         | None => None
         end) |}.

Definition init (r : t) : t :=
  if lazyInit r then r
  else
    {| Name := if String.eqb (Name r) ""
               then (childTypeName ++ "ChildSetReconciler")%string else Name r;
       Finalizer := Finalizer r;
       SkipOwnerReference := SkipOwnerReference r;
       Setup := Setup r;
       DesiredChildren := DesiredChildren r;
       ChildObjectManager := ChildObjectManager r;
       ReflectChildrenStatusOnParent := ReflectChildrenStatusOnParent r;
       ReflectChildrenStatusOnParentWithError :=
         match ReflectChildrenStatusOnParentWithError r, ReflectChildrenStatusOnParent r with
         | None, Some reflect =>
             Some (fun ctx result parent cl =>
                     let '(_, parent', cl') := reflect ctx result parent cl in
                     (None, parent', cl'))
         | withError, _ => withError
         end;
       ReflectedChildErrorReasons := ReflectedChildErrorReasons r;
       ListOptions := ListOptions r;
       OurChild := OurChild r;
       IdentifyChild := IdentifyChild r;
       lazyInit := true;
       voidReconciler := Some (childReconcilerFor r None None "" true) |}.

Definition setSkipOwnerReference (r : t) (b : bool) : t :=
  {| Name := Name r; Finalizer := Finalizer r; SkipOwnerReference := b;
     Setup := Setup r; DesiredChildren := DesiredChildren r;
     ChildObjectManager := ChildObjectManager r;
     ReflectChildrenStatusOnParent := ReflectChildrenStatusOnParent r;
     ReflectChildrenStatusOnParentWithError := ReflectChildrenStatusOnParentWithError r;
     ReflectedChildErrorReasons := ReflectedChildErrorReasons r;
     ListOptions := ListOptions r; OurChild := OurChild r;
     IdentifyChild := IdentifyChild r; lazyInit := lazyInit r;
     voidReconciler := voidReconciler r |}.

(** [Validate]: returns the receiver as it leaves it, and the error. *)
Definition Validate (r : t) : t * option error :=
  let r := init r in
  (* default implicit values *)
  let r := if negb (String.eqb (Finalizer r) "") then setSkipOwnerReference r true else r in
  (* require DesiredChildren *)
  if isNil (DesiredChildren r) then
    (r, Some (Errorf "ChildSetReconciler %q must implement DesiredChildren" [Name r]))
  (* require ReflectChildrenStatusOnParent or ReflectChildrenStatusOnParentWithError *)
  else if isNil (ReflectChildrenStatusOnParent r)
          && isNil (ReflectChildrenStatusOnParentWithError r) then
    (r, Some (Errorf "ChildSetReconciler %q must implement ReflectChildrenStatusOnParent or ReflectChildrenStatusOnParentWithError" [Name r]))
  else if isNil (OurChild r) && SkipOwnerReference r then
    (* OurChild is required when SkipOwnerReference is true *)
    (r, Some (Errorf "ChildSetReconciler %q must implement OurChild since owner references are not used" [Name r]))
  else if isNil (ListOptions r) && SkipOwnerReference r then
    (* ListOptions is required when SkipOwnerReference is true *)
    (r, Some (Errorf "ChildSetReconciler %q must implement ListOptions since owner references are not used" [Name r]))
  (* require IdentifyChild *)
  else if isNil (IdentifyChild r) then
    (r, Some (Errorf "ChildSetReconciler %q must implement IdentifyChild" [Name r]))
  (* require ChildObjectManager *)
  else if isNil (ChildObjectManager r) then
    (r, Some (Errorf "ChildSetReconciler %q must implement ChildObjectManager" [Name r]))
  else (r, None).

(** [knownChildren]: lists the candidates with the list options of the
    void reconciler and keeps those it owns.  A nil [voidReconciler] is a
    nil pointer: reading its fields panics. *)
Definition knownChildren (r : t) (ctx : Context) : M (list ChildType * option error) :=
  let* resource := getResource in
  match voidReconciler r with
  | None => panic
  | Some void =>
      let* listed := callList (cr_listOptions void resource) in
      match listed with
      | inr err => ret ([], Some err)
      | inl children =>
          let* ourChildren := filterChildren void resource children in
          ret (ourChildren, None)
      end
  end.

(** The first loop of [composeChildReconcilers], over the desired
    children.  [inr]: the configuration error it returns. *)
Fixpoint collectDesired (r : t) (desiredChildren : list ChildType)
    (childIDs : gset string) (desiredChildByID : gmap string ChildType)
    : M (gset string * gmap string ChildType + error) :=
  match desiredChildren with
  | [] => ret (inl (childIDs, desiredChildByID))
  | child :: rest =>
      match IdentifyChild r with
      | None => panic
      | Some identify =>
          let id := identify child in
          if String.eqb id "" then
            ret (inr (Errorf "desired child id may not be empty" []))
          else if StringSet.Has childIDs id then
            ret (inr (Errorf "duplicate child id found: %s" [id]))
          else
            collectDesired r rest (StringSet.Insert childIDs id)
                           (<[id := child]> desiredChildByID)
      end
  end.

(** The second loop, over the known children. *)
Fixpoint collectKnown (r : t) (knownChildren : list ChildType)
    (childIDs : gset string) : M (gset string) :=
  match knownChildren with
  | [] => ret childIDs
  | child :: rest =>
      match IdentifyChild r with
      | None => panic
      | Some identify =>
          collectKnown r rest (StringSet.Insert childIDs (identify child))
      end
  end.

Definition callDesiredChildren (r : t) (ctx : Context)
    : M (list ChildType * option error) :=
  match DesiredChildren r with
  | None => panic
  | Some desiredChildren => emit CallDesiredChildren ;;; callUser (desiredChildren ctx)
  end.

Definition composeChildReconcilers (r : t) (ctx : Context)
    (knownChildren : list ChildType) : M (SubReconciler + error) :=
  let* (desiredChildren, desiredChildrenErr) := callDesiredChildren r ctx in
  let abort :=
    match desiredChildrenErr with
    | Some err =>
        if negb (errors_Is desiredChildrenErr OnlyReconcileChildStatus_name)
        then Some err else None
    | None => None
    end in
  match abort with
  | Some err => ret (inr err)
  | None =>
      let* collected := collectDesired r desiredChildren ∅ ∅ in
      match collected with
      | inr err => ret (inr err)
      | inl (childIDs, desiredChildByID) =>
          let* childIDs := collectKnown r knownChildren childIDs in
          let sequence :=
            map (fun id =>
                   ChildUnit (childReconcilerFor r (desiredChildByID !! id)
                                                 desiredChildrenErr id false))
                (StringSet.List childIDs) in
          if negb (String.eqb (Finalizer r) "") then
            ret (inl (WithFinalizer (Finalizer r) (Sequence sequence)))
          else ret (inl (Sequence sequence))
      end
  end.

Definition reflectStatus (r : t) (ctx : Context) : M (option error) :=
  let* result := childSetResult_Clear in
  match ReflectChildrenStatusOnParentWithError r with
  | None => panic
  | Some reflect =>
      emit (CallReflectChildrenStatus result) ;;;
      callUser (reflect ctx result)
  end.

(** [Reconcile]; the receiver is left as [init r]. *)
Definition Reconcile (r : t) (ctx : Context) : M (Result * option error) :=
  let r := init r in
  let* (known, err) := knownChildren r ctx in
  match err with
  | Some e => ret (emptyResult, Some e)
  | None =>
      let ctx := stashKnownChildren ctx known in
      let* composed := composeChildReconcilers r ctx known in
      match composed with
      | inr e => ret (emptyResult, Some e)
      | inl cr =>
          let* (result, reconcileErr) := sub_Reconcile cr in
          let* reflectStatusErr := reflectStatus r ctx in
          ret (result, errors_Join [reconcileErr; reflectStatusErr])
      end
  end.

End WithKinds.
End ChildSetReconciler.

(* ===================================================================== *)
(** ** The correlation the design describes *)
(* ===================================================================== *)

Section Correlation.
Context `{K : Kinds}.

(** "Form the set of all identities appearing in either known or desired",
    sorted. *)
Definition correlatedIDs (identify : ChildType -> string)
    (known desired : list ChildType) : list string :=
  StringSet.List (list_to_set (map identify known) ∪ list_to_set (map identify desired)).

(** "Its desired value is the matching desired child (or none, meaning
    delete)". *)
Definition desiredChildOf (identify : ChildType -> string)
    (desired : list ChildType) (id : string) : option ChildType :=
  fold_left (fun m c => <[identify c := c]> m) desired (∅ : gmap string ChildType) !! id.

(** The per-identity units of one pass. *)
Definition perIdentityUnits (r : ChildSetReconciler.t) (identify : ChildType -> string)
    (known desired : list ChildType) (desiredErr : option error) : list SubReconciler :=
  map (fun id =>
         ChildUnit (ChildSetReconciler.childReconcilerFor r
                      (desiredChildOf identify desired id) desiredErr id false))
      (correlatedIDs identify known desired).

(** The guard around them when a finalizer is configured. *)
Definition guarded (r : ChildSetReconciler.t) (s : SubReconciler) : SubReconciler :=
  if negb (String.eqb (ChildSetReconciler.Finalizer r) "")
  then WithFinalizer (ChildSetReconciler.Finalizer r) s
  else s.

(** The world after the desired-children policy ran. *)
Definition afterDesiredChildren (w : World) (res : ResourceType) (cl : Cluster) : World :=
  {| resource := res; cluster := cl; childSetResultStash := childSetResultStash w;
     trace := trace w ++ [CallDesiredChildren] |}.

(** Whether a desired-children error aborts the pass: any error but the
    status-only sentinel. *)
Definition abortsPass (desiredChildrenErr : option error) : bool :=
  negb (isNil desiredChildrenErr)
  && negb (errors_Is desiredChildrenErr OnlyReconcileChildStatus_name).

(** The configuration errors of the identity validation. *)
Definition isIdentityError (e : error) : Prop :=
  e = Errorf "desired child id may not be empty" []
  \/ exists id, e = Errorf "duplicate child id found: %s" [id].

End Correlation.

(* ===================================================================== *)
(** ** Status conditions *)
(* ===================================================================== *)

Module Conditions.

Inductive ConditionStatus : Type :=
| ConditionTrue
| ConditionFalse
| ConditionUnknown.

#[global] Instance ConditionStatus_eq_dec : EqDecision ConditionStatus.
Proof. solve_decision. Defined.

(** [metav1.Condition]. *)
Record Condition : Type := {
  Type_ : string;
  Status_ : ConditionStatus;
  Reason : string;
  Message : string;
  LastTransitionTime : Z;
}.

(** [Status] of status_types.go. *)
Record Status : Type := {
  ObservedGeneration : Z;
  Conditions : list Condition;
}.

Definition GetConditions (s : Status) : list Condition := Conditions s.

Definition SetConditions (s : Status) (c : list Condition) : Status :=
  {| ObservedGeneration := ObservedGeneration s; Conditions := c |}.

(** [GetCondition]: the first condition of the type, nil when none. *)
Definition GetCondition (s : Status) (t : string) : option Condition :=
  find (fun cond => String.eqb (Type_ cond) t) (Conditions s).

(** [ConditionIsTrue], [ConditionIsFalse], [ConditionIsUnknown], as the
    test uses them: a nil condition is neither true nor false. *)
Definition ConditionIsTrue (c : option Condition) : bool :=
  match c with
  | Some c => bool_decide (Status_ c = ConditionTrue)
  | None => false
  end.

Definition ConditionIsFalse (c : option Condition) : bool :=
  match c with
  | Some c => bool_decide (Status_ c = ConditionFalse)
  | None => false
  end.

Definition ConditionIsUnknown (c : option Condition) : bool :=
  match c with
  | Some c => bool_decide (Status_ c = ConditionUnknown)
  | None => true
  end.

(** Modelled from the spec: the condition set and its manager
    ([NewLivingConditionSet], [InitializeConditions], [MarkTrue],
    [MarkFalse], [IsHappy]) are missing from the sources.
    "ConditionSet: an immutable declaration of {happy, dependents}." *)
Record ConditionSet : Type := {
  happy : string;
  dependents : list string;
}.

Definition ConditionReady : string := "Ready".

Definition NewLivingConditionSet (d : list string) : ConditionSet :=
  {| happy := ConditionReady; dependents := d |}.

(** Modelled from the spec: writing one condition.  "Types are unique
    within a resource's condition list"; the "last-transition timestamp
    updates only when status actually changes value (not on every
    write)".  [now] is the value of the injected clock. *)
Definition stamp (new : Condition) (time : Z) : Condition :=
  {| Type_ := Type_ new; Status_ := Status_ new; Reason := Reason new;
     Message := Message new; LastTransitionTime := time |}.

Fixpoint setIn (now : Z) (new : Condition) (cs : list Condition) : list Condition :=
  match cs with
  | [] => [stamp new now]
  | c :: cs' =>
      if String.eqb (Type_ c) (Type_ new) then
        stamp new (if bool_decide (Status_ c = Status_ new) then LastTransitionTime c
                   else now) :: cs'
      else c :: setIn now new cs'
  end.

Definition SetCondition (now : Z) (new : Condition) (s : Status) : Status :=
  SetConditions s (setIn now new (GetConditions s)).

Definition mkCondition (t : string) (st : ConditionStatus) (reason message : string)
    : Condition :=
  {| Type_ := t; Status_ := st; Reason := reason; Message := message;
     LastTransitionTime := 0 |}.

(** Modelled from the spec: "Initialize: set every declared dependent (and
    the aggregate) to Unknown unless already present, without overwriting
    existing values." *)
Definition initializeOne (now : Z) (s : Status) (t : string) : Status :=
  match GetCondition s t with
  | Some _ => s
  | None => SetCondition now (mkCondition t ConditionUnknown "" "") s
  end.

Definition InitializeConditions (cs : ConditionSet) (now : Z) (s : Status) : Status :=
  fold_left (initializeOne now) (happy cs :: dependents cs) s.

(** Modelled from the spec: "the aggregate is True iff every declared
    dependent is True; it is False if any dependent is False (propagating
    that dependent's reason/message, first-false-wins by declared order);
    otherwise it is Unknown." *)
Definition firstFalse (cs : ConditionSet) (s : Status) : option Condition :=
  head (omap (fun t => match GetCondition s t with
                       | Some c => if ConditionIsFalse (Some c) then Some c else None
                       | None => None
                       end) (dependents cs)).

Definition allTrue (cs : ConditionSet) (s : Status) : bool :=
  forallb (fun t => ConditionIsTrue (GetCondition s t)) (dependents cs).

Definition recomputeAggregate (cs : ConditionSet) (now : Z) (s : Status) : Status :=
  match firstFalse cs s with
  | Some c =>
      SetCondition now (mkCondition (happy cs) ConditionFalse (Reason c) (Message c)) s
  | None =>
      if allTrue cs s then
        SetCondition now (mkCondition (happy cs) ConditionTrue "" "") s
      else
        SetCondition now (mkCondition (happy cs) ConditionUnknown "" "") s
  end.

(** Modelled from the spec: "MarkTrue / MarkFalse(reason, message): set
    one dependent condition's status explicitly; after every mutation,
    recompute the aggregate condition." *)
Definition MarkTrue (cs : ConditionSet) (now : Z) (t reason message : string)
    (s : Status) : Status :=
  recomputeAggregate cs now (SetCondition now (mkCondition t ConditionTrue reason message) s).

Definition MarkFalse (cs : ConditionSet) (now : Z) (t reason message : string)
    (s : Status) : Status :=
  recomputeAggregate cs now (SetCondition now (mkCondition t ConditionFalse reason message) s).

(** The status the recomputation gives the aggregate. *)
Definition aggregateStatus (cs : ConditionSet) (s : Status) : ConditionStatus :=
  match firstFalse cs s with
  | Some _ => ConditionFalse
  | None => if allTrue cs s then ConditionTrue else ConditionUnknown
  end.

(** The status of the condition of a type, when there is one. *)
Definition statusOf (s : Status) (t : string) : option ConditionStatus :=
  Status_ <$> GetCondition s t.

(** Modelled from the spec: "IsHappy: true iff the aggregate condition's
    status is True." *)
Definition IsHappy (cs : ConditionSet) (s : Status) : bool :=
  ConditionIsTrue (GetCondition s (happy cs)).

(** The condition set of the test of status_types.go. *)
Definition ConditionCreated : string := "Created".
Definition ConditionConfigured : string := "Configured".
Definition conditionSet : ConditionSet :=
  NewLivingConditionSet [ConditionCreated; ConditionConfigured].
Definition emptyStatus : Status := {| ObservedGeneration := 0; Conditions := [] |}.

End Conditions.

(* ===================================================================== *)
(** ** Observations on outcomes and traces *)
(* ===================================================================== *)

Section Observations.
Context `{K : Kinds}.

Definition finalWorld {A} (o : Outcome A) : World :=
  match o with
  | Returns _ w => w
  | Panics w => w
  end.

Definition withEvents (w : World) (evs : list Event) : World :=
  {| resource := resource w; cluster := cluster w;
     childSetResultStash := childSetResultStash w;
     trace := trace w ++ evs |}.

Definition isSyncCall (e : Event) : bool :=
  match e with
  | CallSync | CallSyncWithResult => true
  | _ => false
  end.

(** The log lines a failing phase leaves: none for a quiet error. *)
Definition errorLog (e : error) (msg : string) : list Event :=
  if errors_Is (Some e) ErrQuiet_name then [] else [LogError e msg].

(** The entries of the stashed child-set result. *)
Definition stashChildren (w : World) : list ChildSetPartialResult :=
  match childSetResultStash w with
  | Some result => Children result
  | None => []
  end.

Definition isChildReconcile (e : Event) : bool :=
  match e with
  | ChildReconcile _ => true
  | _ => false
  end.

Definition isReflectCall (e : Event) : bool :=
  match e with
  | CallReflectChildrenStatus _ => true
  | _ => false
  end.

(** The identities of the per-child units a run started, in order. *)
Definition executedIDs (evs : list Event) : list string :=
  omap (fun e => match e with ChildReconcile id => Some id | _ => None end) evs.

(** The create, update and delete calls a run made on the store. *)
Definition isMutation (e : Event) : bool :=
  match e with
  | StoreCreate _ | StoreUpdate _ _ | StoreDelete _ => true
  | _ => false
  end.

(** The results handed to the status-reflection callback, in order. *)
Definition reflectedResults (evs : list Event) : list ChildSetResult :=
  omap (fun e => match e with CallReflectChildrenStatus r => Some r | _ => None end) evs.

(** The calls on the store: listing, create, update, delete, and
  persisting the finalizers of the resource. *)
Definition isStoreCall (e : Event) : bool :=
  match e with
  | CallList _ | StoreCreate _ | StoreUpdate _ _ | StoreDelete _
  | PersistFinalizers _ => true
  | _ => false
  end.


(** [Quiet P m]: whatever its outcome, [m] only appends events accepted by
  [P] to the trace, and leaves the stash as it is. *)
Definition Quiet {A} (P : Event -> bool) (m : M A) : Prop :=
  forall w, exists evs,
    forallb P evs = true
    /\ trace (finalWorld (m w)) = trace w ++ evs
    /\ childSetResultStash (finalWorld (m w)) = childSetResultStash w.

(** [PassRun P ids w o]: the outcome [o] of running, from [w], the units
  of the identities [ids] in sequence.  The units started are a prefix of
  [ids]; the other events are accepted by [P]; the stash gained [entries].
  When the run returns without error every unit ran, and left one entry. *)
Definition PassRun (P : Event -> bool) (ids : list string) (w : World)
    (o : Outcome (Result * option error)) : Prop :=
  exists evs entries,
    trace (finalWorld o) = trace w ++ evs
    /\ forallb (fun e => P e || isChildReconcile e) evs = true
    /\ executedIDs evs `prefix_of` ids
    /\ stashChildren (finalWorld o) = stashChildren w ++ entries
    /\ (forall e, e ∈ entries -> Id e ∈ executedIDs evs)
    /\ (forall result w', o = Returns (result, None) w' ->
        executedIDs evs = ids /\ map Id entries = ids).

(** The identities of the per-child units of a composed unit, in order. *)
Fixpoint unitIDs (s : SubReconciler) : list string :=
  match s with
  | ChildUnit cr => [cr_Name cr]
  | Sequence units => flat_map unitIDs units
  | WithFinalizer _ inner => unitIDs inner
  end.

End Observations.

(* ===================================================================== *)
(** ** A small instance: a parent with named children *)
(* ===================================================================== *)

Module Example.

Record Parent : Type := {
  deletionTimestamp : option Z;
  finalizers : list string;
  namespace : string;
  (** what the reflection callback wrote on the status *)
  reflected : list (string * bool);
}.

(** A child: its identity and its payload. *)
Definition Kid : Type := (string * Z)%type.

(** The store: its objects, and the identities whose creation it
    rejects, each with the error it answers. *)
Record Store : Type := {
  objects : list Kid;
  rejects : list (string * error);
}.

Definition rejection (id : string) (st : Store) : option error :=
  snd <$> find (fun r => String.eqb (fst r) id) (rejects st).

Definition withObjects (st : Store) (os : list Kid) : Store :=
  {| objects := os; rejects := rejects st |}.

#[global] Instance kinds : Kinds := {|
  ResourceType := Parent;
  ChildType := Kid;
  Cluster := Store;
  ListOption := string;
  Builder := unit;
  InNamespace := fun ns => ns;
  GetDeletionTimestamp := deletionTimestamp;
  GetNamespace := namespace;
  GetFinalizers := finalizers;
  SetFinalizers := fun fs p =>
    {| deletionTimestamp := deletionTimestamp p; finalizers := fs;
       namespace := namespace p; reflected := reflected p |};
  IsControlledBy := fun _ _ => true;
  childTypeName := "Kid";
  client_List := fun _ st => inl (objects st);
  client_Patch := fun _ st => (None, st);
|}.

Definition manager : ObjectManager := {|
  om_Create := fun d st =>
    match rejection (fst d) st with
    | Some e => (inr e, st)
    | None => (inl d, withObjects st (objects st ++ [d]))
    end;
  om_Update := fun a d st =>
    (inl d, withObjects st
              (map (fun o => if String.eqb (fst o) (fst a) then d else o) (objects st)));
  om_Delete := fun a st =>
    (None, withObjects st
             (filter (fun o => negb (String.eqb (fst o) (fst a))) (objects st)));
  om_NeedsUpdate := fun a d => negb (snd a =? snd d);
|}.

Definition live : Parent :=
  {| deletionTimestamp := None; finalizers := []; namespace := "default";
     reflected := [] |}.

Definition deleted : Parent :=
  {| deletionTimestamp := Some 1; finalizers := []; namespace := "default";
     reflected := [] |}.

Definition world (p : Parent) (os : list Kid) (rs : list (string * error)) : World :=
  {| resource := p; cluster := {| objects := os; rejects := rs |};
     childSetResultStash := None; trace := [] |}.

(** A sync callback that succeeds and asks for a requeue, and one that
    fails with the given error. *)
Definition syncOk : UserFn (Result * option error) :=
  fun p st => ((({| Requeue := true; RequeueAfter := 5 |}, None), p), st).

Definition syncFails (e : error) : UserFn (option error) :=
  fun p st => ((Some e, p), st).

Definition syncReconciler (sync : option (UserFn (option error)))
    (syncWithResult : option (UserFn (Result * option error)))
    : SyncReconciler.t :=
  {| SyncReconciler.Name := "";
     SyncReconciler.Setup := None;
     SyncReconciler.SyncDuringFinalization := false;
     SyncReconciler.Sync := sync;
     SyncReconciler.SyncWithResult := syncWithResult;
     SyncReconciler.Finalize := None;
     SyncReconciler.FinalizeWithResult := None;
     SyncReconciler.lazyInit := false |}.

(** The desired-children policy: the given children and error, whatever
    the resource. *)
Definition desiredChildren (desired : list Kid) (err : option error)
    : Context -> UserFn (list Kid * option error) :=
  fun _ p st => (((desired, err), p), st).

(** The reflection callback writes, per entry, the identity and whether
    the child failed; it fails with [err]. *)
Definition reflectChildren (err : option error)
    : Context -> ChildSetResult -> UserFn (option error) :=
  fun _ result p st =>
    ((err,
      {| deletionTimestamp := deletionTimestamp p; finalizers := finalizers p;
         namespace := namespace p;
         reflected := map (fun c => (Id c, negb (isNil (Err c)))) (Children result) |}),
     st).

Definition childSetReconciler (finalizer : string) (desired : list Kid)
    (desiredErr reflectErr : option error) : ChildSetReconciler.t :=
  {| ChildSetReconciler.Name := "";
     ChildSetReconciler.Finalizer := finalizer;
     ChildSetReconciler.SkipOwnerReference := false;
     ChildSetReconciler.Setup := None;
     ChildSetReconciler.DesiredChildren := Some (desiredChildren desired desiredErr);
     ChildSetReconciler.ChildObjectManager := Some manager;
     ChildSetReconciler.ReflectChildrenStatusOnParent := None;
     ChildSetReconciler.ReflectChildrenStatusOnParentWithError :=
       Some (reflectChildren reflectErr);
     ChildSetReconciler.ReflectedChildErrorReasons := None;
     ChildSetReconciler.ListOptions := Some (fun _ => []);
     ChildSetReconciler.OurChild := Some (fun _ _ => true);
     ChildSetReconciler.IdentifyChild := Some fst;
     ChildSetReconciler.lazyInit := false;
     ChildSetReconciler.voidReconciler := None |}.

Definition background : Context := {| knownChildrenStash := None |}.

(** The scenario of the design: desired [a] and [b], known [b] and [c]. *)
Definition desiredAB : list Kid := [("a", 1); ("b", 2)].
Definition knownBC : list Kid := [("b", 1); ("c", 3)].

(** A store error the reflection does not absorb, and one it does. *)
Definition internalError : error := StatusError "InternalError" "etcd unavailable".
Definition invalidError : error := StatusError "Invalid" "spec.replicas: must be positive".

(** An error of the reflection callback. *)
Definition reflectionError : error := Errorf "status update failed" [].

(** Two desired children with the same identity. *)
Definition desiredTwice : list Kid := [("a", 1); ("a", 2)].

End Example.

(* ===================================================================== *)
(** ** Setting up a ChildSetReconciler, and the aggregate of its result *)
(* ===================================================================== *)

Module ChildSetReconcilerSetup.
Section WithKinds.
Context `{K : Kinds}.
Import ChildSetReconciler.

(** [SetupWithManager] of [ChildSetReconciler]; the logger it sets up is
    not modelled.  The [SetupWithManager] of the object manager and of the
    void [ChildReconciler] are code outside the sources at hand, and are the
    parameters [setupObjectManager] and [setupChildReconciler].  The result
    is the receiver as the call leaves it, the error, and the builder;
    [None] when the call panics, on a nil [ChildObjectManager] or a nil
    [voidReconciler]. *)
Definition SetupWithManager
    (setupObjectManager : ObjectManager -> Builder -> option error * Builder)
    (setupChildReconciler : ChildReconciler -> Builder -> option error * Builder)
    (r : t) (bldr : Builder) : option (t * option error * Builder) :=
  let r := init r in
  let '(r, err) := Validate r in
  match err with
  | Some err => Some (r, Some err, bldr)
  | None =>
      match ChildObjectManager r with
      | None => None
      | Some om =>
          let '(err, bldr) := setupObjectManager om bldr in
          match err with
          | Some err => Some (r, Some err, bldr)
          | None =>
              match voidReconciler r with
              | None => None
              | Some void =>
                  let '(err, bldr) := setupChildReconciler void bldr in
                  match err with
                  | Some err => Some (r, Some err, bldr)
                  | None =>
                      match Setup r with
                      | Some setup =>
                          let '(err, bldr) := setup bldr in
                          Some (r, err, bldr)
                      | None => Some (r, None, bldr)
                      end
                  end
              end
          end
      end
  end.

End WithKinds.
End ChildSetReconcilerSetup.

Section Aggregate.
Context `{K : Kinds}.

(** [utilerrors.NewAggregate] of apimachinery: nil for an empty list; nil
    entries are dropped; nil when none is left.  The aggregate is kept as
    the list its [Errors()] answers. *)
Definition NewAggregate (errlist : list (option error)) : option (list error) :=
  if bool_decide (length errlist = 0%nat) then None
  else
    let errs := omap id errlist in
    if bool_decide (length errs = 0%nat) then None else Some errs.

(** [ChildSetResult.AggregateError]. *)
Definition AggregateError (r : ChildSetResult) : option (list error) :=
  let errs := fold_left (fun errs childResult => errs ++ [Err childResult])
                        (Children r) [] in
  NewAggregate errs.

End Aggregate.

(* ===================================================================== *)
(** ** Further observations *)
(* ===================================================================== *)

Section MoreObservations.
Context `{K : Kinds}.

(** The per-child units of a composed unit, in order. *)
Fixpoint childUnits (s : SubReconciler) : list ChildReconciler :=
  match s with
  | ChildUnit cr => [cr]
  | Sequence units => flat_map childUnits units
  | WithFinalizer _ inner => childUnits inner
  end.

(** Calling the [OurChild] field of a unit: [None] when the call panics. *)
Definition callOurChild (cr : ChildReconciler) (resource : ResourceType)
    (child : ChildType) : option bool :=
  match cr_OurChild cr with
  | Some ourChild => ourChild resource child
  | None => None
  end.

(** Whether the [OurChild] of the reconciler, when there is one, accepts
    the child. *)
Definition accepted (r : ChildSetReconciler.t) (resource : ResourceType)
    (child : ChildType) : bool :=
  match ChildSetReconciler.OurChild r with
  | Some ourChild => ourChild resource child
  | None => true
  end.

(** Whether the sync phase of a [SyncReconciler] runs from a world. *)
Definition runsSync (r : SyncReconciler.t) (w : World) : bool :=
  isNil (GetDeletionTimestamp (resource w)) || SyncReconciler.SyncDuringFinalization r.

(** The action the sync phase of a [SyncReconciler] calls, with the event
    of the call: [Sync] when it is given, answering the empty [Result],
    else [SyncWithResult]. *)
Definition syncAction (r : SyncReconciler.t)
    : option (Event * UserFn (Result * option error)) :=
  match SyncReconciler.Sync r, SyncReconciler.SyncWithResult r with
  | Some f, _ =>
      Some (CallSync,
            fun res cl => let '(err, res', cl') := f res cl in
                          ((emptyResult, err), res', cl'))
  | None, Some f => Some (CallSyncWithResult, f)
  | None, None => None
  end.

(** The action the finalize phase calls: [Finalize] when it is given, else
    [FinalizeWithResult]; none when neither is. *)
Definition finalizeAction (r : SyncReconciler.t)
    : option (Event * UserFn (Result * option error)) :=
  match SyncReconciler.Finalize r, SyncReconciler.FinalizeWithResult r with
  | Some f, _ =>
      Some (CallFinalize,
            fun res cl => let '(err, res', cl') := f res cl in
                          ((emptyResult, err), res', cl'))
  | None, Some f => Some (CallFinalizeWithResult, f)
  | None, None => None
  end.

Definition isFinalizeCall (e : Event) : bool :=
  match e with
  | CallFinalize | CallFinalizeWithResult => true
  | _ => false
  end.

(** The calls of one phase of a [SyncReconciler]: nothing, or the action
    of the phase, the plain one when both are given. *)
Definition phaseCalls (plain withResult : Event) (hasPlain : bool)
    (evs : list Event) : Prop :=
  evs = [] \/ (evs = [plain] /\ hasPlain = true)
  \/ (evs = [withResult] /\ hasPlain = false).

End MoreObservations.

(* ===================================================================== *)
(** ** The expectations of the testing package (testing/config.go) *)
(* ===================================================================== *)

Module Testing.
Local Open Scope nat_scope.

(** What the package takes from apimachinery, client-go, controller-runtime
    and its own files that are not at hand; it stays abstract. *)
Class Fakes : Type := {
  (** [client.Object] *)
  Object : Type;
  (** a recorded create, update or status update *)
  objectAction : Type;
  GetObject : objectAction -> Object;
  (** [labels.Selector] and [fields.Selector] *)
  LabelsSelector : Type;
  FieldsSelector : Type;
  (** a recorded event *)
  Event : Type;
  (** a request to track a resource, and the normal form the tracker keeps *)
  TrackRequest : Type;
  normalize : TrackRequest -> TrackRequest;
  (** the colours of a printed difference *)
  DiffRemovedColor_Sprint : string -> string;
  DiffAddedColor_Sprint : string -> string;
  ColorizeDiff : string -> string;
}.

Section WithFakes.
Context `{F : Fakes}.

(** [schema.GroupVersionResource]. *)
Record GroupVersionResource : Type := {
  gvr_Group : string;
  gvr_Version : string;
  gvr_Resource : string;
}.

(** What the code reads of a [PatchAction], a [DeleteAction] and a
    [DeleteCollectionAction] of client-go: the answers of their getters. *)
Record PatchAction : Type := {
  PatchAction_GetResource : GroupVersionResource;
  PatchAction_GetNamespace : string;
  PatchAction_GetName : string;
  PatchAction_GetSubresource : string;
  PatchAction_GetPatchType : string;
  PatchAction_GetPatch : list Byte.byte;
}.

Record DeleteAction : Type := {
  DeleteAction_GetResource : GroupVersionResource;
  DeleteAction_GetNamespace : string;
  DeleteAction_GetName : string;
}.

Record ListRestrictions : Type := {
  Labels : LabelsSelector;
  Fields : FieldsSelector;
}.

Record DeleteCollectionAction : Type := {
  DeleteCollectionAction_GetResource : GroupVersionResource;
  DeleteCollectionAction_GetNamespace : string;
  DeleteCollectionAction_GetListRestrictions : ListRestrictions;
}.

Record PatchRef : Type := {
  PatchRef_Group : string;
  PatchRef_Kind : string;
  PatchRef_Namespace : string;
  PatchRef_Name : string;
  PatchRef_SubResource : string;
  PatchRef_PatchType : string;
  PatchRef_Patch : list Byte.byte;
}.

Definition NewPatchRef (action : PatchAction) : PatchRef :=
  {| PatchRef_Group := gvr_Group (PatchAction_GetResource action);
     PatchRef_Kind := gvr_Resource (PatchAction_GetResource action);
     PatchRef_Namespace := PatchAction_GetNamespace action;
     PatchRef_Name := PatchAction_GetName action;
     PatchRef_SubResource := PatchAction_GetSubresource action;
     PatchRef_PatchType := PatchAction_GetPatchType action;
     PatchRef_Patch := PatchAction_GetPatch action |}.

Record DeleteRef : Type := {
  DeleteRef_Group : string;
  DeleteRef_Kind : string;
  DeleteRef_Namespace : string;
  DeleteRef_Name : string;
}.

Definition NewDeleteRef (action : DeleteAction) : DeleteRef :=
  {| DeleteRef_Group := gvr_Group (DeleteAction_GetResource action);
     DeleteRef_Kind := gvr_Resource (DeleteAction_GetResource action);
     DeleteRef_Namespace := DeleteAction_GetNamespace action;
     DeleteRef_Name := DeleteAction_GetName action |}.

Record DeleteCollectionRef : Type := {
  DeleteCollectionRef_Group : string;
  DeleteCollectionRef_Kind : string;
  DeleteCollectionRef_Namespace : string;
  DeleteCollectionRef_Labels : LabelsSelector;
  DeleteCollectionRef_Fields : FieldsSelector;
}.

Definition NewDeleteCollectionRef (action : DeleteCollectionAction) : DeleteCollectionRef :=
  {| DeleteCollectionRef_Group := gvr_Group (DeleteCollectionAction_GetResource action);
     DeleteCollectionRef_Kind := gvr_Resource (DeleteCollectionAction_GetResource action);
     DeleteCollectionRef_Namespace := DeleteCollectionAction_GetNamespace action;
     DeleteCollectionRef_Labels :=
       Labels (DeleteCollectionAction_GetListRestrictions action);
     DeleteCollectionRef_Fields :=
       Fields (DeleteCollectionAction_GetListRestrictions action) |}.

(** The methods of the [Differ] interface the assertions below call: each
    answers the printed difference, empty when there is none. *)
Record Differ : Type := {
  Differ_ResourceCreate : Object -> Object -> string;
  Differ_ResourceUpdate : Object -> Object -> string;
  Differ_ResourceStatusUpdate : Object -> Object -> string;
  Differ_PatchRef : PatchRef -> PatchRef -> string;
  Differ_DeleteRef : DeleteRef -> DeleteRef -> string;
  Differ_DeleteCollectionRef : DeleteCollectionRef -> DeleteCollectionRef -> string;
  Differ_Event : Event -> Event -> string;
  Differ_TrackRequest : TrackRequest -> TrackRequest -> string;
}.

(** The actions the client wrapper recorded, the events of the recorder,
    and the requests the tracker answers. *)
Record clientWrapper : Type := {
  CreateActions : list objectAction;
  UpdateActions : list objectAction;
  PatchActions : list PatchAction;
  DeleteActions : list DeleteAction;
  DeleteCollectionActions : list DeleteCollectionAction;
  StatusUpdateActions : list objectAction;
  StatusPatchActions : list PatchAction;
}.

Record eventRecorder : Type := {
  events : list Event;
}.

Record mockTracker : Type := {
  getTrackRequests : list TrackRequest;
}.

(** A value handed to [fmt.Sprintf] or to [t.Errorf], and the strings they
    build, kept as the format and its arguments. *)
Inductive Value : Type :=
| VInt (n : nat)
| VString (s : string)
| VSprintf (format : string) (args : list Value)
| VObject (o : Object)
| VObjectAction (a : objectAction)
| VPatchRef (p : PatchRef)
| VPatchAction (a : PatchAction)
| VDeleteRef (d : DeleteRef)
| VDeleteAction (a : DeleteAction)
| VDeleteCollectionRef (d : DeleteCollectionRef)
| VDeleteCollectionAction (a : DeleteCollectionAction)
| VEvent (e : Event)
| VTrackRequest (r : TrackRequest).

(** [testing.T]: whether the test failed, and its error lines. *)
Record T : Type := {
  failed : bool;
  output : list Value;
}.

Definition T_Errorf (t : T) (message : string) (args : list Value) : T :=
  {| failed := true; output := output t ++ [VSprintf message args] |}.

(** [ExpectConfig] once [init] has run: the fields the assertions read.
    The assertions call [init] first, which does nothing then. *)
Record ExpectConfig : Type := {
  Name : string;
  differ : Differ;
  ExpectTracks : list TrackRequest;
  ExpectEvents : list Event;
  ExpectCreates : list Object;
  ExpectUpdates : list Object;
  ExpectPatches : list PatchRef;
  ExpectDeletes : list DeleteRef;
  ExpectDeleteCollections : list DeleteCollectionRef;
  ExpectStatusUpdates : list Object;
  ExpectStatusPatches : list PatchRef;
  client : clientWrapper;
  recorder : eventRecorder;
  tracker : mockTracker;
  observedErrors : list Value;
}.

Definition setObservedErrors (c : ExpectConfig) (errs : list Value) : ExpectConfig :=
  {| Name := Name c; differ := differ c; ExpectTracks := ExpectTracks c;
     ExpectEvents := ExpectEvents c;
     ExpectCreates := ExpectCreates c; ExpectUpdates := ExpectUpdates c;
     ExpectPatches := ExpectPatches c; ExpectDeletes := ExpectDeletes c;
     ExpectDeleteCollections := ExpectDeleteCollections c;
     ExpectStatusUpdates := ExpectStatusUpdates c;
     ExpectStatusPatches := ExpectStatusPatches c;
     client := client c; recorder := recorder c; tracker := tracker c;
     observedErrors := errs |}.

Definition configNameMsg (c : ExpectConfig) : Value :=
  if String.eqb (Name c) "" || String.eqb (Name c) "default" then VString ""
  else VSprintf " for config %q" [VString (Name c)].

(** [errorf]: [t] is a pointer, nil when [None]. *)
Definition errorf (c : ExpectConfig) (t : option T) (message : string)
    (args : list Value) : ExpectConfig * option T :=
  let t :=
    match t with
    | Some t => Some (T_Errorf t message args)
    | None => None
    end in
  (setObservedErrors c (observedErrors c ++ [VSprintf message args]), t).

Definition newline : string := String (Ascii.ascii_of_nat 10) EmptyString.

Definition compareActions (c : ExpectConfig) (t : option T) (actionName : string)
    (expectedActionFactories : list Object) (actualActions : list objectAction)
    (differ : Object -> Object -> string) : ExpectConfig * option T :=
  let ct :=
    foldl (fun ct ie =>
             let '(c, t) := ct in
             let '(i, exp) := ie in
             match actualActions !! i with
             | None =>
                 errorf c t "Expect%ss[%d] not observed%s: %#v"
                   [VString actionName; VInt i; configNameMsg c; VObject exp]
             | Some action =>
                 let actual := GetObject action in
                 let diff := differ exp actual in
                 if negb (String.eqb diff "") then
                   errorf c t ("Expect%ss[%d] differs%s (%s, %s):" ++ newline ++ "%s")%string
                     [VString actionName; VInt i; configNameMsg c;
                      VString (DiffRemovedColor_Sprint "-expected");
                      VString (DiffAddedColor_Sprint "+actual");
                      VString (ColorizeDiff diff)]
                 else (c, t)
             end)
          (c, t) (imap pair expectedActionFactories) in
  let '(c, t) := ct in
  if bool_decide (length expectedActionFactories < length actualActions) then
    foldl (fun ct extra =>
             let '(c, t) := ct in
             errorf c t "Unexpected %s observed%s: %#v"
               [VString actionName; configNameMsg c; VObjectAction extra])
          (c, t) (drop (length expectedActionFactories) actualActions)
  else (c, t).

Definition AssertClientCreateExpectations (c : ExpectConfig) (t : option T)
    : ExpectConfig * option T :=
  compareActions c t "Create" (ExpectCreates c) (CreateActions (client c))
    (Differ_ResourceCreate (differ c)).

Definition AssertClientUpdateExpectations (c : ExpectConfig) (t : option T)
    : ExpectConfig * option T :=
  compareActions c t "Update" (ExpectUpdates c) (UpdateActions (client c))
    (Differ_ResourceUpdate (differ c)).

Definition AssertClientPatchExpectations (c : ExpectConfig) (t : option T)
    : ExpectConfig * option T :=
  let ct :=
    foldl (fun ct ie =>
             let '(c, t) := ct in
             let '(i, exp) := ie in
             match PatchActions (client c) !! i with
             | None =>
                 errorf c t "ExpectPatches[%d] not observed%s: %#v"
                   [VInt i; configNameMsg c; VPatchRef exp]
             | Some action =>
                 let actual := NewPatchRef action in
                 let diff := Differ_PatchRef (differ c) exp actual in
                 if negb (String.eqb diff "") then
                   errorf c t ("ExpectPatches[%d] differs%s (%s, %s):" ++ newline ++ "%s")%string
                     [VInt i; configNameMsg c;
                      VString (DiffRemovedColor_Sprint "-expected");
                      VString (DiffAddedColor_Sprint "+actual");
                      VString (ColorizeDiff diff)]
                 else (c, t)
             end)
          (c, t) (imap pair (ExpectPatches c)) in
  let '(c, t) := ct in
  if bool_decide (length (ExpectPatches c) < length (PatchActions (client c))) then
    foldl (fun ct extra =>
             let '(c, t) := ct in
             errorf c t "Unexpected Patch observed%s: %#v"
               [configNameMsg c; VPatchAction extra])
          (c, t) (drop (length (ExpectPatches c)) (PatchActions (client c)))
  else (c, t).

Definition AssertClientDeleteExpectations (c : ExpectConfig) (t : option T)
    : ExpectConfig * option T :=
  let ct :=
    foldl (fun ct ie =>
             let '(c, t) := ct in
             let '(i, exp) := ie in
             match DeleteActions (client c) !! i with
             | None =>
                 errorf c t "ExpectDeletes[%d] not observed%s: %#v"
                   [VInt i; configNameMsg c; VDeleteRef exp]
             | Some action =>
                 let actual := NewDeleteRef action in
                 let diff := Differ_DeleteRef (differ c) exp actual in
                 if negb (String.eqb diff "") then
                   errorf c t ("ExpectDeletes[%d] differs%s (%s, %s):" ++ newline ++ "%s")%string
                     [VInt i; configNameMsg c;
                      VString (DiffRemovedColor_Sprint "-expected");
                      VString (DiffAddedColor_Sprint "+actual");
                      VString (ColorizeDiff diff)]
                 else (c, t)
             end)
          (c, t) (imap pair (ExpectDeletes c)) in
  let '(c, t) := ct in
  if bool_decide (length (ExpectDeletes c) < length (DeleteActions (client c))) then
    foldl (fun ct extra =>
             let '(c, t) := ct in
             errorf c t "Unexpected Delete observed%s: %#v"
               [configNameMsg c; VDeleteAction extra])
          (c, t) (drop (length (ExpectDeletes c)) (DeleteActions (client c)))
  else (c, t).

Definition AssertClientDeleteCollectionExpectations (c : ExpectConfig) (t : option T)
    : ExpectConfig * option T :=
  let ct :=
    foldl (fun ct ie =>
             let '(c, t) := ct in
             let '(i, exp) := ie in
             match DeleteCollectionActions (client c) !! i with
             | None =>
                 errorf c t "ExpectDeleteCollections[%d] not observed%s: %#v"
                   [VInt i; configNameMsg c; VDeleteCollectionRef exp]
             | Some action =>
                 let actual := NewDeleteCollectionRef action in
                 let diff := Differ_DeleteCollectionRef (differ c) exp actual in
                 if negb (String.eqb diff "") then
                   errorf c t
                     ("ExpectDeleteCollections[%d] differs%s (%s, %s):" ++ newline ++ "%s")%string
                     [VInt i; configNameMsg c;
                      VString (DiffRemovedColor_Sprint "-expected");
                      VString (DiffAddedColor_Sprint "+actual");
                      VString (ColorizeDiff diff)]
                 else (c, t)
             end)
          (c, t) (imap pair (ExpectDeleteCollections c)) in
  let '(c, t) := ct in
  if bool_decide (length (ExpectDeleteCollections c)
                  < length (DeleteCollectionActions (client c))) then
    foldl (fun ct extra =>
             let '(c, t) := ct in
             errorf c t "Unexpected DeleteCollection observed%s: %#v"
               [configNameMsg c; VDeleteCollectionAction extra])
          (c, t) (drop (length (ExpectDeleteCollections c)) (DeleteCollectionActions (client c)))
  else (c, t).

Definition AssertClientStatusUpdateExpectations (c : ExpectConfig) (t : option T)
    : ExpectConfig * option T :=
  compareActions c t "StatusUpdate" (ExpectStatusUpdates c)
    (StatusUpdateActions (client c)) (Differ_ResourceStatusUpdate (differ c)).

Definition AssertClientStatusPatchExpectations (c : ExpectConfig) (t : option T)
    : ExpectConfig * option T :=
  let ct :=
    foldl (fun ct ie =>
             let '(c, t) := ct in
             let '(i, exp) := ie in
             match StatusPatchActions (client c) !! i with
             | None =>
                 errorf c t "ExpectStatusPatches[%d] not observed%s: %#v"
                   [VInt i; configNameMsg c; VPatchRef exp]
             | Some action =>
                 let actual := NewPatchRef action in
                 let diff := Differ_PatchRef (differ c) exp actual in
                 if negb (String.eqb diff "") then
                   errorf c t
                     ("ExpectStatusPatches[%d] differs%s (%s, %s):" ++ newline ++ "%s")%string
                     [VInt i; configNameMsg c;
                      VString (DiffRemovedColor_Sprint "-expected");
                      VString (DiffAddedColor_Sprint "+actual");
                      VString (ColorizeDiff diff)]
                 else (c, t)
             end)
          (c, t) (imap pair (ExpectStatusPatches c)) in
  let '(c, t) := ct in
  if bool_decide (length (ExpectStatusPatches c) < length (StatusPatchActions (client c))) then
    foldl (fun ct extra =>
             let '(c, t) := ct in
             errorf c t "Unexpected StatusPatch observed%s: %#v"
               [configNameMsg c; VPatchAction extra])
          (c, t) (drop (length (ExpectStatusPatches c)) (StatusPatchActions (client c)))
  else (c, t).

Definition AssertClientExpectations (c : ExpectConfig) (t : option T)
    : ExpectConfig * option T :=
  let '(c, t) := AssertClientCreateExpectations c t in
  let '(c, t) := AssertClientUpdateExpectations c t in
  let '(c, t) := AssertClientPatchExpectations c t in
  let '(c, t) := AssertClientDeleteExpectations c t in
  let '(c, t) := AssertClientDeleteCollectionExpectations c t in
  let '(c, t) := AssertClientStatusUpdateExpectations c t in
  AssertClientStatusPatchExpectations c t.

Definition AssertRecorderExpectations (c : ExpectConfig) (t : option T)
    : ExpectConfig * option T :=
  let actualEvents := events (recorder c) in
  let ct :=
    foldl (fun ct ie =>
             let '(c, t) := ct in
             let '(i, exp) := ie in
             match actualEvents !! i with
             | None =>
                 errorf c t "ExpectEvents[%d] not observed%s: %s"
                   [VInt i; configNameMsg c; VEvent exp]
             | Some actual =>
                 let diff := Differ_Event (differ c) exp actual in
                 if negb (String.eqb diff "") then
                   errorf c t ("ExpectEvents[%d] differs%s (%s, %s):" ++ newline ++ "%s")%string
                     [VInt i; configNameMsg c;
                      VString (DiffRemovedColor_Sprint "-expected");
                      VString (DiffAddedColor_Sprint "+actual");
                      VString (ColorizeDiff diff)]
                 else (c, t)
             end)
          (c, t) (imap pair (ExpectEvents c)) in
  let '(c, t) := ct in
  if bool_decide (length (ExpectEvents c) < length actualEvents) then
    foldl (fun ct extra =>
             let '(c, t) := ct in
             errorf c t "Unexpected Event observed%s: %s"
               [configNameMsg c; VEvent extra])
          (c, t) (drop (length (ExpectEvents c)) actualEvents)
  else (c, t).

Definition AssertTrackerExpectations (c : ExpectConfig) (t : option T)
    : ExpectConfig * option T :=
  let actualTracks := getTrackRequests (tracker c) in
  let ct :=
    foldl (fun ct ie =>
             let '(c, t) := ct in
             let '(i, exp) := ie in
             let exp := normalize exp in
             match actualTracks !! i with
             | None =>
                 errorf c t "ExpectTracks[%d] not observed%s: %v"
                   [VInt i; configNameMsg c; VTrackRequest exp]
             | Some actual =>
                 let diff := Differ_TrackRequest (differ c) exp actual in
                 if negb (String.eqb diff "") then
                   errorf c t ("ExpectTracks[%d] differs%s (%s, %s):" ++ newline ++ "%s")%string
                     [VInt i; configNameMsg c;
                      VString (DiffRemovedColor_Sprint "-expected");
                      VString (DiffAddedColor_Sprint "+actual");
                      VString (ColorizeDiff diff)]
                 else (c, t)
             end)
          (c, t) (imap pair (ExpectTracks c)) in
  let '(c, t) := ct in
  if bool_decide (length (ExpectTracks c) < length actualTracks) then
    foldl (fun ct extra =>
             let '(c, t) := ct in
             errorf c t "Unexpected Track observed%s: %v"
               [configNameMsg c; VTrackRequest extra])
          (c, t) (drop (length (ExpectTracks c)) actualTracks)
  else (c, t).

Definition AssertExpectations (c : ExpectConfig) (t : option T)
    : ExpectConfig * option T :=
  let '(c, t) := AssertClientExpectations c t in
  let '(c, t) := AssertRecorderExpectations c t in
  AssertTrackerExpectations c t.

(** *** What an assertion is expected to establish *)

(** The observed list agrees with the expected one: the same length, and
    no difference at any position. *)
Definition agree {E A} (diff : E -> A -> string) (expected : list E) (actual : list A)
    : Prop :=
  Forall2 (fun e a => diff e a = "") expected actual.

(** The discrepancies between them: the positions that differ, the
    expectations without an observation, the observations without an
    expectation. *)
Definition discrepancies {E A} (diff : E -> A -> string) (expected : list E)
    (actual : list A) : nat :=
  length (List.filter (fun ea => negb (String.eqb (diff ea.1 ea.2) "")) (zip expected actual))
  + (length expected - length actual)
  + (length actual - length expected).

(** The comparisons the assertions on the client make: objects with the
    object of the recorded action, patches and deletes through the
    reference built from the recorded action. *)
Definition objectDiff (differ : Object -> Object -> string) (e : Object)
    (a : objectAction) : string :=
  differ e (GetObject a).

Definition patchDiff (c : ExpectConfig) (e : PatchRef) (a : PatchAction) : string :=
  Differ_PatchRef (differ c) e (NewPatchRef a).

Definition deleteDiff (c : ExpectConfig) (e : DeleteRef) (a : DeleteAction) : string :=
  Differ_DeleteRef (differ c) e (NewDeleteRef a).

Definition deleteCollectionDiff (c : ExpectConfig) (e : DeleteCollectionRef)
    (a : DeleteCollectionAction) : string :=
  Differ_DeleteCollectionRef (differ c) e (NewDeleteCollectionRef a).

(** An expected track request is compared in its normal form. *)
Definition trackDiff (c : ExpectConfig) (e a : TrackRequest) : string :=
  Differ_TrackRequest (differ c) (normalize e) a.

(** The discrepancies over the seven kinds of action of the client, and
    their absence. *)
Definition clientDiscrepancies (c : ExpectConfig) : nat :=
  discrepancies (objectDiff (Differ_ResourceCreate (differ c)))
    (ExpectCreates c) (CreateActions (client c))
  + discrepancies (objectDiff (Differ_ResourceUpdate (differ c)))
      (ExpectUpdates c) (UpdateActions (client c))
  + discrepancies (patchDiff c) (ExpectPatches c) (PatchActions (client c))
  + discrepancies (deleteDiff c) (ExpectDeletes c) (DeleteActions (client c))
  + discrepancies (deleteCollectionDiff c)
      (ExpectDeleteCollections c) (DeleteCollectionActions (client c))
  + discrepancies (objectDiff (Differ_ResourceStatusUpdate (differ c)))
      (ExpectStatusUpdates c) (StatusUpdateActions (client c))
  + discrepancies (patchDiff c) (ExpectStatusPatches c) (StatusPatchActions (client c)).

Definition clientAgrees (c : ExpectConfig) : Prop :=
  agree (objectDiff (Differ_ResourceCreate (differ c)))
    (ExpectCreates c) (CreateActions (client c))
  /\ agree (objectDiff (Differ_ResourceUpdate (differ c)))
       (ExpectUpdates c) (UpdateActions (client c))
  /\ agree (patchDiff c) (ExpectPatches c) (PatchActions (client c))
  /\ agree (deleteDiff c) (ExpectDeletes c) (DeleteActions (client c))
  /\ agree (deleteCollectionDiff c)
       (ExpectDeleteCollections c) (DeleteCollectionActions (client c))
  /\ agree (objectDiff (Differ_ResourceStatusUpdate (differ c)))
       (ExpectStatusUpdates c) (StatusUpdateActions (client c))
  /\ agree (patchDiff c) (ExpectStatusPatches c) (StatusPatchActions (client c)).

(** The configuration and the test after the error lines [errs] were
    reported. *)
Definition withErrors (c : ExpectConfig) (errs : list Value) : ExpectConfig :=
  setObservedErrors c (observedErrors c ++ errs).

Definition reported (t : option T) (errs : list Value) : option T :=
  match t, errs with
  | None, _ => None
  | Some t, [] => Some t
  | Some t, _ :: _ => Some {| failed := true; output := output t ++ errs |}
  end.

End WithFakes.
End Testing.

(* ===================================================================== *)
(** ** Further instances *)
(* ===================================================================== *)

Module Cases.
Import Example.

(** A [Setup] that registers nothing and succeeds. *)
Definition setupOk : unit -> option error * unit := fun bldr => (None, bldr).

(** A sync reconciler with a [Setup]. *)
Definition syncReconcilerWithSetup (sync : option (UserFn (option error)))
    : SyncReconciler.t :=
  {| SyncReconciler.Name := "";
     SyncReconciler.Setup := Some setupOk;
     SyncReconciler.SyncDuringFinalization := false;
     SyncReconciler.Sync := sync;
     SyncReconciler.SyncWithResult := None;
     SyncReconciler.Finalize := None;
     SyncReconciler.FinalizeWithResult := None;
     SyncReconciler.lazyInit := false |}.

(** A finalize action that fails with the given error. *)
Definition finalizeFails (e : error) : UserFn (option error) :=
  fun p st => ((Some e, p), st).

(** A sync reconciler that also syncs a resource pending deletion, and
    whose finalize action fails. *)
Definition syncReconcilerFinalizing (e : error) : SyncReconciler.t :=
  {| SyncReconciler.Name := "";
     SyncReconciler.Setup := None;
     SyncReconciler.SyncDuringFinalization := true;
     SyncReconciler.Sync := None;
     SyncReconciler.SyncWithResult := Some syncOk;
     SyncReconciler.Finalize := Some (finalizeFails e);
     SyncReconciler.FinalizeWithResult := None;
     SyncReconciler.lazyInit := false |}.

(** The policy that keeps the children there are. *)
Definition preserve : Context -> UserFn (list Kid * option error) :=
  fun ctx res cl => ((RetrieveKnownChildren ctx, None), res, cl).

(** The reflection callback without an error: it writes the identities. *)
Definition reflectOnly : Context -> ChildSetResult -> UserFn unit :=
  fun _ result p st =>
    ((tt,
      {| deletionTimestamp := deletionTimestamp p; finalizers := finalizers p;
         namespace := namespace p;
         reflected := map (fun c => (Id c, negb (isNil (Err c)))) (Children result) |}),
     st).

(** A child-set reconciler with the given policy, object manager and
    reflection callbacks. *)
Definition childSetReconcilerOf
    (policy : Context -> UserFn (list Kid * option error))
    (om : option ObjectManager)
    (reflect : option (Context -> ChildSetResult -> UserFn unit))
    (reflectWithError : option (Context -> ChildSetResult -> UserFn (option error)))
    : ChildSetReconciler.t :=
  {| ChildSetReconciler.Name := "";
     ChildSetReconciler.Finalizer := "";
     ChildSetReconciler.SkipOwnerReference := false;
     ChildSetReconciler.Setup := None;
     ChildSetReconciler.DesiredChildren := Some policy;
     ChildSetReconciler.ChildObjectManager := om;
     ChildSetReconciler.ReflectChildrenStatusOnParent := reflect;
     ChildSetReconciler.ReflectChildrenStatusOnParentWithError := reflectWithError;
     ChildSetReconciler.ReflectedChildErrorReasons := None;
     ChildSetReconciler.ListOptions := None;
     ChildSetReconciler.OurChild := None;
     ChildSetReconciler.IdentifyChild := Some fst;
     ChildSetReconciler.lazyInit := false;
     ChildSetReconciler.voidReconciler := None |}.

(** Set-up steps that register nothing and succeed. *)
Definition setupObjectManagerOk : ObjectManager -> unit -> option error * unit :=
  fun _ bldr => (None, bldr).
Definition setupChildReconcilerOk : ChildReconciler -> unit -> option error * unit :=
  fun _ bldr => (None, bldr).

(** A store that cannot be reached: listing fails. *)
Definition offline : Kinds := {|
  ResourceType := Parent;
  ChildType := Kid;
  Cluster := Store;
  ListOption := string;
  Builder := unit;
  InNamespace := fun ns => ns;
  GetDeletionTimestamp := deletionTimestamp;
  GetNamespace := namespace;
  GetFinalizers := finalizers;
  SetFinalizers := fun fs p =>
    {| deletionTimestamp := deletionTimestamp p; finalizers := fs;
       namespace := namespace p; reflected := reflected p |};
  IsControlledBy := fun _ _ => true;
  childTypeName := "Kid";
  client_List := fun _ _ => inr internalError;
  client_Patch := fun _ st => (None, st);
|}.

Definition offlineReconciler : @ChildSetReconciler.t offline :=
  {| ChildSetReconciler.Name := "";
     ChildSetReconciler.Finalizer := "";
     ChildSetReconciler.SkipOwnerReference := false;
     ChildSetReconciler.Setup := None;
     ChildSetReconciler.DesiredChildren := None;
     ChildSetReconciler.ChildObjectManager := None;
     ChildSetReconciler.ReflectChildrenStatusOnParent := None;
     ChildSetReconciler.ReflectChildrenStatusOnParentWithError := None;
     ChildSetReconciler.ReflectedChildErrorReasons := None;
     ChildSetReconciler.ListOptions := None;
     ChildSetReconciler.OurChild := None;
     ChildSetReconciler.IdentifyChild := None;
     ChildSetReconciler.lazyInit := false;
     ChildSetReconciler.voidReconciler := None |}.

Definition offlineWorld : @World offline :=
  @mkWorld offline live {| objects := []; rejects := [] |} None [].

Definition offlineContext : @Context offline := @Build_Context offline None.

End Cases.

(* ===================================================================== *)
(** * Properties *)
(* ===================================================================== *)

(** ** The monad and the trace *)

Section TraceFacts.
Context `{K : Kinds}.

Lemma newEvents_app (w w' : World) (evs : list Event) :
  trace w' = trace w ++ evs -> newEvents w w' = evs.
Proof.
  intros H. unfold newEvents. rewrite H. by rewrite drop_app_length.
Qed.

Lemma withEvents_nil (w : World) : withEvents w [] = w.
Proof. destruct w. unfold withEvents. simpl. by rewrite app_nil_r. Qed.

End TraceFacts.

(** ** SyncReconciler *)

Section SyncReconcilerFacts.
Context `{K : Kinds}.
Import SyncReconciler.

Lemma AggregateResults_empty_r (a : Result) : AggregateResults a emptyResult = a.
Proof.
  destruct a as [rq ra]. unfold AggregateResults. simpl.
  rewrite orb_false_r. by destruct (ra =? 0) eqn:E; [apply Z.eqb_eq in E; subst|].
Qed.

Lemma init_fields (r : t) :
  Sync (init r) = Sync r /\ SyncWithResult (init r) = SyncWithResult r /\
  Finalize (init r) = Finalize r /\ FinalizeWithResult (init r) = FinalizeWithResult r /\
  Setup (init r) = Setup r.
Proof. unfold init. by destruct (lazyInit r). Qed.

(** C8.  [Validate] returns an error exactly for the three invalid
    configurations: neither [Sync] nor [SyncWithResult], both of them, or
    both [Finalize] and [FinalizeWithResult]; otherwise it returns nil. *)
Theorem SyncReconciler_Validate_error_iff (r : t) :
  is_Some (Validate r) <->
    (Sync r = None /\ SyncWithResult r = None)
    \/ (is_Some (Sync r) /\ is_Some (SyncWithResult r))
    \/ (is_Some (Finalize r) /\ is_Some (FinalizeWithResult r)).
Proof.
  unfold Validate.
  destruct (init_fields r) as (-> & -> & -> & -> & _).
  destruct (Sync r), (SyncWithResult r), (Finalize r), (FinalizeWithResult r);
    simpl; split; intros H;
    try (by eauto 6);
    try (by destruct H as [[? ?]|[[? ?]|[? ?]]];
         repeat match goal with
                | H : is_Some None |- _ => by destruct H
                | H : Some _ = None |- _ => discriminate H
                end).
Qed.


Lemma Validate_None (r : t) :
  Validate r = None ->
  (is_Some (Sync r) \/ is_Some (SyncWithResult r)).
Proof.
  unfold Validate. destruct (init_fields r) as (-> & -> & _).
  destruct (Sync r), (SyncWithResult r); simpl; intros H; by eauto.
Qed.

Lemma Validate_rejects_no_sync (r : t) :
  Sync r = None -> SyncWithResult r = None -> is_Some (Validate r).
Proof.
  unfold Validate. destruct (init_fields r) as (-> & -> & _).
  intros -> ->. simpl. by eauto.
Qed.

(** [sync] on a reconciler with a sync action: the action is called
    once, and only the resource and the store change. *)
Lemma sync_returns (r : t) (w : World) :
  is_Some (Sync r) \/ is_Some (SyncWithResult r) ->
  exists result err res cl ev,
    isSyncCall ev = true /\
    sync r w = Returns (result, err)
                 {| resource := res; cluster := cl;
                    childSetResultStash := childSetResultStash w;
                    trace := trace w ++ [ev] |}.
Proof.
  intros H. unfold sync.
  destruct (Sync r) as [f|] eqn:E1.
  - unfold bind, emit, callUser, ret. simpl.
    destruct (f (resource w) (cluster w)) as [[err res] cl] eqn:Ef.
    exists emptyResult, err, res, cl, CallSync. done.
  - destruct (SyncWithResult r) as [f|] eqn:E2.
    + unfold bind, emit, callUser, ret. simpl.
      destruct (f (resource w) (cluster w)) as [[[result err] res] cl] eqn:Ef.
      exists result, err, res, cl, CallSyncWithResult. done.
    + destruct H as [[? ?]|[? ?]]; discriminate.
Qed.

(** [finalize] always returns, and calls no sync action. *)
Lemma finalize_returns (r : t) (w : World) :
  exists result err res cl evs,
    List.filter isSyncCall evs = [] /\
    finalize r w = Returns (result, err)
                     {| resource := res; cluster := cl;
                        childSetResultStash := childSetResultStash w;
                        trace := trace w ++ evs |}.
Proof.
  unfold finalize.
  destruct (Finalize r) as [f|] eqn:E1.
  - unfold bind, emit, callUser, ret. simpl.
    destruct (f (resource w) (cluster w)) as [[err res] cl] eqn:Ef.
    exists emptyResult, err, res, cl, [CallFinalize]. done.
  - destruct (FinalizeWithResult r) as [f|] eqn:E2.
    + unfold bind, emit, callUser, ret. simpl.
      destruct (f (resource w) (cluster w)) as [[[result err] res] cl] eqn:Ef.
      exists result, err, res, cl, [CallFinalizeWithResult]. done.
    + exists emptyResult, None, (resource w), (cluster w), [].
      split; [done|]. unfold ret. rewrite app_nil_r. by destruct w.
Qed.

Lemma logUnlessQuiet_run (e : error) (msg : string) (w : World) :
  logUnlessQuiet e msg w = Returns tt (withEvents w (errorLog e msg)).
Proof.
  unfold logUnlessQuiet, errorLog.
  destruct (errors_Is (Some e) ErrQuiet_name); simpl.
  - by rewrite withEvents_nil.
  - done.
Qed.

Lemma filter_isSyncCall_errorLog (e : error) (msg : string) :
  List.filter isSyncCall (errorLog e msg) = [].
Proof. unfold errorLog. by destruct (errors_Is _ _). Qed.

(** [sync] calls the sync action once, on the resource and the store as
    they are, and returns what the action answers. *)
Lemma sync_run (r : t) (w : World) :
  is_Some (Sync r) \/ is_Some (SyncWithResult r) ->
  exists ev action result err res cl,
    syncAction r = Some (ev, action)
    /\ isSyncCall ev = true
    /\ action (resource w) (cluster w) = ((result, err), res, cl)
    /\ sync r w = Returns (result, err)
                    {| resource := res; cluster := cl;
                       childSetResultStash := childSetResultStash w;
                       trace := trace w ++ [ev] |}.
Proof.
  intros H. unfold sync, syncAction.
  destruct (Sync r) as [f|] eqn:E1.
  - unfold bind, emit, callUser, ret. simpl.
    destruct (f (resource w) (cluster w)) as [[err res] cl] eqn:Ef.
    eexists CallSync, _, emptyResult, err, res, cl.
    split_and!; try done; simpl; by rewrite ?Ef.
  - destruct (SyncWithResult r) as [f|] eqn:E2.
    + unfold bind, emit, callUser, ret. simpl.
      destruct (f (resource w) (cluster w)) as [[[result err] res] cl] eqn:Ef.
      by eexists CallSyncWithResult, f, result, err, res, cl.
    + destruct H as [[? ?]|[? ?]]; discriminate.
Qed.

(** [finalize] calls the finalize action once when there is one, and
    nothing otherwise. *)
Lemma finalize_run (r : t) (w : World) :
  exists evs result err res cl,
    match finalizeAction r with
    | Some (ev, action) =>
        evs = [ev] /\ isFinalizeCall ev = true
        /\ action (resource w) (cluster w) = ((result, err), res, cl)
    | None => (evs, result, err, res, cl) = ([], emptyResult, None, resource w, cluster w)
    end
    /\ finalize r w = Returns (result, err)
                        {| resource := res; cluster := cl;
                           childSetResultStash := childSetResultStash w;
                           trace := trace w ++ evs |}.
Proof.
  unfold finalize, finalizeAction.
  destruct (Finalize r) as [f|] eqn:E1.
  - unfold bind, emit, callUser, ret. simpl.
    destruct (f (resource w) (cluster w)) as [[err res] cl] eqn:Ef.
    exists [CallFinalize], emptyResult, err, res, cl.
    split_and!; try done; simpl; by rewrite ?Ef.
  - destruct (FinalizeWithResult r) as [f|] eqn:E2.
    + unfold bind, emit, callUser, ret. simpl.
      destruct (f (resource w) (cluster w)) as [[[result err] res] cl] eqn:Ef.
      by exists [CallFinalizeWithResult], result, err, res, cl.
    + exists [], emptyResult, None, (resource w), (cluster w).
      split; [done|]. unfold ret. rewrite app_nil_r. by destruct w.
Qed.

Lemma filter_isFinalizeCall_errorLog (e : error) (msg : string) :
  List.filter isFinalizeCall (errorLog e msg) = [].
Proof. unfold errorLog. by destruct (errors_Is _ _). Qed.

Lemma isSyncCall_not_finalize (ev : Event) :
  isSyncCall ev = true -> isFinalizeCall ev = false.
Proof. by destruct ev. Qed.

Lemma isFinalizeCall_not_sync (ev : Event) :
  isFinalizeCall ev = true -> isSyncCall ev = false.
Proof. by destruct ev. Qed.

Lemma phase_calls_filter (syncCalls finalizeCalls logged : list Event) :
  List.filter isSyncCall syncCalls = syncCalls ->
  List.filter isFinalizeCall syncCalls = [] ->
  List.filter isSyncCall finalizeCalls = [] ->
  List.filter isFinalizeCall finalizeCalls = finalizeCalls ->
  List.filter isSyncCall logged = [] ->
  List.filter isFinalizeCall logged = [] ->
  List.filter isSyncCall (syncCalls ++ finalizeCalls ++ logged) = syncCalls
  /\ List.filter isFinalizeCall (syncCalls ++ finalizeCalls ++ logged) = finalizeCalls.
Proof.
  intros H1 H2 H3 H4 H5 H6.
  by rewrite !List.filter_app, H1, H2, H3, H4, H5, H6, !app_nil_r.
Qed.

(** The calls of the finalize action are no sync calls. *)
Lemma finalize_run_calls (r : t) (w : World) (evs : list Event) (result : Result)
    (err : option error) (res : ResourceType) (cl : Cluster) :
  match finalizeAction r with
  | Some (ev, action) =>
      evs = [ev] /\ isFinalizeCall ev = true
      /\ action (resource w) (cluster w) = ((result, err), res, cl)
  | None => (evs, result, err, res, cl) = ([], emptyResult, None, resource w, cluster w)
  end ->
  List.filter isSyncCall evs = []
  /\ List.filter isFinalizeCall evs = evs
  /\ match finalizeAction r with
     | Some (ev, action) =>
         evs = [ev] /\ action (resource w) (cluster w) = ((result, err), res, cl)
     | None => (evs, result, err, res, cl)
               = ([], emptyResult, None, resource w, cluster w)
     end.
Proof.
  destruct (finalizeAction r) as [[ev action]|].
  - intros (-> & Hev & Hcall). simpl.
    by rewrite Hev, (isFinalizeCall_not_sync ev Hev).
  - by intros [= -> -> -> -> ->].
Qed.

(** C6.  [Reconcile] on a validated reconciler.  The sync action ([Sync],
    or [SyncWithResult]) is called, once, on the resource and the store as
    they are, exactly when the resource has no deletion timestamp or
    [SyncDuringFinalization] is set.  A sync error is returned at once:
    the finalize action is not called, and the error is logged unless it is
    [ErrQuiet].  When sync did not fail and the resource is pending
    deletion, the finalize action ([Finalize], or [FinalizeWithResult]) is
    called, once, on the resource and the store as sync left them, with the
    same treatment of its error; without a finalize action nothing is
    called.  [Reconcile] returns the aggregate of the [Result]s the two
    actions answered, with the resource and the store as the last action
    left them. *)
Theorem SyncReconciler_Reconcile_phases (r : t) (w : World) :
  Validate r = None ->
  exists syncCalls syncResult syncErr res1 cl1
         finalizeCalls finalizeResult finalizeErr res2 cl2,
    (if runsSync r w then
       exists ev action,
         syncAction r = Some (ev, action)
         /\ syncCalls = [ev]
         /\ action (resource w) (cluster w) = ((syncResult, syncErr), res1, cl1)
     else (syncCalls, syncResult, syncErr, res1, cl1)
          = ([], emptyResult, None, resource w, cluster w))
    /\ (if isNil syncErr && negb (isNil (GetDeletionTimestamp res1)) then
          match finalizeAction r with
          | Some (ev, action) =>
              finalizeCalls = [ev]
              /\ action res1 cl1 = ((finalizeResult, finalizeErr), res2, cl2)
          | None =>
              (finalizeCalls, finalizeResult, finalizeErr, res2, cl2)
              = ([], emptyResult, None, res1, cl1)
          end
        else (finalizeCalls, finalizeResult, finalizeErr, res2, cl2)
             = ([], emptyResult, None, res1, cl1))
    /\ Reconcile r w =
         Returns (AggregateResults (AggregateResults emptyResult syncResult) finalizeResult,
                  match syncErr with Some e => Some e | None => finalizeErr end)
           {| resource := res2; cluster := cl2;
              childSetResultStash := childSetResultStash w;
              trace := trace w ++ syncCalls ++ finalizeCalls
                       ++ match syncErr, finalizeErr with
                          | Some e, _ => errorLog e "unable to sync"
                          | None, Some e => errorLog e "unable to finalize"
                          | None, None => []
                          end |}
    /\ List.filter isSyncCall (newEvents w (finalWorld (Reconcile r w))) = syncCalls
    /\ List.filter isFinalizeCall (newEvents w (finalWorld (Reconcile r w)))
       = finalizeCalls.
Proof.
  intros Hvalid. apply Validate_None in Hvalid.
  cut (exists syncCalls syncResult syncErr res1 cl1
              finalizeCalls finalizeResult finalizeErr res2 cl2 logged,
         (if runsSync r w then
            exists ev action,
              syncAction r = Some (ev, action)
              /\ syncCalls = [ev]
              /\ action (resource w) (cluster w) = ((syncResult, syncErr), res1, cl1)
          else (syncCalls, syncResult, syncErr, res1, cl1)
               = ([], emptyResult, None, resource w, cluster w))
         /\ (if isNil syncErr && negb (isNil (GetDeletionTimestamp res1)) then
               match finalizeAction r with
               | Some (ev, action) =>
                   finalizeCalls = [ev]
                   /\ action res1 cl1 = ((finalizeResult, finalizeErr), res2, cl2)
               | None =>
                   (finalizeCalls, finalizeResult, finalizeErr, res2, cl2)
                   = ([], emptyResult, None, res1, cl1)
               end
             else (finalizeCalls, finalizeResult, finalizeErr, res2, cl2)
                  = ([], emptyResult, None, res1, cl1))
         /\ logged = match syncErr, finalizeErr with
                     | Some e, _ => errorLog e "unable to sync"
                     | None, Some e => errorLog e "unable to finalize"
                     | None, None => []
                     end
         /\ Reconcile r w =
              Returns (AggregateResults (AggregateResults emptyResult syncResult)
                         finalizeResult,
                       match syncErr with Some e => Some e | None => finalizeErr end)
                {| resource := res2; cluster := cl2;
                   childSetResultStash := childSetResultStash w;
                   trace := trace w ++ syncCalls ++ finalizeCalls ++ logged |}
         /\ (List.filter isSyncCall (syncCalls ++ finalizeCalls ++ logged) = syncCalls
             /\ List.filter isFinalizeCall (syncCalls ++ finalizeCalls ++ logged)
                = finalizeCalls)).
  { intros (sc & sres & serr & res1 & cl1 & fc & fres & ferr & res2 & cl2 & logged
            & Hs & Hf & -> & Hrun & Hfs & Hff).
    exists sc, sres, serr, res1, cl1, fc, fres, ferr, res2, cl2.
    split_and!; try done; rewrite Hrun; simpl;
      (erewrite newEvents_app; [|simpl; reflexivity]); done. }
  pose proof filter_isSyncCall_errorLog as HlogS.
  pose proof filter_isFinalizeCall_errorLog as HlogF.
  unfold Reconcile, bind at 1, getResource. unfold runsSync.
  destruct (isNil (GetDeletionTimestamp (resource w)) || SyncDuringFinalization r) eqn:Eruns.
  - (* the sync phase runs *)
    destruct (sync_run r w Hvalid)
      as (ev & action & sres & serr & res1 & cl1 & Haction & Hev & Hcall & Hsync).
    assert (List.filter isSyncCall [ev] = [ev]
            /\ List.filter isFinalizeCall [ev] = []) as [HsS HsF].
    { simpl. by rewrite Hev, (isSyncCall_not_finalize ev Hev). }
    set (w1 := {| resource := res1; cluster := cl1;
                  childSetResultStash := childSetResultStash w;
                  trace := trace w ++ [ev] |}) in *.
    unfold bind at 1. unfold bind at 1. rewrite Hsync.
    destruct serr as [e|].
    + (* sync failed *)
      exists [ev], sres, (Some e), res1, cl1, [], emptyResult, None, res1, cl1,
        (errorLog e "unable to sync").
      split; [|split; [|split; [|split]]].
      * by exists ev, action.
      * done.
      * done.
      * unfold bind. rewrite logUnlessQuiet_run. unfold ret, withEvents. simpl.
        by rewrite AggregateResults_empty_r, <- app_assoc.
      * by apply phase_calls_filter.
    + (* sync succeeded *)
      unfold ret at 1. unfold bind at 1. simpl.
      destruct (isNil (GetDeletionTimestamp res1)) eqn:Edel; simpl.
      * exists [ev], sres, None, res1, cl1, [], emptyResult, None, res1, cl1, [].
        split; [|split; [|split; [|split]]].
        -- by exists ev, action.
        -- simpl. by rewrite Edel.
        -- done.
        -- unfold ret. simpl. by rewrite AggregateResults_empty_r.
        -- by apply phase_calls_filter.
      * destruct (finalize_run r w1)
          as (fevs & fres & ferr & res2 & cl2 & Hfaction & Hfin).
        apply finalize_run_calls in Hfaction as (HfS & HfF & Hfaction).
        unfold bind at 1. rewrite Hfin.
        destruct ferr as [e|].
        -- exists [ev], sres, None, res1, cl1, fevs, fres, (Some e), res2, cl2,
             (errorLog e "unable to finalize").
           split; [|split; [|split; [|split]]].
           ++ by exists ev, action.
           ++ simpl. by rewrite Edel.
           ++ done.
           ++ unfold bind. rewrite logUnlessQuiet_run. unfold ret, withEvents. simpl.
              by rewrite <- !app_assoc.
           ++ by apply phase_calls_filter.
        -- exists [ev], sres, None, res1, cl1, fevs, fres, None, res2, cl2, [].
           split; [|split; [|split; [|split]]].
           ++ by exists ev, action.
           ++ simpl. by rewrite Edel.
           ++ done.
           ++ unfold ret. simpl. by rewrite <- !app_assoc, app_nil_r.
           ++ by apply phase_calls_filter.
  - (* the sync phase is skipped: the resource is pending deletion *)
    apply orb_false_iff in Eruns as [Edel _].
    destruct (finalize_run r w) as (fevs & fres & ferr & res2 & cl2 & Hfaction & Hfin).
    apply finalize_run_calls in Hfaction as (HfS & HfF & Hfaction).
    destruct ferr as [e|].
    + exists [], emptyResult, None, (resource w), (cluster w), fevs, fres, (Some e),
        res2, cl2, (errorLog e "unable to finalize").
      split; [|split; [|split; [|split]]].
      * done.
      * simpl. by rewrite Edel.
      * done.
      * unfold bind, ret. simpl. rewrite Edel. simpl. rewrite Hfin.
        rewrite logUnlessQuiet_run. unfold withEvents. simpl.
        by rewrite <- !app_assoc.
      * by apply phase_calls_filter.
    + exists [], emptyResult, None, (resource w), (cluster w), fevs, fres, None,
        res2, cl2, [].
      split; [|split; [|split; [|split]]].
      * done.
      * simpl. by rewrite Edel.
      * done.
      * unfold bind, ret. simpl. rewrite Edel. simpl. rewrite Hfin.
        by rewrite app_nil_r.
      * by apply phase_calls_filter.
Qed.

(** With a sync action, [Reconcile] returns. *)
Lemma Reconcile_returns (r : t) (w : World) :
  is_Some (Sync r) \/ is_Some (SyncWithResult r) ->
  exists out w', Reconcile r w = Returns out w'.
Proof.
  intros Hsync. unfold Reconcile, bind at 1, getResource.
  assert (forall result w1,
            exists out w',
              (let* resource := getResource in
               if negb (isNil (GetDeletionTimestamp resource)) then
                 let* (finalizeResult, err) := finalize r in
                 let result := AggregateResults result finalizeResult in
                 match err with
                 | Some e => logUnlessQuiet e "unable to finalize" ;;; ret (result, Some e)
                 | None => ret (result, None)
                 end
               else ret (result, None))%go w1 = Returns out w') as Hfin.
  { intros result w1. unfold bind at 1, getResource.
    destruct (negb _); [|by eauto].
    destruct (finalize_returns r w1) as (fres & ferr & res2 & cl2 & evs & _ & Hrun).
    unfold bind at 1. rewrite Hrun.
    destruct ferr; [|by eauto].
    unfold bind. rewrite logUnlessQuiet_run. by eauto. }
  destruct (_ || _).
  - destruct (sync_returns r w Hsync) as (sres & serr & res1 & cl1 & ev & _ & Hrun).
    unfold bind at 1. unfold bind at 1. rewrite Hrun.
    destruct serr.
    + unfold bind. rewrite logUnlessQuiet_run. by eauto.
    + apply Hfin.
  - unfold bind at 1. apply Hfin.
Qed.

(** C10.  With a nil [Setup], [SetupWithManager] returns nil without
    calling [Validate]: a reconciler with neither [Sync] nor
    [SyncWithResult], which [Validate] rejects, is set up without error.
    Its [Reconcile] then calls the nil [SyncWithResult] and panics whenever
    the sync step runs (the resource is live, or [SyncDuringFinalization]
    is set).  A reconciler that [Validate] accepts never panics there. *)
Theorem SyncReconciler_nil_Setup_skips_Validate (r : t) (bldr : Builder) (w : World) :
  Setup r = None -> Sync r = None -> SyncWithResult r = None ->
  SetupWithManager r bldr = (None, bldr)
  /\ is_Some (Validate r)
  /\ (isNil (GetDeletionTimestamp (resource w)) || SyncDuringFinalization r = true ->
      Reconcile r w = Panics w)
  /\ (forall r', Validate r' = None -> exists out w', Reconcile r' w = Returns out w').
Proof.
  intros Hsetup Hsync Hswr. repeat split.
  - unfold SetupWithManager.
    destruct (init_fields r) as (_ & _ & _ & _ & ->). by rewrite Hsetup.
  - by apply Validate_rejects_no_sync.
  - intros Hruns. unfold Reconcile, bind, getResource.
    rewrite Hruns. unfold sync. by rewrite Hsync, Hswr.
  - intros r' Hvalid. apply Reconcile_returns. by apply Validate_None.
Qed.

End SyncReconcilerFacts.

(** ** The sorted list of a string set *)

Section StringSetFacts.
Import StringSet.

Lemma string_lt_iff (a b : string) : string_lt a b <-> String_as_OT.lt a b.
Proof.
  unfold string_lt, String.ltb. rewrite <- String_as_OT.cmp_lt.
  unfold String_as_OT.cmp. by destruct (String.compare a b).
Qed.

Lemma string_le_iff (a b : string) : string_le a b <-> string_lt a b \/ a = b.
Proof.
  unfold string_le, string_lt, String.leb, String.ltb.
  destruct (String.compare a b) eqn:E.
  - apply String_as_OT.cmp_eq in E. by intuition.
  - by intuition.
  - split; [done|]. intros [H| ->]; [done|].
    assert (String.compare b b = Eq) as Hb by by apply String_as_OT.cmp_eq.
    congruence.
Qed.

#[local] Instance string_le_trans : Transitive string_le.
Proof.
  intros a b c. rewrite !string_le_iff, !string_lt_iff.
  intros [Hab| ->] [Hbc| ->]; eauto using String_as_OT.lt_trans.
Qed.

#[local] Instance string_le_total : Total string_le.
Proof. intros a b. apply String.leb_total. Qed.

Lemma elem_of_List (s : gset string) (x : string) : x ∈ List s <-> x ∈ s.
Proof. unfold List. by rewrite merge_sort_Permutation, elem_of_elements. Qed.

Lemma NoDup_List (s : gset string) : NoDup (List s).
Proof. unfold List. rewrite merge_sort_Permutation. apply NoDup_elements. Qed.

Lemma StronglySorted_strict (l : list string) :
  StronglySorted string_le l -> NoDup l -> StronglySorted string_lt l.
Proof.
  induction 1 as [|x l Hl IH Hx]; intros Hnd; [by constructor|].
  apply NoDup_cons in Hnd as [Hnotin Hnd].
  constructor; [by apply IH|].
  rewrite Forall_forall in *. intros y Hy.
  destruct (proj1 (string_le_iff x y) (Hx y Hy)) as [Hlt| ->]; [done|].
  by destruct Hnotin.
Qed.

(** [List] is strictly ascending. *)
Lemma List_sorted (s : gset string) : StronglySorted string_lt (List s).
Proof.
  apply StronglySorted_strict; [|apply NoDup_List].
  unfold List. apply StronglySorted_merge_sort; apply _.
Qed.

End StringSetFacts.

(** ** ChildSetReconciler: the composition *)

Section ComposeFacts.
Context `{K : Kinds}.
Import ChildSetReconciler.




(** The map the first loop builds. *)
Lemma collectDesired_result (r : t) (identify : ChildType -> string)
    (desired : list ChildType) (ids0 : gset string) (m0 : gmap string ChildType)
    (w : World) :
  IdentifyChild r = Some identify ->
  exists res,
    collectDesired r desired ids0 m0 w = Returns res w /\
    match res with
    | inl (ids, m) =>
        NoDup (map identify desired)
        /\ ("" ∉ map identify desired)
        /\ (forall id, id ∈ map identify desired -> id ∉ ids0)
        /\ ids = ids0 ∪ list_to_set (map identify desired)
        /\ m = fold_left (fun m c => <[identify c := c]> m) desired m0
    | inr e =>
        (e = Errorf "desired child id may not be empty" []
         /\ "" ∈ map identify desired)
        \/ (exists id, e = Errorf "duplicate child id found: %s" [id]
            /\ (~ NoDup (map identify desired)
                \/ exists id', id' ∈ map identify desired /\ id' ∈ ids0))
    end.
Proof.
  intros Hid. revert ids0 m0.
  induction desired as [|c rest IH]; intros ids0 m0; simpl.
  - exists (inl (ids0, m0)). split; [done|].
    repeat split; try set_solver. constructor.
  - rewrite Hid.
    destruct (String.eqb (identify c) "") eqn:Eempty.
    { apply String.eqb_eq in Eempty.
      eexists. split; [done|]. left. split; [done|]. rewrite Eempty. set_solver. }
    apply String.eqb_neq in Eempty.
    unfold StringSet.Has. case_bool_decide as Hin.
    { eexists. split; [done|]. right. eexists. split; [done|].
      right. exists (identify c). set_solver. }
    destruct (IH (StringSet.Insert ids0 (identify c)) (<[identify c := c]> m0))
      as (res & Hrun & Hres).
    exists res. split; [done|].
    destruct res as [[ids m]|e].
    + destruct Hres as (Hnd & Hne & Hfresh & -> & ->).
      unfold StringSet.Insert in *.
      repeat split.
      * constructor; [|done]. intros Hc. apply (Hfresh _ Hc). set_solver.
      * set_solver.
      * intros id Hidin. apply elem_of_cons in Hidin as [->|Hidin]; [done|].
        specialize (Hfresh _ Hidin). set_solver.
      * set_solver.
    + destruct Hres as [[-> Hin']|(id & -> & Hdup)].
      * left. split; [done|]. set_solver.
      * right. exists id. split; [done|].
        destruct Hdup as [Hnd|(id' & Hin1 & Hin2)].
        -- left. intros Hnd'. apply NoDup_cons in Hnd' as [_ ?]. done.
        -- unfold StringSet.Insert in Hin2.
           apply elem_of_union in Hin2 as [Heq|Hin2].
           ++ left. apply elem_of_singleton in Heq as ->.
              intros Hnd'. apply NoDup_cons in Hnd' as [? _]. done.
           ++ right. exists id'. set_solver.
Qed.

Lemma collectKnown_result (r : t) (identify : ChildType -> string)
    (known : list ChildType) (ids0 : gset string) (w : World) :
  IdentifyChild r = Some identify ->
  collectKnown r known ids0 w =
    Returns (ids0 ∪ list_to_set (map identify known)) w.
Proof.
  intros Hid. revert ids0.
  induction known as [|c rest IH]; intros ids0; simpl.
  - unfold ret. f_equal. set_solver.
  - rewrite Hid, IH. f_equal. unfold StringSet.Insert. set_solver.
Qed.

Lemma init_preserves (r : t) :
  Finalizer (init r) = Finalizer r
  /\ SkipOwnerReference (init r) = SkipOwnerReference r
  /\ DesiredChildren (init r) = DesiredChildren r
  /\ ChildObjectManager (init r) = ChildObjectManager r
  /\ ReflectedChildErrorReasons (init r) = ReflectedChildErrorReasons r
  /\ ListOptions (init r) = ListOptions r
  /\ OurChild (init r) = OurChild r
  /\ IdentifyChild (init r) = IdentifyChild r
  /\ ReflectChildrenStatusOnParent (init r) = ReflectChildrenStatusOnParent r.
Proof. unfold init. by destruct (lazyInit r). Qed.

Lemma childReconcilerFor_init (r : t) (desired : option ChildType)
    (desiredErr : option error) (id : string) (void : bool) :
  childReconcilerFor (init r) desired desiredErr id void
  = childReconcilerFor r desired desiredErr id void.
Proof. unfold init. by destruct (lazyInit r). Qed.

Section Compose.
Variables (r : t) (ctx : Context) (known : list ChildType) (w : World).
Variables (identify : ChildType -> string).
Variables (f : Context -> UserFn (list ChildType * option error)).
Variables (desired : list ChildType) (desiredErr : option error).
Variables (res1 : ResourceType) (cl1 : Cluster).
Hypothesis Hidentify : IdentifyChild r = Some identify.
Hypothesis Hdesired : DesiredChildren r = Some f.
Hypothesis Hcall : f ctx (resource w) (cluster w) = ((desired, desiredErr), res1, cl1).

Lemma callDesiredChildren_run :
  callDesiredChildren r ctx w
  = Returns (desired, desiredErr) (afterDesiredChildren w res1 cl1).
Proof using Hdesired Hcall.
  unfold callDesiredChildren. rewrite Hdesired.
  unfold bind, emit, callUser. simpl. by rewrite Hcall.
Qed.

(** Any desired-children error but the sentinel aborts the composition. *)
Lemma compose_policy_error (e : error) :
  desiredErr = Some e -> abortsPass desiredErr = true ->
  composeChildReconcilers r ctx known w
  = Returns (inr e) (afterDesiredChildren w res1 cl1).
Proof using Hdesired Hcall.
  intros He Habort. unfold composeChildReconcilers, bind.
  rewrite callDesiredChildren_run.
  unfold abortsPass in Habort. rewrite He in Habort |- *.
  simpl in Habort. unfold errors_Is. by rewrite Habort.
Qed.

(** Valid identities: one unit per correlated identity, guarded when a
    finalizer is configured. *)
Lemma compose_valid :
  abortsPass desiredErr = false ->
  NoDup (map identify desired) -> "" ∉ map identify desired ->
  composeChildReconcilers r ctx known w
  = Returns (inl (guarded r (Sequence (perIdentityUnits r identify known desired
                                         desiredErr))))
            (afterDesiredChildren w res1 cl1).
Proof using Hidentify Hdesired Hcall.
  intros Habort Hnd Hne. unfold composeChildReconcilers, bind at 1.
  rewrite callDesiredChildren_run.
  assert (match desiredErr with
          | Some err =>
              if negb (errors_Is desiredErr OnlyReconcileChildStatus_name)
              then Some err else None
          | None => None
          end = None) as ->.
  { unfold abortsPass in Habort. destruct desiredErr; [|done].
    simpl in Habort. unfold errors_Is. by rewrite Habort. }
  unfold bind at 1.
  destruct (collectDesired_result r identify desired ∅ ∅
              (afterDesiredChildren w res1 cl1) Hidentify) as (res & -> & Hres).
  destruct res as [[ids m]|e].
  - destruct Hres as (_ & _ & _ & -> & ->).
    unfold bind. rewrite (collectKnown_result r identify); [|done].
    unfold guarded, perIdentityUnits, correlatedIDs, desiredChildOf.
    replace (∅ ∪ list_to_set (map identify desired) ∪ list_to_set (map identify known))
      with (list_to_set (map identify known) ∪ list_to_set (map identify desired)
            : gset string) by set_solver.
    by destruct (negb _).
  - destruct Hres as [[_ Hin]|(id & _ & [Hdup|(id' & _ & Hin)])]; [done|done|set_solver].
Qed.

(** An empty or duplicate desired identity: a configuration error. *)
Lemma compose_invalid :
  abortsPass desiredErr = false ->
  "" ∈ map identify desired \/ ~ NoDup (map identify desired) ->
  exists e,
    isIdentityError e
    /\ composeChildReconcilers r ctx known w
       = Returns (inr e) (afterDesiredChildren w res1 cl1).
Proof using Hidentify Hdesired Hcall.
  intros Habort Hbad. unfold composeChildReconcilers, bind at 1.
  rewrite callDesiredChildren_run.
  assert (match desiredErr with
          | Some err =>
              if negb (errors_Is desiredErr OnlyReconcileChildStatus_name)
              then Some err else None
          | None => None
          end = None) as ->.
  { unfold abortsPass in Habort. destruct desiredErr; [|done].
    simpl in Habort. unfold errors_Is. by rewrite Habort. }
  unfold bind at 1.
  destruct (collectDesired_result r identify desired ∅ ∅
              (afterDesiredChildren w res1 cl1) Hidentify) as (res & -> & Hres).
  destruct res as [[ids m]|e].
  - destruct Hres as (Hnd & Hne & _). by destruct Hbad.
  - exists e. split; [|done].
    destruct Hres as [[-> _]|(id & -> & _)]; [by left|right; by eexists].
Qed.

End Compose.

End ComposeFacts.

(** ** Runs that only append to the trace *)

Section QuietFacts.
Context `{K : Kinds}.

Lemma Quiet_ret {A} (P : Event -> bool) (a : A) : Quiet P (ret a).
Proof. intros w. exists []. simpl. by rewrite app_nil_r. Qed.

Lemma Quiet_panic {A} (P : Event -> bool) : Quiet P (@panic K A).
Proof. intros w. exists []. simpl. by rewrite app_nil_r. Qed.

Lemma Quiet_bind {A B} (P : Event -> bool) (m : M A) (k : A -> M B) :
  Quiet P m -> (forall a, Quiet P (k a)) -> Quiet P (bind m k).
Proof.
  intros Hm Hk w. unfold bind.
  destruct (Hm w) as (evs1 & HP1 & Ht1 & Hs1).
  destruct (m w) as [a w1|w1]; simpl in *.
  - destruct (Hk a w1) as (evs2 & HP2 & Ht2 & Hs2).
    exists (evs1 ++ evs2). rewrite forallb_app, HP1, HP2, Ht2, Ht1, Hs2, Hs1.
    by rewrite app_assoc.
  - by exists evs1.
Qed.

Lemma Quiet_emit (P : Event -> bool) (e : Event) : P e = true -> Quiet P (emit e).
Proof. intros HP w. exists [e]. simpl. by rewrite HP. Qed.

Lemma Quiet_getResource (P : Event -> bool) : Quiet P getResource.
Proof. intros w. exists []. simpl. by rewrite app_nil_r. Qed.

Lemma Quiet_callUser {A} (P : Event -> bool) (f : UserFn A) : Quiet P (callUser f).
Proof.
  intros w. exists []. unfold callUser.
  destruct (f (resource w) (cluster w)) as [[a res] cl]. simpl. by rewrite app_nil_r.
Qed.

Lemma Quiet_callStore {A} (P : Event -> bool) (f : Cluster -> A * Cluster) :
  Quiet P (callStore f).
Proof.
  intros w. exists []. unfold callStore.
  destruct (f (cluster w)) as [a cl]. simpl. by rewrite app_nil_r.
Qed.

Lemma Quiet_callList (P : Event -> bool) (opts : list ListOption) :
  P (CallList opts) = true -> Quiet P (callList opts).
Proof.
  intros HP. unfold callList. apply Quiet_bind; [by apply Quiet_emit|].
  intros _ w. exists []. simpl. by rewrite app_nil_r.
Qed.

Lemma Quiet_persistFinalizers (P : Event -> bool) (fs : list string) :
  P (PersistFinalizers fs) = true -> Quiet P (persistFinalizers fs).
Proof.
  intros HP. unfold persistFinalizers. apply Quiet_bind; [by apply Quiet_emit|].
  intros _ w. exists [].
  destruct (client_Patch _ _) as [err cl]. simpl. by rewrite app_nil_r.
Qed.

Lemma Quiet_filterChildren (P : Event -> bool) (cr : ChildReconciler)
    (resource : ResourceType) (items : list ChildType) :
  Quiet P (filterChildren cr resource items).
Proof.
  induction items as [|c items IH]; simpl; [apply Quiet_ret|].
  destruct (cr_ourChild cr resource c); [|apply Quiet_panic].
  apply Quiet_bind; [done|]. intros. apply Quiet_ret.
Qed.

Lemma Quiet_converge (om : option ObjectManager) (actual desired : option ChildType) :
  Quiet isStoreCall (converge om actual desired).
Proof.
  unfold converge.
  destruct actual as [a|], desired as [d|], om as [om|];
    try apply Quiet_panic; try apply Quiet_ret.
  - destruct (om_NeedsUpdate om a d); [|apply Quiet_ret].
    apply Quiet_bind; [by apply Quiet_emit|]. intros _.
    apply Quiet_bind; [apply Quiet_callStore|].
    intros [c|e]; apply Quiet_ret.
  - apply Quiet_bind; [by apply Quiet_emit|]. intros _.
    apply Quiet_bind; [apply Quiet_callStore|]. intros. apply Quiet_ret.
  - apply Quiet_bind; [by apply Quiet_emit|]. intros _.
    apply Quiet_bind; [apply Quiet_callStore|].
    intros [c|e]; apply Quiet_ret.
Qed.

(** A unit converges by calls on the store only. *)
Lemma Quiet_cr_converge (cr : ChildReconciler) : Quiet isStoreCall (cr_converge cr).
Proof.
  unfold cr_converge.
  apply Quiet_bind; [apply Quiet_getResource|]. intros resource.
  apply Quiet_bind; [by apply Quiet_callList|].
  intros [items|e]; [|apply Quiet_ret].
  apply Quiet_bind; [apply Quiet_filterChildren|]. intros ours.
  destruct (cr_DesiredChild cr resource) as [desired [e|]].
  - destruct (errors_Is _ _); apply Quiet_ret.
  - apply Quiet_bind; [apply Quiet_converge|].
    intros [child [e|]]; apply Quiet_ret.
Qed.


End QuietFacts.

(** ** ChildSetReconciler: running the composed units *)

Section PassFacts.
Context `{K : Kinds}.
Import ChildSetReconciler.

Variable P : Event -> bool.
Hypothesis P_not_unit : forall e, P e = true -> isChildReconcile e = false.

Lemma executedIDs_quiet (evs : list Event) :
  forallb P evs = true -> executedIDs evs = [].
Proof using P_not_unit.
  induction evs as [|e evs IH]; [done|]. simpl.
  intros [HPe Hevs]%andb_true_iff.
  specialize (P_not_unit e HPe). unfold executedIDs in *. simpl.
  destruct e; try discriminate; by apply IH.
Qed.

Lemma forallb_quiet_weaken (evs : list Event) :
  forallb P evs = true -> forallb (fun e => P e || isChildReconcile e) evs = true.
Proof.
  rewrite !forallb_forall. intros H e He. by rewrite (H e He).
Qed.

Lemma executedIDs_app (e1 e2 : list Event) :
  executedIDs (e1 ++ e2) = executedIDs e1 ++ executedIDs e2.
Proof. unfold executedIDs. apply omap_app. Qed.

(** The reflection closure of a per-identity unit appends one entry, of
    its identity, to the stashed result. *)
Lemma childReconcilerFor_reflect (r : t) (desired : option ChildType)
    (desiredErr : option error) (id : string) (void : bool)
    (child : option ChildType) (err : option error) (w : World) :
  cr_ReflectChildStatusOnParent (childReconcilerFor r desired desiredErr id void)
    child err w =
  Returns tt {| resource := resource w; cluster := cluster w;
                childSetResultStash :=
                  Some {| Children := stashChildren w
                                      ++ [{| Id := id; Child := child; Err := err |}] |};
                trace := trace w |}.
Proof.
  simpl. unfold bind, childSetResult_RetrieveOrEmpty, childSetResult_Store, setStash,
    stashChildren.
  by destruct (childSetResultStash w).
Qed.

(** One per-identity unit: it starts once, and leaves at most one entry;
    exactly one when it returns no error. *)
Lemma unit_PassRun (r : t) (desired : option ChildType) (desiredErr : option error)
    (id : string) (w : World) :
  let cr := childReconcilerFor r desired desiredErr id false in
  Quiet P (cr_converge cr) ->
  exists evs entries,
    trace (finalWorld (cr_Reconcile cr w)) = trace w ++ ChildReconcile id :: evs
    /\ forallb P evs = true
    /\ stashChildren (finalWorld (cr_Reconcile cr w)) = stashChildren w ++ entries
    /\ (forall e, e ∈ entries -> Id e = id)
    /\ (forall result w', cr_Reconcile cr w = Returns (result, None) w' ->
        map Id entries = [id]).
Proof.
  intros cr Hquiet.
  pose proof (childReconcilerFor_reflect r desired desiredErr id false) as Hreflect.
  fold cr in Hreflect.
  assert (cr_Name cr = id) as Hname by done.
  clearbody cr. unfold cr_Reconcile, bind, emit. rewrite Hname.
  set (w0 := {| resource := resource w; cluster := cluster w;
                childSetResultStash := childSetResultStash w;
                trace := trace w ++ [ChildReconcile id] |}).
  destruct (Hquiet w0) as (evs & HP & Htrace & Hstash).
  assert (stashChildren (finalWorld (cr_converge cr w0)) = stashChildren w) as Hst.
  { unfold stashChildren. by rewrite Hstash. }
  simpl in Htrace. rewrite <- app_assoc in Htrace. simpl in Htrace.
  destruct (cr_converge cr w0) as [[child|child e|e] w1|w1]; simpl in *.
  - (* converged *)
    rewrite Hreflect. simpl.
    exists evs, [{| Id := id; Child := child; Err := None |}].
    rewrite Hst. repeat split; try done.
    intros e He. by apply list_elem_of_singleton in He as ->.
  - (* the store failed *)
    destruct (reasonReflected cr e).
    + rewrite Hreflect. simpl.
      exists evs, [{| Id := id; Child := child; Err := Some e |}].
      rewrite Hst. repeat split; try done.
      intros e' He. by apply list_elem_of_singleton in He as ->.
    + exists evs, []. simpl. rewrite app_nil_r. repeat split; try done.
      intros e' He. by apply elem_of_nil in He.
  - (* the policy failed *)
    exists evs, []. rewrite app_nil_r. repeat split; try done.
    intros e' He. by apply elem_of_nil in He.
  - (* panic *)
    exists evs, []. rewrite app_nil_r. repeat split; try done.
    intros e' He. by apply elem_of_nil in He.
Qed.

(** The units of a list of identities, run in sequence. *)
Lemma runSequence_PassRun (mk : string -> ChildReconciler) (ids : list string)
    (aggregate : Result) (w : World) :
  (forall id w,
      exists evs entries,
        trace (finalWorld (cr_Reconcile (mk id) w)) = trace w ++ ChildReconcile id :: evs
        /\ forallb P evs = true
        /\ stashChildren (finalWorld (cr_Reconcile (mk id) w)) = stashChildren w ++ entries
        /\ (forall e, e ∈ entries -> Id e = id)
        /\ (forall result w', cr_Reconcile (mk id) w = Returns (result, None) w' ->
            map Id entries = [id])) ->
  PassRun P ids w
    (runSequence sub_Reconcile (map (fun id => ChildUnit (mk id)) ids) aggregate w).
Proof using P_not_unit.
  intros Hunit. revert aggregate w.
  induction ids as [|id ids IH]; intros aggregate w.
  - exists [], []. simpl. rewrite !app_nil_r. repeat split; try done.
    intros e He. by apply elem_of_nil in He.
  - simpl. unfold bind.
    destruct (Hunit id w) as (evs1 & entries1 & Ht1 & HP1 & Hs1 & Hid1 & Hok1).
    assert (executedIDs (ChildReconcile id :: evs1) = [id]) as Hex1.
    { change (executedIDs (ChildReconcile id :: evs1)) with (id :: executedIDs evs1).
      by rewrite (executedIDs_quiet evs1 HP1). }
    destruct (cr_Reconcile (mk id) w) as [[result [e|]] w1|w1] eqn:Hrun;
      unfold ret; simpl in Ht1, Hs1 |- *.
    + (* the unit failed: the sequence stops *)
      exists (ChildReconcile id :: evs1), entries1.
      rewrite Hex1. repeat split; try done.
      * simpl. rewrite orb_true_r. by apply forallb_quiet_weaken.
      * by apply prefix_cons, prefix_nil.
      * intros e' He. rewrite (Hid1 e' He). set_solver.
    + (* the unit succeeded: the rest runs *)
      destruct (IH (AggregateResults aggregate result) w1)
        as (evs2 & entries2 & Ht2 & HP2 & Hpre2 & Hs2 & Hid2 & Hok2).
      exists ((ChildReconcile id :: evs1) ++ evs2), (entries1 ++ entries2).
      rewrite executedIDs_app, Hex1. repeat split.
      * rewrite Ht2, Ht1. by rewrite <- app_assoc.
      * rewrite forallb_app, HP2. simpl. by rewrite orb_true_r, forallb_quiet_weaken.
      * simpl. by apply prefix_cons.
      * rewrite Hs2, Hs1. by rewrite app_assoc.
      * intros e' [He|He]%elem_of_app.
        -- rewrite (Hid1 e' He). set_solver.
        -- specialize (Hid2 e' He). set_solver.
      * match goal with H : _ = Returns _ _ |- _ => destruct (Hok2 _ _ H) as [-> _] end.
        done.
      * match goal with H : _ = Returns _ _ |- _ => destruct (Hok2 _ _ H) as [_ <-] end.
        rewrite map_app. by rewrite (Hok1 _ _ eq_refl).
    + (* the unit panicked *)
      exists (ChildReconcile id :: evs1), entries1.
      rewrite Hex1. repeat split; try done.
      * simpl. rewrite orb_true_r. by apply forallb_quiet_weaken.
      * by apply prefix_cons, prefix_nil.
      * intros e' He. rewrite (Hid1 e' He). set_solver.
Qed.

(** A quiet step before a pass. *)
Lemma PassRun_prepend (ids : list string) (w w1 : World) (evs0 : list Event)
    (o : Outcome (Result * option error)) :
  trace w1 = trace w ++ evs0 -> forallb P evs0 = true ->
  childSetResultStash w1 = childSetResultStash w ->
  PassRun P ids w1 o -> PassRun P ids w o.
Proof using P_not_unit.
  intros Ht HP Hs (evs & entries & Ht' & HP' & Hpre & Hs' & Hid & Hok).
  exists (evs0 ++ evs), entries.
  rewrite executedIDs_app, (executedIDs_quiet evs0 HP). simpl.
  split_and!.
  - by rewrite Ht', Ht, app_assoc.
  - by rewrite forallb_app, HP', forallb_quiet_weaken.
  - done.
  - rewrite Hs'. unfold stashChildren. by rewrite Hs.
  - done.
  - done.
Qed.

(** A quiet step that ends the run before any unit started. *)
Lemma PassRun_stopped (ids : list string) (w : World) (evs0 : list Event)
    (o : Outcome (Result * option error)) :
  trace (finalWorld o) = trace w ++ evs0 -> forallb P evs0 = true ->
  childSetResultStash (finalWorld o) = childSetResultStash w ->
  (forall result w', o <> Returns (result, None) w') ->
  PassRun P ids w o.
Proof using P_not_unit.
  intros Ht HP Hs Hfail. exists evs0, [].
  rewrite (executedIDs_quiet evs0 HP), app_nil_r.
  split_and!.
  - done.
  - by apply forallb_quiet_weaken.
  - apply prefix_nil.
  - unfold stashChildren. by rewrite Hs.
  - intros e He. by apply elem_of_nil in He.
  - intros result w' Ho. by destruct (Hfail _ _ Ho).
Qed.

(** A quiet step after a pass that returned without error. *)
Lemma PassRun_append (ids : list string) (w w1 : World) (result : Result)
    (evs1 : list Event) (o : Outcome (Result * option error)) :
  PassRun P ids w (Returns (result, None) w1) ->
  trace (finalWorld o) = trace w1 ++ evs1 -> forallb P evs1 = true ->
  childSetResultStash (finalWorld o) = childSetResultStash w1 ->
  PassRun P ids w o.
Proof using P_not_unit.
  intros (evs & entries & Ht & HP & Hpre & Hs & Hid & Hok) Ht1 HP1 Hs1.
  simpl in Ht, Hs. destruct (Hok _ _ eq_refl) as [Hall Hentries].
  exists (evs ++ evs1), entries.
  rewrite executedIDs_app, (executedIDs_quiet evs1 HP1), app_nil_r.
  split_and!.
  - by rewrite Ht1, Ht, app_assoc.
  - by rewrite forallb_app, HP, forallb_quiet_weaken.
  - done.
  - rewrite <- Hs. unfold stashChildren. by rewrite Hs1.
  - done.
  - done.
Qed.

Hypothesis P_persist : forall fs, P (PersistFinalizers fs) = true.

(** The finalizer guard around a pass. *)
Lemma WithFinalizer_PassRun (finalizer : string) (inner : SubReconciler)
    (ids : list string) :
  (forall w, PassRun P ids w (sub_Reconcile inner w)) ->
  forall w, PassRun P ids w (sub_Reconcile (WithFinalizer finalizer inner) w).
Proof using P_not_unit P_persist.
  intros Hinner w. simpl. unfold bind at 1, getResource.
  destruct (isNil (GetDeletionTimestamp (resource w))).
  - (* live: the token is persisted before the inner unit runs *)
    case_bool_decide as Hin.
    + unfold bind, ret. apply Hinner.
    + unfold bind at 1.
      destruct (Quiet_persistFinalizers P (GetFinalizers (resource w) ++ [finalizer])
                  (P_persist _) w) as (evs0 & HP0 & Ht0 & Hs0).
      destruct (persistFinalizers _ w) as [[e|] w1|w1]; simpl in Ht0, Hs0.
      * eapply PassRun_stopped; try done.
      * eapply PassRun_prepend; try done.
      * eapply PassRun_stopped; try done.
  - (* pending deletion: the inner unit runs first *)
    unfold bind at 1.
    pose proof (Hinner w) as Hrun.
    destruct (sub_Reconcile inner w) as [[result [e|]] w1|w1]; [done| |done].
    unfold bind at 1, getResource.
    case_bool_decide as Hin.
    + destruct (Quiet_persistFinalizers P
                  (filter (fun f => f <> finalizer) (GetFinalizers (resource w1)))
                  (P_persist _) w1) as (evs1 & HP1 & Ht1 & Hs1).
      unfold bind.
      destruct (persistFinalizers _ w1) as [err w2|w2]; simpl in Ht1, Hs1.
      * eapply PassRun_append; try done.
      * eapply PassRun_append; try done.
    + unfold bind, ret. done.
Qed.

End PassFacts.

(** ** ChildSetReconciler: one pass *)

Section ReconcileFacts.
Context `{K : Kinds}.
Import ChildSetReconciler.

Lemma filterChildren_world (cr : ChildReconciler) (resource : ResourceType)
    (items ours : list ChildType) (w w' : World) :
  filterChildren cr resource items w = Returns ours w' -> w' = w.
Proof.
  revert ours w'. induction items as [|c items IH]; intros ours w'; simpl.
  - unfold ret. by intros [= _ <-].
  - destruct (cr_ourChild cr resource c); [|done].
    unfold bind. destruct (filterChildren cr resource items w) as [rest w1|w1] eqn:E; [|done].
    rewrite (IH rest w1 eq_refl). unfold ret. by intros [= _ <-].
Qed.

(** Listing the known children only reads the store. *)
Lemma knownChildren_world (r : t) (ctx : Context) (w w0 : World)
    (out : list ChildType * option error) :
  knownChildren r ctx w = Returns out w0 ->
  exists opts, w0 = withEvents w [CallList opts].
Proof.
  unfold knownChildren, bind at 1, getResource.
  destruct (voidReconciler r) as [void|]; [|done].
  unfold bind at 1, callList, bind at 1, emit.
  set (w1 := {| resource := _; cluster := _; childSetResultStash := _; trace := _ |}).
  destruct (client_List _ _) as [children|err].
  - unfold bind.
    destruct (filterChildren void (resource w) children w1) as [ours w2|w2] eqn:E; [|done].
    apply filterChildren_world in E as ->. unfold ret. intros [= _ <-]. by eexists.
  - unfold ret. intros [= _ <-]. by eexists.
Qed.

(** Status reflection: the stashed result is taken out of the stash and
    handed to the callback. *)
Lemma reflectStatus_run (r : t) (ctx : Context) (w : World)
    (reflect : Context -> ChildSetResult -> UserFn (option error)) :
  ReflectChildrenStatusOnParentWithError r = Some reflect ->
  let handed := {| Children := stashChildren w |} in
  reflectStatus r ctx w =
    Returns (reflect ctx handed (resource w) (cluster w)).1.1
      {| resource := (reflect ctx handed (resource w) (cluster w)).1.2;
         cluster := (reflect ctx handed (resource w) (cluster w)).2;
         childSetResultStash := None;
         trace := trace w ++ [CallReflectChildrenStatus handed] |}.
Proof.
  intros Hreflect handed. unfold reflectStatus, bind at 1.
  unfold childSetResult_Clear, bind, childSetResult_RetrieveOrEmpty, setStash, ret.
  rewrite Hreflect. subst handed. unfold stashChildren.
  destruct (childSetResultStash w) as [[children]|]; simpl;
    unfold callUser; simpl;
    by destruct (reflect ctx _ (resource w) (cluster w)) as [[err res] cl].
Qed.

Lemma Reconcile_aborted (r : t) (ctx : Context) (w w0 w1 : World)
    (known : list ChildType) (e : error) :
  knownChildren (init r) ctx w = Returns (known, None) w0 ->
  composeChildReconcilers (init r) (stashKnownChildren ctx known) known w0
    = Returns (inr e) w1 ->
  Reconcile r ctx w = Returns (emptyResult, Some e) w1.
Proof.
  intros Hknown Hcompose. unfold Reconcile, bind. by rewrite Hknown, Hcompose.
Qed.

Lemma Reconcile_composed (r : t) (ctx : Context) (w w0 w1 : World)
    (known : list ChildType) (cr : SubReconciler) :
  knownChildren (init r) ctx w = Returns (known, None) w0 ->
  composeChildReconcilers (init r) (stashKnownChildren ctx known) known w0
    = Returns (inl cr) w1 ->
  Reconcile r ctx w =
    match sub_Reconcile cr w1 with
    | Returns (result, reconcileErr) w2 =>
        match reflectStatus (init r) (stashKnownChildren ctx known) w2 with
        | Returns reflectStatusErr w3 =>
            Returns (result, errors_Join [reconcileErr; reflectStatusErr]) w3
        | Panics w3 => Panics w3
        end
    | Panics w2 => Panics w2
    end.
Proof.
  intros Hknown Hcompose. unfold Reconcile, bind. rewrite Hknown, Hcompose.
  by destruct (sub_Reconcile cr w1) as [[result reconcileErr] w2|w2].
Qed.

Lemma errors_Join_pair (a b : option error) :
  (errors_Join [a; b] = None <-> a = None /\ b = None)
  /\ (forall target,
        errors_Is (errors_Join [a; b]) target = errors_Is a target || errors_Is b target).
Proof.
  unfold errors_Join. destruct a as [ea|], b as [eb|]; simpl; split;
    try (split; [intros; done | intros [? ?]; done]);
    intros target; by rewrite ?orb_false_r.
Qed.

Lemma unitIDs_guarded (r : t) (s : SubReconciler) : unitIDs (guarded r s) = unitIDs s.
Proof. unfold guarded. by destruct (negb _). Qed.

Lemma unitIDs_perIdentityUnits (r : t) (identify : ChildType -> string)
    (known desired : list ChildType) (desiredErr : option error) :
  unitIDs (Sequence (perIdentityUnits r identify known desired desiredErr))
  = correlatedIDs identify known desired.
Proof.
  unfold perIdentityUnits. simpl.
  induction (correlatedIDs identify known desired) as [|id ids IH]; [done|].
  simpl. by rewrite IH.
Qed.

(** With pairwise distinct desired identities, the desired child of a unit
    is the desired child of that identity, and nil when there is none. *)
Lemma desiredChildOf_find (identify : ChildType -> string)
    (desired : list ChildType) (id : string) :
  NoDup (map identify desired) ->
  desiredChildOf identify desired id
  = List.find (fun c => String.eqb (identify c) id) desired.
Proof.
  unfold desiredChildOf.
  assert (forall m : gmap string ChildType,
             NoDup (map identify desired) ->
             fold_left (fun m c => <[identify c := c]> m) desired m !! id
             = match List.find (fun c => String.eqb (identify c) id) desired with
               | Some c => Some c
               | None => m !! id
               end) as Hfold.
  { induction desired as [|c rest IH]; intros m Hnd; [done|].
    apply NoDup_cons in Hnd as [Hfresh Hnd]. simpl. rewrite (IH _ Hnd).
    destruct (String.eqb (identify c) id) eqn:E.
    - apply String.eqb_eq in E. subst id.
      destruct (List.find _ rest) as [c'|] eqn:Ef; [|by rewrite lookup_insert_eq].
      apply find_some in Ef as [Hin Heq]. apply String.eqb_eq in Heq.
      destruct Hfresh. rewrite <- Heq. apply list_elem_of_In, in_map, Hin.
    - apply String.eqb_neq in E.
      destruct (List.find _ rest); [done|]. by rewrite lookup_insert_ne. }
  intros Hnd. rewrite (Hfold ∅ Hnd).
  by destruct (List.find _ desired).
Qed.

Lemma elem_of_correlatedIDs (identify : ChildType -> string)
    (known desired : list ChildType) (id : string) :
  id ∈ correlatedIDs identify known desired
  <-> id ∈ map identify known \/ id ∈ map identify desired.
Proof.
  unfold correlatedIDs. rewrite elem_of_List, elem_of_union, !elem_of_list_to_set. done.
Qed.

(** The composed unit of a pass: its units start in the order of the
    correlated identities. *)
Lemma composed_PassRun (P : Event -> bool) (r : t) (identify : ChildType -> string)
    (known desired : list ChildType) (desiredErr : option error) :
  (forall e, P e = true -> isChildReconcile e = false) ->
  (forall fs, P (PersistFinalizers fs) = true) ->
  (forall id,
      Quiet P (cr_converge (childReconcilerFor r (desiredChildOf identify desired id)
                              desiredErr id false))) ->
  forall w,
    PassRun P (correlatedIDs identify known desired) w
      (sub_Reconcile
         (guarded r (Sequence (perIdentityUnits r identify known desired desiredErr))) w).
Proof.
  intros HP Hpersist Hquiet.
  assert (forall w,
             PassRun P (correlatedIDs identify known desired) w
               (sub_Reconcile
                  (Sequence (perIdentityUnits r identify known desired desiredErr)) w))
    as Hseq.
  { intros w. unfold perIdentityUnits. simpl.
    apply (runSequence_PassRun P HP
             (fun id => childReconcilerFor r (desiredChildOf identify desired id)
                          desiredErr id false)).
    intros id w'. by apply unit_PassRun. }
  unfold guarded. destruct (negb _); [|done].
  by apply WithFinalizer_PassRun.
Qed.

(** What status reflection adds to the trace: the call of the callback,
    unless the callback is nil. *)
Lemma reflectStatus_trace (r : t) (ctx : Context) (w : World) :
  exists evs,
    forallb isReflectCall evs = true
    /\ trace (finalWorld (reflectStatus r ctx w)) = trace w ++ evs.
Proof.
  unfold reflectStatus, bind at 1.
  unfold childSetResult_Clear, bind, childSetResult_RetrieveOrEmpty, setStash, ret.
  destruct (ReflectChildrenStatusOnParentWithError r) as [reflect|].
  - destruct (childSetResultStash w) as [result|]; simpl;
      unfold callUser; simpl;
      destruct (reflect ctx _ (resource w) (cluster w)) as [[err res] cl];
      eexists [_]; (split; [|reflexivity]); reflexivity.
  - exists []. rewrite app_nil_r. by destruct (childSetResultStash w).
Qed.

(** The trace of a pass that composed its units: the trace of their run,
    then the reflection. *)
Lemma Reconcile_final_trace (r : t) (ctx : Context) (w w0 w1 : World)
    (known : list ChildType) (cr : SubReconciler) :
  knownChildren (init r) ctx w = Returns (known, None) w0 ->
  composeChildReconcilers (init r) (stashKnownChildren ctx known) known w0
    = Returns (inl cr) w1 ->
  exists evs,
    forallb isReflectCall evs = true
    /\ trace (finalWorld (Reconcile r ctx w))
       = trace (finalWorld (sub_Reconcile cr w1)) ++ evs.
Proof.
  intros Hknown Hcompose.
  rewrite (Reconcile_composed r ctx w w0 w1 known cr Hknown Hcompose).
  destruct (sub_Reconcile cr w1) as [[result reconcileErr] w2|w2]; simpl.
  - destruct (reflectStatus_trace (init r) (stashKnownChildren ctx known) w2)
      as (evs & Hevs & Htrace).
    exists evs. split; [done|].
    by destruct (reflectStatus _ _ w2).
  - exists []. by rewrite app_nil_r.
Qed.

Lemma perIdentityUnits_init (r : t) (identify : ChildType -> string)
    (known desired : list ChildType) (desiredErr : option error) :
  guarded (init r) (Sequence (perIdentityUnits (init r) identify known desired desiredErr))
  = guarded r (Sequence (perIdentityUnits r identify known desired desiredErr)).
Proof.
  unfold guarded, perIdentityUnits.
  destruct (init_preserves r) as (-> & _).
  assert (forall ids,
             map (fun id => ChildUnit (childReconcilerFor (init r)
                                         (desiredChildOf identify desired id)
                                         desiredErr id false)) ids
             = map (fun id => ChildUnit (childReconcilerFor r
                                           (desiredChildOf identify desired id)
                                           desiredErr id false)) ids) as ->; [|done].
  intros ids. apply map_ext. intros id. by rewrite childReconcilerFor_init.
Qed.

Lemma isStoreCall_not_unit (e : Event) : isStoreCall e = true -> isChildReconcile e = false.
Proof. by destruct e. Qed.


Lemma isReflectCall_not_unit (e : Event) :
  isReflectCall e = true -> isChildReconcile e = false.
Proof. by destruct e. Qed.

(** The identities started by a whole pass are those started by its
    composed unit. *)
Lemma executedIDs_pass (w w0 w1 wf : World) (opts : list ListOption)
    (res1 : ResourceType) (cl1 : Cluster) (evs evsr : list Event) :
  w0 = withEvents w [CallList opts] ->
  w1 = afterDesiredChildren w0 res1 cl1 ->
  trace wf = (trace w1 ++ evs) ++ evsr ->
  forallb isReflectCall evsr = true ->
  executedIDs (newEvents w wf) = executedIDs evs.
Proof.
  intros -> -> Htrace Hevsr.
  rewrite (newEvents_app w wf ([CallList opts; CallDesiredChildren] ++ evs ++ evsr)).
  - rewrite !executedIDs_app.
    rewrite (executedIDs_quiet isReflectCall isReflectCall_not_unit evsr Hevsr).
    by rewrite app_nil_r.
  - rewrite Htrace. simpl. by rewrite <- !app_assoc.
Qed.

(** C1, as amended.  When listing the known children succeeds and the
    desired children have non-empty, pairwise distinct identities, the
    composed unit holds one per-identity unit for each identity of the union
    of the known and the desired identities, in strictly ascending order.
    The pass starts the units in that order, each at most once: the
    identities it starts are a prefix of the sorted list, and all of it when
    the composed unit returns no error (a unit that returns an error stops
    the sequence). *)
Theorem ChildSetReconciler_units_sorted_union (r : t) (ctx : Context)
    (w w0 : World) (known desired : list ChildType)
    (identify : ChildType -> string)
    (f : Context -> UserFn (list ChildType * option error))
    (res1 : ResourceType) (cl1 : Cluster) :
  knownChildren (init r) ctx w = Returns (known, None) w0 ->
  IdentifyChild r = Some identify ->
  DesiredChildren r = Some f ->
  f (stashKnownChildren ctx known) (resource w0) (cluster w0)
    = ((desired, None), res1, cl1) ->
  NoDup (map identify desired) ->
  "" ∉ map identify desired ->
  let ids := correlatedIDs identify known desired in
  let cr := guarded r (Sequence (perIdentityUnits r identify known desired None)) in
  let w1 := afterDesiredChildren w0 res1 cl1 in
  composeChildReconcilers (init r) (stashKnownChildren ctx known) known w0
    = Returns (inl cr) w1
  /\ unitIDs cr = ids
  /\ StronglySorted StringSet.string_lt ids
  /\ NoDup ids
  /\ (forall id, id ∈ ids <-> id ∈ map identify known \/ id ∈ map identify desired)
  /\ executedIDs (newEvents w (finalWorld (Reconcile r ctx w))) `prefix_of` ids
  /\ (forall result w2,
        sub_Reconcile cr w1 = Returns (result, None) w2 ->
        executedIDs (newEvents w (finalWorld (Reconcile r ctx w))) = ids).
Proof.
  intros Hknown Hidentify Hdesired Hcall Hnd Hne ids cr w1.
  destruct (init_preserves r) as (_ & _ & Hd & _ & _ & _ & _ & Hi & _).
  rewrite <- Hi in Hidentify. rewrite <- Hd in Hdesired.
  pose proof (compose_valid (init r) _ known w0 identify f desired None res1 cl1
                Hidentify Hdesired Hcall eq_refl Hnd Hne) as Hcompose.
  rewrite perIdentityUnits_init in Hcompose. fold cr w1 in Hcompose.
  destruct (knownChildren_world _ _ _ _ _ Hknown) as (opts & Hw0).
  destruct (Reconcile_final_trace r ctx w w0 w1 known cr Hknown Hcompose)
    as (evsr & Hevsr & Hfinal).
  destruct (composed_PassRun isStoreCall r identify known desired None
              isStoreCall_not_unit (fun _ => eq_refl)
              (fun id => Quiet_cr_converge _) w1)
    as (evs & entries & Htrace & _ & Hprefix & _ & _ & Hok).
  fold cr in Htrace, Hok. rewrite Htrace in Hfinal.
  pose proof (executedIDs_pass w w0 w1 _ opts res1 cl1 evs evsr Hw0 eq_refl Hfinal Hevsr)
    as Hexec.
  split_and!.
  - done.
  - subst cr. by rewrite unitIDs_guarded, unitIDs_perIdentityUnits.
  - apply List_sorted.
  - apply NoDup_List.
  - apply elem_of_correlatedIDs.
  - by rewrite Hexec.
  - intros result w2 Hrun. rewrite Hexec. by destruct (Hok _ _ Hrun).
Qed.

(** The errors of the identity check are plain [fmt.Errorf] values: they
    wrap nothing, so [errors.Is] finds no sentinel in them and they carry no
    API status. *)
Lemma isIdentityError_plain (e : error) :
  isIdentityError e ->
  (forall target, errors_Is (Some e) target = false) /\ as_APIStatus e = None.
Proof. by intros [->|[id ->]]. Qed.

(** C4.  When a desired child has the empty identity, or two desired
    children have the same identity, [Reconcile] returns an error with an
    empty [Result] once the desired-children policy has run: no
    per-identity unit starts, the store is asked no create, update or
    delete, and the reflection callback is not called.  The error is the
    policy's own when it aborts the pass, and otherwise one of the two
    errors of the identity check.  Nothing marks that error as not to be
    retried: it is a plain [fmt.Errorf] value, in which [errors.Is] finds
    no sentinel and which carries no API status, and [Reconcile] returns it
    as it returns the error of a failing policy: a pass whose policy fails
    with that error returns the same [Result] and the same error. *)
Theorem ChildSetReconciler_invalid_identities_abort (r : t) (ctx : Context)
    (w w0 : World) (known desired : list ChildType) (desiredErr : option error)
    (identify : ChildType -> string)
    (f : Context -> UserFn (list ChildType * option error))
    (res1 : ResourceType) (cl1 : Cluster) :
  knownChildren (init r) ctx w = Returns (known, None) w0 ->
  IdentifyChild r = Some identify ->
  DesiredChildren r = Some f ->
  f (stashKnownChildren ctx known) (resource w0) (cluster w0)
    = ((desired, desiredErr), res1, cl1) ->
  "" ∈ map identify desired \/ ~ NoDup (map identify desired) ->
  exists e w',
    Reconcile r ctx w = Returns (emptyResult, Some e) w'
    /\ (if abortsPass desiredErr then desiredErr = Some e else isIdentityError e)
    /\ executedIDs (newEvents w w') = []
    /\ List.filter isMutation (newEvents w w') = []
    /\ reflectedResults (newEvents w w') = []
    /\ (abortsPass desiredErr = false ->
        (forall target, errors_Is (Some e) target = false) /\ as_APIStatus e = None)
    /\ (forall r2 f2 desired2 res2 cl2,
          knownChildren (init r2) ctx w = Returns (known, None) w0 ->
          DesiredChildren r2 = Some f2 ->
          f2 (stashKnownChildren ctx known) (resource w0) (cluster w0)
            = ((desired2, Some e), res2, cl2) ->
          exists w2, Reconcile r2 ctx w = Returns (emptyResult, Some e) w2).
Proof.
  intros Hknown Hidentify Hdesired Hcall Hbad.
  destruct (init_preserves r) as (_ & _ & Hd & _ & _ & _ & _ & Hi & _).
  rewrite <- Hi in Hidentify. rewrite <- Hd in Hdesired.
  destruct (knownChildren_world _ _ _ _ _ Hknown) as (opts & Hw0).
  assert (newEvents w (afterDesiredChildren w0 res1 cl1)
          = [CallList opts; CallDesiredChildren]) as Hevs.
  { apply newEvents_app. rewrite Hw0. simpl. by rewrite <- app_assoc. }
  assert (forall e, abortsPass (Some e) = true ->
            forall r2 f2 desired2 res2 cl2,
              knownChildren (init r2) ctx w = Returns (known, None) w0 ->
              DesiredChildren r2 = Some f2 ->
              f2 (stashKnownChildren ctx known) (resource w0) (cluster w0)
                = ((desired2, Some e), res2, cl2) ->
              exists w2, Reconcile r2 ctx w = Returns (emptyResult, Some e) w2)
    as Hpolicy.
  { intros e Habort r2 f2 desired2 res2 cl2 Hknown2 Hdesired2 Hcall2.
    destruct (init_preserves r2) as (_ & _ & Hd2 & _).
    rewrite <- Hd2 in Hdesired2.
    eexists. eapply Reconcile_aborted; [exact Hknown2|].
    by eapply compose_policy_error. }
  destruct (abortsPass desiredErr) eqn:Habort.
  - destruct desiredErr as [e|]; [|done].
    exists e, (afterDesiredChildren w0 res1 cl1). rewrite Hevs.
    split_and!; try done.
    + eapply Reconcile_aborted; [done|].
      by eapply compose_policy_error.
    + by apply Hpolicy.
  - destruct (compose_invalid (init r) _ known w0 identify f desired desiredErr res1 cl1
                Hidentify Hdesired Hcall Habort Hbad) as (e & He & Hcompose).
    exists e, (afterDesiredChildren w0 res1 cl1). rewrite Hevs.
    destruct (isIdentityError_plain e He) as [Hplain Hstatus].
    split_and!; try done.
    + by eapply Reconcile_aborted.
    + apply Hpolicy. unfold abortsPass. simpl.
      specialize (Hplain OnlyReconcileChildStatus_name). unfold errors_Is in Hplain |- *.
      by rewrite Hplain.
Qed.

(** *** Status-only passes do not panic *)









(** A pass whose composed units returned: the callback is called with the
    stashed result, and the errors are joined. *)
Lemma ChildSetReconciler_pass_returns (r : t) (ctx : Context)
    (w w0 w1 w2 : World) (known : list ChildType) (cr : SubReconciler)
    (result : Result) (reconcileErr : option error)
    (reflect : Context -> ChildSetResult -> UserFn (option error)) :
  knownChildren (init r) ctx w = Returns (known, None) w0 ->
  composeChildReconcilers (init r) (stashKnownChildren ctx known) known w0
    = Returns (inl cr) w1 ->
  sub_Reconcile cr w1 = Returns (result, reconcileErr) w2 ->
  ReflectChildrenStatusOnParentWithError (init r) = Some reflect ->
  exists reflectErr res3 cl3,
    reflect (stashKnownChildren ctx known) {| Children := stashChildren w2 |}
      (resource w2) (cluster w2) = (reflectErr, res3, cl3)
    /\ Reconcile r ctx w =
         Returns (result, errors_Join [reconcileErr; reflectErr])
           {| resource := res3; cluster := cl3; childSetResultStash := None;
              trace := trace w2
                       ++ [CallReflectChildrenStatus {| Children := stashChildren w2 |}] |}.
Proof.
  intros Hknown Hcompose Hrun Hreflect.
  destruct (reflect (stashKnownChildren ctx known) {| Children := stashChildren w2 |}
              (resource w2) (cluster w2)) as [[reflectErr res3] cl3] eqn:Hcall.
  exists reflectErr, res3, cl3. split; [done|].
  rewrite (Reconcile_composed r ctx w w0 w1 known cr Hknown Hcompose), Hrun.
  rewrite (reflectStatus_run (init r) _ w2 reflect Hreflect). simpl.
  by rewrite Hcall.
Qed.


(** C2.  A per-identity unit whose convergence met the store error [e].
    When the reason of [e] is among the reflected reasons (by default
    already-exists, forbidden and invalid), the unit records the error in its
    entry of the stashed child-set result and returns no error, so that the
    sequence goes on with the units after it.  Otherwise the unit returns
    [e], and so does the sequence, at once.  In every pass whose composed
    units returned, the stashed result is what the reflection callback is
    handed, and the error of the units is joined into the error
    [Reconcile] returns. *)
Theorem ChildSetReconciler_store_error_classification (r : t)
    (desired : option ChildType) (id : string) (w w1 : World)
    (child : option ChildType) (e : error) :
  let cr := childReconcilerFor r desired None id false in
  cr_converge cr (withEvents w [ChildReconcile id]) = Returns (StoreFailed child e) w1 ->
  let reasons :=
    match ReflectedChildErrorReasons r with
    | Some reasons => reasons
    | None => [StatusReasonAlreadyExists; StatusReasonForbidden; StatusReasonInvalid]
    end in
  let captured :=
    {| resource := resource w1; cluster := cluster w1;
       childSetResultStash :=
         Some {| Children := stashChildren w1
                             ++ [{| Id := id; Child := child; Err := Some e |}] |};
       trace := trace w1 |} in
  (ReasonForError e ∈ reasons ->
     cr_Reconcile cr w = Returns (emptyResult, None) captured
     /\ forall rest,
          sub_Reconcile (Sequence (ChildUnit cr :: rest)) w
          = sub_Reconcile (Sequence rest) captured)
  /\ (ReasonForError e ∉ reasons ->
        cr_Reconcile cr w = Returns (emptyResult, Some e) w1
        /\ forall rest,
             sub_Reconcile (Sequence (ChildUnit cr :: rest)) w
             = Returns (emptyResult, Some e) w1)
  /\ (forall ctx v v0 v1 v2 known composed result reconcileErr reflect,
        knownChildren (init r) ctx v = Returns (known, None) v0 ->
        composeChildReconcilers (init r) (stashKnownChildren ctx known) known v0
          = Returns (inl composed) v1 ->
        sub_Reconcile composed v1 = Returns (result, reconcileErr) v2 ->
        ReflectChildrenStatusOnParentWithError (init r) = Some reflect ->
        exists reflectErr v3,
          Reconcile r ctx v
            = Returns (result, errors_Join [reconcileErr; reflectErr]) v3
          /\ newEvents v2 v3
             = [CallReflectChildrenStatus {| Children := stashChildren v2 |}]).
Proof.
  intros cr Hconv reasons captured.
  pose proof (childReconcilerFor_reflect r desired None id false) as Hreflect.
  assert (reasonReflected cr e = bool_decide (ReasonForError e ∈ reasons)) as Hclass by done.
  assert (cr_Name cr = id) as Hname by done.
  fold cr in Hreflect. clearbody cr.
  assert (forall b,
             reasonReflected cr e = b ->
             cr_Reconcile cr w
             = if b then Returns (emptyResult, None) captured
               else Returns (emptyResult, Some e) w1) as Hunit.
  { intros b Hb. unfold cr_Reconcile, bind, emit. rewrite Hname.
    change {| resource := resource w; cluster := cluster w;
              childSetResultStash := childSetResultStash w;
              trace := trace w ++ [ChildReconcile id] |}
      with (withEvents w [ChildReconcile id]).
    rewrite Hconv, Hb. destruct b; [|done]. by rewrite Hreflect. }
  split_and!.
  - intros Hin. rewrite Hclass, (bool_decide_eq_true_2 _ Hin) in Hunit.
    specialize (Hunit true eq_refl). split; [done|].
    intros rest. simpl. unfold bind. by rewrite Hunit.
  - intros Hnotin. rewrite Hclass, (bool_decide_eq_false_2 _ Hnotin) in Hunit.
    specialize (Hunit false eq_refl). split; [done|].
    intros rest. simpl. unfold bind. by rewrite Hunit.
  - intros ctx v v0 v1 v2 known composed result reconcileErr reflect
      Hknown Hcompose Hrun Hrefl.
    destruct (ChildSetReconciler_pass_returns r ctx v v0 v1 v2 known composed result
                reconcileErr reflect Hknown Hcompose Hrun Hrefl)
      as (reflectErr & res3 & cl3 & _ & Hpass).
    eexists _, _. split; [exact Hpass|]. by apply newEvents_app.
Qed.

Lemma Validate_receiver (r : t) :
  SkipOwnerReference (Validate r).1
  = SkipOwnerReference r || negb (String.eqb (Finalizer r) "").
Proof.
  unfold Validate.
  destruct (init_preserves r) as (HF & HS & _). rewrite HF.
  destruct (String.eqb (Finalizer r) "") eqn:E; simpl.
  - rewrite orb_false_r, <- HS.
    by repeat match goal with |- context [if ?b then _ else _] => destruct b end.
  - rewrite orb_true_r.
    by repeat match goal with |- context [if ?b then _ else _] => destruct b end.
Qed.

Lemma init_reflection (r : t) :
  isNil (ReflectChildrenStatusOnParent (init r))
  && isNil (ReflectChildrenStatusOnParentWithError (init r))
  = isNil (ReflectChildrenStatusOnParent r)
    && isNil (ReflectChildrenStatusOnParentWithError r).
Proof.
  unfold init. destruct (lazyInit r); [done|]. simpl.
  by destruct (ReflectChildrenStatusOnParent r), (ReflectChildrenStatusOnParentWithError r).
Qed.

(** C9.  [Validate] sets [SkipOwnerReference] when the [Finalizer] is not
    empty; with [SkipOwnerReference] set it returns an error unless both
    [OurChild] and [ListOptions] are given; it returns nil exactly when
    [DesiredChildren], one of the two reflection callbacks, [IdentifyChild]
    and [ChildObjectManager] are given, and [OurChild] and [ListOptions] as
    well when owner references are skipped.  From desired children with
    valid identities, [composeChildReconcilers] returns the sequence of the
    per-identity units, inside a [WithFinalizer] of the configured finalizer
    exactly when that finalizer is not empty; and whatever it composes has
    that shape. *)
Theorem ChildSetReconciler_Validate_requirements (r : t) :
  (Finalizer r <> "" -> SkipOwnerReference (Validate r).1 = true)
  /\ (SkipOwnerReference (Validate r).1 = true ->
      OurChild r = None \/ ListOptions r = None ->
      is_Some (Validate r).2)
  /\ ((Validate r).2 = None <->
      is_Some (DesiredChildren r)
      /\ (is_Some (ReflectChildrenStatusOnParent r)
          \/ is_Some (ReflectChildrenStatusOnParentWithError r))
      /\ is_Some (IdentifyChild r)
      /\ is_Some (ChildObjectManager r)
      /\ (SkipOwnerReference (Validate r).1 = true ->
          is_Some (OurChild r) /\ is_Some (ListOptions r)))
  /\ (forall identify f ctx known w desired desiredErr res1 cl1,
        IdentifyChild r = Some identify ->
        DesiredChildren r = Some f ->
        f ctx (resource w) (cluster w) = ((desired, desiredErr), res1, cl1) ->
        abortsPass desiredErr = false ->
        NoDup (map identify desired) ->
        "" ∉ map identify desired ->
        let sequence :=
          Sequence (perIdentityUnits r identify known desired desiredErr) in
        composeChildReconcilers r ctx known w
        = Returns (inl (if String.eqb (Finalizer r) "" then sequence
                        else WithFinalizer (Finalizer r) sequence))
            (afterDesiredChildren w res1 cl1))
  /\ (forall ctx known w cr w',
        composeChildReconcilers r ctx known w = Returns (inl cr) w' ->
        if String.eqb (Finalizer r) ""
        then exists units, cr = Sequence units
        else exists units, cr = WithFinalizer (Finalizer r) (Sequence units)).
Proof.
  assert ((Validate r).2 = None <->
          is_Some (DesiredChildren r)
          /\ (is_Some (ReflectChildrenStatusOnParent r)
              \/ is_Some (ReflectChildrenStatusOnParentWithError r))
          /\ is_Some (IdentifyChild r)
          /\ is_Some (ChildObjectManager r)
          /\ (SkipOwnerReference (Validate r).1 = true ->
              is_Some (OurChild r) /\ is_Some (ListOptions r))) as Hiff.
  { rewrite Validate_receiver. unfold Validate.
    pose proof (init_reflection r) as Hrefl.
    destruct (init_preserves r) as (HF & HS & HD & HM & _ & HL & HO & HI & _).
    set (r1 := if negb (String.eqb (Finalizer (init r)) "")
               then setSkipOwnerReference (init r) true else init r).
    assert (DesiredChildren r1 = DesiredChildren r
            /\ isNil (ReflectChildrenStatusOnParent r1)
               && isNil (ReflectChildrenStatusOnParentWithError r1)
               = isNil (ReflectChildrenStatusOnParent r)
                 && isNil (ReflectChildrenStatusOnParentWithError r)
            /\ OurChild r1 = OurChild r /\ ListOptions r1 = ListOptions r
            /\ IdentifyChild r1 = IdentifyChild r
            /\ ChildObjectManager r1 = ChildObjectManager r
            /\ SkipOwnerReference r1
               = SkipOwnerReference r || negb (String.eqb (Finalizer r) ""))
      as (-> & -> & -> & -> & -> & -> & ->).
    { subst r1. rewrite HF.
      destruct (String.eqb (Finalizer r) ""); simpl;
        rewrite ?orb_true_r, ?orb_false_r; by split_and!. }
    clearbody r1.
    destruct (DesiredChildren r), (ReflectChildrenStatusOnParent r),
      (ReflectChildrenStatusOnParentWithError r), (OurChild r), (ListOptions r),
      (IdentifyChild r), (ChildObjectManager r),
      (SkipOwnerReference r || negb (String.eqb (Finalizer r) ""));
      simpl; split;
      try (intros _; split_and!; eauto; by intros [=]);
      try (intros [=]);
      try done;
      intros (HD' & HR' & HI' & HM' & HO');
      repeat match goal with
             | H : is_Some None |- _ => by destruct H
             | H : is_Some None \/ is_Some None |- _ => by destruct H as [[? ?]|[? ?]]
             | H : true = true -> _ |- _ => destruct (H eq_refl) as [? ?]; clear H
             end. }
  split_and!.
  - intros Hne. rewrite Validate_receiver.
    apply String.eqb_neq in Hne. rewrite Hne. apply orb_true_r.
  - intros Hskip Hmissing.
    destruct Hiff as [Hfwd _].
    destruct (Validate r).2 as [e|]; [by eexists|].
    destruct (Hfwd eq_refl) as (_ & _ & _ & _ & Hboth).
    destruct (Hboth Hskip) as [[? Ho] [? Hl]].
    destruct Hmissing; congruence.
  - exact Hiff.
  - intros identify f ctx known w desired desiredErr res1 cl1
      Hidentify Hdesired Hcall Habort Hnodup Hnonempty sequence.
    rewrite (compose_valid r ctx known w identify f desired desiredErr res1 cl1
               Hidentify Hdesired Hcall Habort Hnodup Hnonempty).
    unfold guarded. subst sequence. by destruct (String.eqb (Finalizer r) "").
  - intros ctx known w cr w'. unfold composeChildReconcilers, bind.
    destruct (callDesiredChildren r ctx w) as [[desired desiredErr] w1|]; [|done].
    destruct (match desiredErr with Some _ => _ | None => _ end); [done|].
    destruct (collectDesired r desired ∅ ∅ w1) as [[[ids m]|e] w2|w2]; try done.
    destruct (collectKnown r known ids w2) as [ids' w3|w3]; [|done].
    destruct (String.eqb (Finalizer r) ""); simpl; intros [= <- <-]; by eexists.
Qed.

(** C3.  Once the composed units ran and returned, with or without an
    error, the status-reflection callback is called with the stashed
    child-set result, and [Reconcile] returns the join of the error of the
    composed units and the error of the callback: it is nil only when both
    are, and [errors.Is] finds in it whatever it finds in either. *)
Theorem ChildSetReconciler_Reconcile_joins_errors (r : t) (ctx : Context)
    (w w0 w1 w2 : World) (known : list ChildType) (cr : SubReconciler)
    (result : Result) (reconcileErr : option error)
    (reflect : Context -> ChildSetResult -> UserFn (option error)) :
  knownChildren (init r) ctx w = Returns (known, None) w0 ->
  composeChildReconcilers (init r) (stashKnownChildren ctx known) known w0
    = Returns (inl cr) w1 ->
  sub_Reconcile cr w1 = Returns (result, reconcileErr) w2 ->
  ReflectChildrenStatusOnParentWithError (init r) = Some reflect ->
  exists reflectErr res3 cl3,
    let handed := {| Children := stashChildren w2 |} in
    let err := errors_Join [reconcileErr; reflectErr] in
    reflect (stashKnownChildren ctx known) handed (resource w2) (cluster w2)
      = (reflectErr, res3, cl3)
    /\ Reconcile r ctx w =
         Returns (result, err)
           {| resource := res3; cluster := cl3; childSetResultStash := None;
              trace := trace w2 ++ [CallReflectChildrenStatus handed] |}
    /\ (err = None <-> reconcileErr = None /\ reflectErr = None)
    /\ (forall target,
          errors_Is err target
          = errors_Is reconcileErr target || errors_Is reflectErr target).
Proof.
  intros Hknown Hcompose Hrun Hreflect.
  destruct (reflect (stashKnownChildren ctx known) {| Children := stashChildren w2 |}
              (resource w2) (cluster w2)) as [[reflectErr res3] cl3] eqn:Hcall.
  exists reflectErr, res3, cl3. simpl.
  split; [done|]. split.
  - rewrite (Reconcile_composed r ctx w w0 w1 known cr Hknown Hcompose), Hrun.
    rewrite (reflectStatus_run (init r) _ w2 reflect Hreflect). simpl.
    by rewrite Hcall.
  - apply errors_Join_pair.
Qed.

End ReconcileFacts.

(** ** Status conditions *)

Section ConditionFacts.
Import Conditions.

Lemma find_setIn (now : Z) (new : Condition) (cs : list Condition) (ty : string) :
  find (fun c => String.eqb (Type_ c) ty) (setIn now new cs)
  = if String.eqb (Type_ new) ty then
      Some (stamp new
              match find (fun c => String.eqb (Type_ c) ty) cs with
              | Some c => if bool_decide (Status_ c = Status_ new)
                          then LastTransitionTime c else now
              | None => now
              end)
    else find (fun c => String.eqb (Type_ c) ty) cs.
Proof.
  induction cs as [|c cs IH]; simpl.
  - by destruct (String.eqb (Type_ new) ty).
  - destruct (String.eqb (Type_ c) (Type_ new)) eqn:Ecn; simpl.
    + apply String.eqb_eq in Ecn. rewrite Ecn.
      by destruct (String.eqb (Type_ new) ty).
    + destruct (String.eqb (Type_ c) ty) eqn:Ect.
      * apply String.eqb_eq in Ect. subst ty. apply String.eqb_neq in Ecn.
        assert (String.eqb (Type_ new) (Type_ c) = false) as ->; [|done].
        apply String.eqb_neq. congruence.
      * exact IH.
Qed.

Lemma statusOf_SetCondition (now : Z) (new : Condition) (s : Status) (ty : string) :
  statusOf (SetCondition now new s) ty
  = if String.eqb (Type_ new) ty then Some (Status_ new) else statusOf s ty.
Proof.
  unfold statusOf, GetCondition, SetCondition, SetConditions, GetConditions. simpl.
  rewrite find_setIn. by destruct (String.eqb (Type_ new) ty).
Qed.

Lemma ConditionIsTrue_statusOf (s : Status) (ty : string) :
  ConditionIsTrue (GetCondition s ty) = true <-> statusOf s ty = Some ConditionTrue.
Proof.
  unfold statusOf. destruct (GetCondition s ty) as [c|]; simpl; [|done].
  rewrite bool_decide_eq_true. split; [by intros ->|by intros [= ->]].
Qed.

Lemma ConditionIsFalse_statusOf (s : Status) (ty : string) :
  ConditionIsFalse (GetCondition s ty) = true <-> statusOf s ty = Some ConditionFalse.
Proof.
  unfold statusOf. destruct (GetCondition s ty) as [c|]; simpl; [|done].
  rewrite bool_decide_eq_true. split; [by intros ->|by intros [= ->]].
Qed.

Lemma firstFalse_Some (cs : ConditionSet) (s : Status) :
  is_Some (firstFalse cs s)
  <-> exists d, d ∈ dependents cs /\ statusOf s d = Some ConditionFalse.
Proof.
  unfold firstFalse. induction (dependents cs) as [|d ds IH]; simpl.
  - split; [by intros [? ?]|]. intros (d & Hd & _). by apply elem_of_nil in Hd.
  - destruct (GetCondition s d) as [c|] eqn:Ec.
    + simpl. case_bool_decide as Hst; simpl.
      * split; [|by eauto]. intros _. exists d. split; [set_solver|].
        unfold statusOf. by rewrite Ec, <- Hst.
      * rewrite IH. split.
        -- intros (d' & Hd' & Hs). exists d'. split; [set_solver|done].
        -- intros (d' & Hd' & Hs). apply elem_of_cons in Hd' as [->|Hd']; [|by eauto].
           unfold statusOf in Hs. rewrite Ec in Hs. simpl in Hs. congruence.
    + rewrite IH. split.
      * intros (d' & Hd' & Hs). exists d'. split; [set_solver|done].
      * intros (d' & Hd' & Hs). apply elem_of_cons in Hd' as [->|Hd']; [|by eauto].
        unfold statusOf in Hs. by rewrite Ec in Hs.
Qed.

Lemma allTrue_true (cs : ConditionSet) (s : Status) :
  allTrue cs s = true
  <-> forall d, d ∈ dependents cs -> statusOf s d = Some ConditionTrue.
Proof.
  unfold allTrue. rewrite forallb_forall. split.
  - intros H d Hd. apply ConditionIsTrue_statusOf, H. by apply list_elem_of_In.
  - intros H d Hd. apply ConditionIsTrue_statusOf, H. by apply list_elem_of_In.
Qed.

Lemma aggregateStatus_True (cs : ConditionSet) (s : Status) :
  aggregateStatus cs s = ConditionTrue
  <-> forall d, d ∈ dependents cs -> statusOf s d = Some ConditionTrue.
Proof.
  unfold aggregateStatus. rewrite <- allTrue_true.
  destruct (firstFalse cs s) as [c|] eqn:Ef.
  - split; [done|]. intros Hall.
    assert (is_Some (firstFalse cs s)) as Hsome by (rewrite Ef; by eexists).
    apply firstFalse_Some in Hsome as (d & Hd & Hs).
    rewrite allTrue_true in Hall. rewrite (Hall d Hd) in Hs. discriminate.
  - by destruct (allTrue cs s).
Qed.

Lemma aggregateStatus_False (cs : ConditionSet) (s : Status) :
  aggregateStatus cs s = ConditionFalse
  <-> exists d, d ∈ dependents cs /\ statusOf s d = Some ConditionFalse.
Proof.
  rewrite <- firstFalse_Some. unfold aggregateStatus.
  destruct (firstFalse cs s) as [c|].
  - split; [by eexists|done].
  - split; [by destruct (allTrue cs s)|by intros [? ?]].
Qed.

Lemma statusOf_recomputeAggregate (cs : ConditionSet) (now : Z) (s : Status) (ty : string) :
  statusOf (recomputeAggregate cs now s) ty
  = if String.eqb (happy cs) ty then Some (aggregateStatus cs s) else statusOf s ty.
Proof.
  unfold recomputeAggregate, aggregateStatus.
  destruct (firstFalse cs s); [|destruct (allTrue cs s)];
    by rewrite statusOf_SetCondition.
Qed.

(** The aggregate rule holds in every status the recomputation leaves. *)
Lemma recomputeAggregate_rule (cs : ConditionSet) (now : Z) (s : Status) :
  let s' := recomputeAggregate cs now s in
  (statusOf s' (happy cs) = Some ConditionTrue
   <-> forall d, d ∈ dependents cs -> statusOf s' d = Some ConditionTrue)
  /\ ((exists d, d ∈ dependents cs /\ statusOf s' d = Some ConditionFalse)
      -> statusOf s' (happy cs) = Some ConditionFalse)
  /\ (~ (forall d, d ∈ dependents cs -> statusOf s' d = Some ConditionTrue)
      -> ~ (exists d, d ∈ dependents cs /\ statusOf s' d = Some ConditionFalse)
      -> statusOf s' (happy cs) = Some ConditionUnknown).
Proof.
  intros s'.
  assert (forall ty, statusOf s' ty
                     = if String.eqb (happy cs) ty then Some (aggregateStatus cs s)
                       else statusOf s ty) as Hst
      by apply statusOf_recomputeAggregate.
  assert (statusOf s' (happy cs) = Some (aggregateStatus cs s)) as Hhappy.
  { by rewrite Hst, String.eqb_refl. }
  assert ((forall d, d ∈ dependents cs -> statusOf s' d = Some ConditionTrue)
          <-> aggregateStatus cs s = ConditionTrue) as Htrue.
  { rewrite aggregateStatus_True. split.
    - intros Hall d Hd. specialize (Hall d Hd) as Hd'. rewrite Hst in Hd'.
      destruct (String.eqb (happy cs) d) eqn:E; [|done].
      injection Hd' as Hd'. exact (proj1 (aggregateStatus_True cs s) Hd' d Hd).
    - intros Hall d Hd. rewrite Hst.
      destruct (String.eqb (happy cs) d); [|by apply Hall].
      f_equal. by apply aggregateStatus_True. }
  assert ((exists d, d ∈ dependents cs /\ statusOf s' d = Some ConditionFalse)
          <-> aggregateStatus cs s = ConditionFalse) as Hfalse.
  { rewrite aggregateStatus_False. split.
    - intros (d & Hd & Hs). rewrite Hst in Hs.
      destruct (String.eqb (happy cs) d) eqn:E; [|by eauto].
      injection Hs as Hs. exact (proj1 (aggregateStatus_False cs s) Hs).
    - intros (d & Hd & Hs).
      destruct (String.eqb (happy cs) d) eqn:E.
      + exists d. split; [done|]. rewrite Hst, E. f_equal.
        apply aggregateStatus_False. by eauto.
      + exists d. split; [done|]. by rewrite Hst, E. }
  rewrite Hhappy. split_and!.
  - rewrite Htrue. split; [by intros [= ->]|by intros ->].
  - intros H. apply Hfalse in H. by rewrite H.
  - intros Hnt Hnf. rewrite Htrue in Hnt. rewrite Hfalse in Hnf.
    by destruct (aggregateStatus cs s).
Qed.

Lemma GetCondition_initializeOne (now : Z) (s : Status) (t ty : string) :
  GetCondition (initializeOne now s t) ty
  = if String.eqb t ty
    then Some (default (stamp (mkCondition ty ConditionUnknown "" "") now)
                       (GetCondition s ty))
    else GetCondition s ty.
Proof.
  unfold initializeOne.
  destruct (GetCondition s t) as [c|] eqn:Et.
  - destruct (String.eqb t ty) eqn:E; [|done].
    apply String.eqb_eq in E. subst ty. by rewrite Et.
  - unfold GetCondition, SetCondition, SetConditions, GetConditions in *. simpl.
    rewrite find_setIn. simpl.
    destruct (String.eqb t ty) eqn:E; [|done].
    apply String.eqb_eq in E. subst ty. by rewrite Et.
Qed.

Lemma GetCondition_initialize (now : Z) (types : list string) (s : Status) (ty : string) :
  GetCondition (fold_left (initializeOne now) types s) ty
  = if bool_decide (ty ∈ types)
    then Some (default (stamp (mkCondition ty ConditionUnknown "" "") now)
                       (GetCondition s ty))
    else GetCondition s ty.
Proof.
  revert s. induction types as [|t types IH]; intros s; cbn [fold_left].
  - case_bool_decide as H; [by apply elem_of_nil in H|done].
  - rewrite IH, GetCondition_initializeOne.
    destruct (String.eqb t ty) eqn:E.
    + apply String.eqb_eq in E. subst ty.
      rewrite (bool_decide_eq_true_2 (t ∈ t :: types)) by set_solver.
      by case_bool_decide.
    + apply String.eqb_neq in E.
      case_bool_decide as Hin.
      * by rewrite bool_decide_eq_true_2 by set_solver.
      * by rewrite bool_decide_eq_false_2 by set_solver.
Qed.

(** C5.  [InitializeConditions] leaves every declared dependent and the
    aggregate with the condition they had, and with an Unknown one when they
    had none: on a fresh status all of them are Unknown.  After [MarkTrue]
    and after [MarkFalse] the aggregate is True exactly when every declared
    dependent is True, it is False when some dependent is False, and it is
    Unknown otherwise.  [IsHappy] holds exactly when the aggregate is
    True. *)
Theorem ConditionSet_aggregate_rule (cs : ConditionSet) (now : Z) (s : Status)
    (t reason message : string) :
  let unknown ty :=
    {| Type_ := ty; Status_ := ConditionUnknown; Reason := ""; Message := "";
       LastTransitionTime := now |} in
  (forall ty, ty ∈ happy cs :: dependents cs ->
     GetCondition (InitializeConditions cs now s) ty
     = Some (default (unknown ty) (GetCondition s ty)))
  /\ (forall ty, ty ∈ happy cs :: dependents cs ->
        statusOf (InitializeConditions cs now emptyStatus) ty = Some ConditionUnknown)
  /\ (forall s',
        s' = MarkTrue cs now t reason message s
        \/ s' = MarkFalse cs now t reason message s ->
        (statusOf s' (happy cs) = Some ConditionTrue
         <-> forall d, d ∈ dependents cs -> statusOf s' d = Some ConditionTrue)
        /\ ((exists d, d ∈ dependents cs /\ statusOf s' d = Some ConditionFalse)
            -> statusOf s' (happy cs) = Some ConditionFalse)
        /\ (~ (forall d, d ∈ dependents cs -> statusOf s' d = Some ConditionTrue)
            -> ~ (exists d, d ∈ dependents cs /\ statusOf s' d = Some ConditionFalse)
            -> statusOf s' (happy cs) = Some ConditionUnknown))
  /\ (IsHappy cs s = true <-> statusOf s (happy cs) = Some ConditionTrue).
Proof.
  intros unknown. split_and!.
  - intros ty Hty. unfold InitializeConditions.
    rewrite GetCondition_initialize. by rewrite bool_decide_eq_true_2.
  - intros ty Hty. unfold statusOf, InitializeConditions.
    rewrite GetCondition_initialize. by rewrite bool_decide_eq_true_2.
  - intros s' [-> | ->]; apply recomputeAggregate_rule.
  - apply ConditionIsTrue_statusOf.
Qed.

(** The three cases of [TestStatusConditionManager], with the clock at
    [now]. *)
Example TestStatusConditionManager_initialized :
  let s := InitializeConditions conditionSet 7 emptyStatus in
  IsHappy conditionSet s = false
  /\ ConditionIsUnknown (GetCondition s ConditionReady) = true.
Proof. by vm_compute. Qed.

Example TestStatusConditionManager_created_false :
  let s := MarkFalse conditionSet 7 ConditionCreated ConditionCreated ""
             (InitializeConditions conditionSet 7 emptyStatus) in
  ConditionIsFalse (GetCondition s ConditionReady) = true
  /\ ConditionIsFalse (GetCondition s ConditionCreated) = true
  /\ ConditionIsUnknown (GetCondition s ConditionConfigured) = true.
Proof. by vm_compute. Qed.

Example TestStatusConditionManager_all_true :
  let s := MarkTrue conditionSet 7 ConditionConfigured ConditionConfigured ""
             (MarkTrue conditionSet 7 ConditionCreated ConditionCreated ""
                (InitializeConditions conditionSet 7 emptyStatus)) in
  ConditionIsTrue (GetCondition s ConditionReady) = true
  /\ IsHappy conditionSet s = true
  /\ Forall (fun c => LastTransitionTime c = 7) (GetConditions s).
Proof. vm_compute. split_and!; try done. repeat constructor. Qed.

End ConditionFacts.

(** ** The scenarios of the design *)

(** "Desired children [a], [b]; known children [b], [c]: correlated
    identities a, b, c; a is create-only, b is update-or-noop, c is
    delete-only." *)
Example scenario_correlation :
  let w := Example.world Example.live Example.knownBC [] in
  newEvents w
    (finalWorld
       (ChildSetReconciler.Reconcile
          (Example.childSetReconciler "" Example.desiredAB None None)
          Example.background w))
  = [CallList []; CallDesiredChildren;
     ChildReconcile "a"; CallList []; StoreCreate ("a", 1);
     ChildReconcile "b"; CallList []; StoreUpdate ("b", 1) ("b", 2);
     ChildReconcile "c"; CallList []; StoreDelete ("c", 3);
     CallReflectChildrenStatus
       {| Children := [{| Id := "a"; Child := Some ("a", 1); Err := None |};
                       {| Id := "b"; Child := Some ("b", 2); Err := None |};
                       {| Id := "c"; Child := None; Err := None |}] |}].
Proof. vm_compute. reflexivity. Qed.

(** "Re-running a pass with no change in desired state and no change in
    store state does not create, update, or delete." *)
Example scenario_rerun :
  let w := Example.world Example.live Example.desiredAB [] in
  List.filter isMutation
    (newEvents w
       (finalWorld
          (ChildSetReconciler.Reconcile
             (Example.childSetReconciler "" Example.desiredAB None None)
             Example.background w)))
  = [].
Proof. vm_compute. reflexivity. Qed.

(** With a finalizer, the token is persisted before the first create. *)
Example scenario_guard :
  let w := Example.world Example.live [] [] in
  newEvents w
    (finalWorld
       (ChildSetReconciler.Reconcile
          (Example.childSetReconciler "guard" [("a", 1)] None None)
          Example.background w))
  = [CallList []; CallDesiredChildren; PersistFinalizers ["guard"];
     ChildReconcile "a"; CallList []; StoreCreate ("a", 1);
     CallReflectChildrenStatus
       {| Children := [{| Id := "a"; Child := Some ("a", 1); Err := None |}] |}].
Proof. vm_compute. reflexivity. Qed.

(** A sync error is logged, unless it wraps [ErrQuiet]; it is returned in
    both cases. *)
Example scenario_quiet_error :
  let w := Example.world Example.live [] [] in
  let loud := Errorf "boom" [] in
  let quiet := Wrapf "waiting for the database" ErrQuiet in
  SyncReconciler.Reconcile
    (Example.syncReconciler (Some (Example.syncFails loud)) None) w
  = Returns (emptyResult, Some loud)
      (withEvents w [CallSync; LogError loud "unable to sync"])
  /\ SyncReconciler.Reconcile
       (Example.syncReconciler (Some (Example.syncFails quiet)) None) w
     = Returns (emptyResult, Some quiet) (withEvents w [CallSync]).
Proof. vm_compute. split; reflexivity. Qed.

(** On a resource pending deletion sync is skipped. *)
Example scenario_pending_deletion :
  let w := Example.world Example.deleted [] [] in
  SyncReconciler.Reconcile (Example.syncReconciler None (Some Example.syncOk)) w
  = Returns (emptyResult, None) w.
Proof. vm_compute. reflexivity. Qed.

(** ** Instances of the properties *)

(** A resource pending deletion, synced during finalization: the sync
    action asks for a requeue, the finalize action fails, and its error is
    logged. *)
Lemma SyncReconciler_Reconcile_phases_witness :
  SyncReconciler.Validate (Cases.syncReconcilerFinalizing Example.internalError) = None
  /\ SyncReconciler.Reconcile (Cases.syncReconcilerFinalizing Example.internalError)
       (Example.world Example.deleted [] [])
     = Returns ({| Requeue := true; RequeueAfter := 5 |}, Some Example.internalError)
         (withEvents (Example.world Example.deleted [] [])
            [CallSyncWithResult; CallFinalize;
             LogError Example.internalError "unable to finalize"]).
Proof.
  split; [reflexivity|].
  destruct (SyncReconciler_Reconcile_phases
              (Cases.syncReconcilerFinalizing Example.internalError)
              (Example.world Example.deleted [] []) eq_refl)
    as (sc & sres & serr & res1 & cl1 & fc & fres & ferr & res2 & cl2
        & Hsync & Hfinalize & Hrun & _).
  rewrite Hrun. clear Hrun.
  vm_compute in Hsync.
  destruct Hsync as (ev & action & Haction & -> & Hcall).
  injection Haction as <- <-.
  injection Hcall as <- <- <- <-.
  vm_compute in Hfinalize.
  destruct Hfinalize as (-> & Hcall).
  injection Hcall as <- <- <- <-.
  reflexivity.
Defined.

(** A reconciler with no sync action and no [Setup], on a live resource. *)
Lemma SyncReconciler_nil_Setup_skips_Validate_witness :
  SyncReconciler.SetupWithManager (Example.syncReconciler None None) tt = (None, tt)
  /\ SyncReconciler.Reconcile (Example.syncReconciler None None)
     (Example.world Example.live [] []) = Panics (Example.world Example.live [] []).
Proof.
  destruct (SyncReconciler_nil_Setup_skips_Validate
            (Example.syncReconciler None None) tt
            (Example.world Example.live [] []) eq_refl eq_refl eq_refl)
  as (Hsetup & _ & Hpanic & _).
  split; [exact Hsetup | exact (Hpanic eq_refl)].
Defined.

(** The scenario of the design: desired [a], [b]; known [b], [c]. *)
Lemma ChildSetReconciler_units_sorted_union_witness :
  executedIDs
    (newEvents (Example.world Example.live Example.knownBC [])
       (finalWorld
          (ChildSetReconciler.Reconcile
             (Example.childSetReconciler "" Example.desiredAB None None)
             Example.background (Example.world Example.live Example.knownBC []))))
  = ["a"; "b"; "c"].
Proof.
  edestruct (ChildSetReconciler_units_sorted_union
               (Example.childSetReconciler "" Example.desiredAB None None)
               Example.background (Example.world Example.live Example.knownBC []))
    as (_ & _ & _ & _ & _ & _ & Hall).
  - vm_compute. reflexivity.
  - reflexivity.
  - reflexivity.
  - vm_compute. reflexivity.
  - apply (bool_decide_unpack _). vm_compute. exact I.
  - apply (bool_decide_unpack _). vm_compute. exact I.
  - erewrite Hall; [|vm_compute; reflexivity]. vm_compute. reflexivity.
Defined.

(** The store refuses to create [a] for a reason that is not reflected:
    the unit of [a] returns the error and the unit of [b] never starts. *)
Lemma ChildSetReconciler_units_not_all_executed :
  ChildSetReconciler.knownChildren
    (ChildSetReconciler.init (Example.childSetReconciler "" Example.desiredAB None None))
    Example.background
    (Example.world Example.live [] [("a", Example.internalError)])
  = Returns ([], None)
      (withEvents (Example.world Example.live [] [("a", Example.internalError)])
         [CallList []])
  /\ NoDup (map fst Example.desiredAB)
  /\ ("" ∉ map fst Example.desiredAB)
  /\ correlatedIDs fst [] Example.desiredAB = ["a"; "b"]
  /\ executedIDs
       (newEvents (Example.world Example.live [] [("a", Example.internalError)])
          (finalWorld
             (ChildSetReconciler.Reconcile
                (Example.childSetReconciler "" Example.desiredAB None None)
                Example.background
                (Example.world Example.live [] [("a", Example.internalError)]))))
     = ["a"]
  /\ executedIDs
       (newEvents (Example.world Example.live [] [("a", Example.internalError)])
          (finalWorld
             (ChildSetReconciler.Reconcile
                (Example.childSetReconciler "" Example.desiredAB None None)
                Example.background
                (Example.world Example.live [] [("a", Example.internalError)]))))
     <> correlatedIDs fst [] Example.desiredAB.
Proof.
  split_and!.
  - vm_compute. reflexivity.
  - apply (bool_decide_unpack _). vm_compute. exact I.
  - apply (bool_decide_unpack _). vm_compute. exact I.
  - vm_compute. reflexivity.
  - vm_compute. reflexivity.
  - vm_compute. discriminate.
Qed.

(** The store refuses to create [a] as invalid: the error is captured. *)
Lemma ChildSetReconciler_store_error_classification_witness :
  exists captured,
    cr_Reconcile
      (ChildSetReconciler.childReconcilerFor
         (Example.childSetReconciler "" Example.desiredAB None None)
         (Some ("a", 1)) None "a" false)
      (Example.world Example.live [] [("a", Example.invalidError)])
    = Returns (emptyResult, None) captured
    /\ stashChildren captured
       = [{| Id := "a"; Child := None; Err := Some Example.invalidError |}].
Proof.
  edestruct (ChildSetReconciler_store_error_classification
               (Example.childSetReconciler "" Example.desiredAB None None)
               (Some ("a", 1)) "a"
               (Example.world Example.live [] [("a", Example.invalidError)]))
    as (Hreflected & _ & _).
  - vm_compute. reflexivity.
  - destruct Hreflected as [Hunit _].
    + apply (bool_decide_unpack _). vm_compute. exact I.
    + eexists. split; [exact Hunit|]. vm_compute. reflexivity.
Defined.

(** The unit of [a] fails and the reflection callback fails: both errors
    are returned. *)
Lemma ChildSetReconciler_Reconcile_joins_errors_witness :
  exists w',
    ChildSetReconciler.Reconcile
      (Example.childSetReconciler "" Example.desiredAB None (Some Example.reflectionError))
      Example.background
      (Example.world Example.live [] [("a", Example.internalError)])
    = Returns (emptyResult,
               Some (joinError [Example.internalError; Example.reflectionError])) w'.
Proof.
  edestruct (ChildSetReconciler_Reconcile_joins_errors
               (Example.childSetReconciler "" Example.desiredAB None
                  (Some Example.reflectionError))
               Example.background
               (Example.world Example.live [] [("a", Example.internalError)]))
    as (reflectErr & res3 & cl3 & Hcall & Hrun & _).
  - vm_compute. reflexivity.
  - vm_compute. reflexivity.
  - vm_compute. reflexivity.
  - vm_compute. reflexivity.
  - vm_compute in Hcall. injection Hcall as <- <- <-. eexists. exact Hrun.
Defined.

(** A validated reconciler with a finalizer; desired [a], [b], known [b],
    [c]: the sequence of the units of [a], [b] and [c] inside the guard. *)
Lemma ChildSetReconciler_Validate_requirements_witness :
  (ChildSetReconciler.Validate
     (Example.childSetReconciler "finalizer" Example.desiredAB None None)).2 = None
  /\ ChildSetReconciler.SkipOwnerReference
       (ChildSetReconciler.Validate
          (Example.childSetReconciler "finalizer" Example.desiredAB None None)).1 = true
  /\ exists units w',
       ChildSetReconciler.composeChildReconcilers
         (Example.childSetReconciler "finalizer" Example.desiredAB None None)
         Example.background Example.knownBC
         (Example.world Example.live Example.knownBC [])
       = Returns (inl (WithFinalizer "finalizer" (Sequence units))) w'
       /\ unitIDs (Sequence units) = ["a"; "b"; "c"].
Proof.
  destruct (ChildSetReconciler_Validate_requirements
              (Example.childSetReconciler "finalizer" Example.desiredAB None None))
    as (Hskip & _ & _ & Hcompose & _).
  split; [reflexivity|]. split; [apply Hskip; discriminate|].
  eexists _, _. split.
  - apply (Hcompose fst (Example.desiredChildren Example.desiredAB None)
             Example.background Example.knownBC
             (Example.world Example.live Example.knownBC [])
             Example.desiredAB None Example.live
             {| Example.objects := Example.knownBC; Example.rejects := [] |}).
    + reflexivity.
    + reflexivity.
    + reflexivity.
    + reflexivity.
    + apply (bool_decide_unpack _). vm_compute. exact I.
    + apply (bool_decide_unpack _). vm_compute. exact I.
  - vm_compute. reflexivity.
Defined.

(** Two desired children named [a]. *)
Lemma ChildSetReconciler_invalid_identities_abort_witness :
  exists w',
    ChildSetReconciler.Reconcile
      (Example.childSetReconciler "" Example.desiredTwice None None)
      Example.background (Example.world Example.live Example.knownBC [])
    = Returns (emptyResult, Some (Errorf "duplicate child id found: %s" ["a"])) w'
    /\ List.filter isMutation
         (newEvents (Example.world Example.live Example.knownBC []) w') = [].
Proof.
  edestruct (ChildSetReconciler_invalid_identities_abort
               (Example.childSetReconciler "" Example.desiredTwice None None)
               Example.background (Example.world Example.live Example.knownBC []))
    as (e & w' & Hrun & _ & _ & Hmut & _).
  - vm_compute. reflexivity.
  - reflexivity.
  - reflexivity.
  - vm_compute. reflexivity.
  - right. apply (bool_decide_unpack _). vm_compute. exact I.
  - exists w'. split; [|exact Hmut].
    rewrite Hrun. vm_compute in Hrun. injection Hrun as <- _. reflexivity.
Defined.

(** Two desired children named [a], with [b] and [c] known.  When the
    policy fails as well, with a store error, [Reconcile] returns that
    error, which is no error of the identity check.  When the policy does
    not fail, [Reconcile] returns the error of the identity check, in which
    [errors.Is] finds nothing, exactly as it returns that same error from a
    policy that fails with it: the outcomes of the two passes are equal. *)
Lemma ChildSetReconciler_identity_error_returned_as_policy_error :
  let w := Example.world Example.live Example.knownBC [] in
  let duplicate := Errorf "duplicate child id found: %s" ["a"] in
  ~ NoDup (map fst Example.desiredTwice)
  /\ ChildSetReconciler.Reconcile
       (Example.childSetReconciler "" Example.desiredTwice
          (Some Example.internalError) None)
       Example.background w
     = Returns (emptyResult, Some Example.internalError)
         (withEvents w [CallList []; CallDesiredChildren])
  /\ ~ isIdentityError Example.internalError
  /\ ChildSetReconciler.Reconcile
       (Example.childSetReconciler "" Example.desiredTwice None None)
       Example.background w
     = Returns (emptyResult, Some duplicate)
         (withEvents w [CallList []; CallDesiredChildren])
  /\ ChildSetReconciler.Reconcile
       (Example.childSetReconciler "" [] (Some duplicate) None)
       Example.background w
     = ChildSetReconciler.Reconcile
         (Example.childSetReconciler "" Example.desiredTwice None None)
         Example.background w
  /\ (forall target, errors_Is (Some duplicate) target = false).
Proof.
  split_and!.
  - apply (bool_decide_unpack _). vm_compute. exact I.
  - vm_compute. reflexivity.
  - intros [H|[id H]]; discriminate H.
  - vm_compute. reflexivity.
  - vm_compute. reflexivity.
  - intros target. reflexivity.
Qed.


(* ===================================================================== *)
(** * Further properties of the code *)
(* ===================================================================== *)

(** ** SyncReconciler: panics, set-up and the order of the calls *)

Section SyncReconcilerMore.
Context `{K : Kinds}.
Import SyncReconciler.
Local Open Scope go_scope.

Lemma init_idempotent (r : t) : init (init r) = init r.
Proof. unfold init. destruct (lazyInit r) eqn:E; simpl; by rewrite ?E. Qed.

Lemma Validate_init (r : t) : Validate (init r) = Validate r.
Proof. unfold Validate. by rewrite init_idempotent. Qed.

(** The finalize phase of [Reconcile] returns, whatever the reconciler. *)
Lemma finalize_phase_returns (r : t) (result : Result) (w1 : World) :
  exists out w',
    (let* resource := getResource in
     if negb (isNil (GetDeletionTimestamp resource)) then
       let* (finalizeResult, err) := finalize r in
       let result := AggregateResults result finalizeResult in
       match err with
       | Some e => logUnlessQuiet e "unable to finalize" ;;; ret (result, Some e)
       | None => ret (result, None)
       end
     else ret (result, None)) w1 = Returns out w'.
Proof.
  unfold bind at 1, getResource.
  destruct (negb _); [|by eauto].
  destruct (finalize_returns r w1) as (fres & ferr & res2 & cl2 & evs & _ & Hrun).
  unfold bind at 1. rewrite Hrun.
  destruct ferr; [|by eauto].
  unfold bind. rewrite logUnlessQuiet_run. by eauto.
Qed.

(** X1.  [Reconcile] panics exactly when the sync phase runs (the resource
    is live, or [SyncDuringFinalization] is set) on a reconciler with
    neither [Sync] nor [SyncWithResult]; it does so before anything was
    called.  In particular a missing finalize action never panics, and a
    reconciler without sync action is safe on a resource pending deletion
    when [SyncDuringFinalization] is off. *)
Theorem SyncReconciler_Reconcile_panics_iff (r : t) (w : World) :
  ((exists w', Reconcile r w = Panics w') <->
     runsSync r w = true /\ Sync r = None /\ SyncWithResult r = None)
  /\ (forall w', Reconcile r w = Panics w' -> w' = w).
Proof.
  assert (runsSync r w = true -> Sync r = None -> SyncWithResult r = None ->
          Reconcile r w = Panics w) as Hpanics.
  { unfold runsSync. intros Hruns Hsync Hswr.
    unfold Reconcile, bind, getResource. rewrite Hruns.
    unfold sync. by rewrite Hsync, Hswr. }
  assert ((runsSync r w = true /\ Sync r = None /\ SyncWithResult r = None)
          \/ exists out w', Reconcile r w = Returns out w') as [(Hruns & Hsync & Hswr)|Hret].
  { destruct (Sync r) as [f|] eqn:Hsync;
      [right; apply Reconcile_returns; left; rewrite Hsync; by eexists|].
    destruct (SyncWithResult r) as [f|] eqn:Hswr;
      [right; apply Reconcile_returns; right; rewrite Hswr; by eexists|].
    destruct (runsSync r w) eqn:Hruns; [by left|right].
    unfold runsSync in Hruns. unfold Reconcile, bind at 1, getResource.
    rewrite Hruns. unfold bind at 1. apply finalize_phase_returns. }
  - rewrite (Hpanics Hruns Hsync Hswr). split.
    + split; [done|]. intros _. by eexists.
    + by intros w' [= <-].
  - destruct Hret as (out & w1 & Hret). rewrite Hret. split.
    + split; [by intros [w' [=]]|].
      intros (Hruns & Hsync & Hswr). by rewrite (Hpanics Hruns Hsync Hswr) in Hret.
    + by intros w' [=].
Qed.

(** X2.  With a [Setup], [SetupWithManager] validates first: a rejected
    configuration returns the error of [Validate] and [Setup] is never
    reached; an accepted one returns what [Setup] returns.  So a reconciler
    with a [Setup] that was set up without error is valid, and its
    [Reconcile] never panics. *)
Theorem SyncReconciler_Setup_validates_first (r : t)
    (setup : Builder -> option error * Builder) (bldr : Builder) :
  Setup r = Some setup ->
  SetupWithManager r bldr
  = match Validate r with
    | Some err => (Some err, bldr)
    | None => setup bldr
    end
  /\ ((SetupWithManager r bldr).1 = None ->
      Validate r = None
      /\ forall w, exists out w', Reconcile r w = Returns out w').
Proof.
  intros Hsetup.
  assert (SetupWithManager r bldr
          = match Validate r with
            | Some err => (Some err, bldr)
            | None => setup bldr
            end) as Heq.
  { unfold SetupWithManager. rewrite Validate_init.
    destruct (init_fields r) as (_ & _ & _ & _ & ->). by rewrite Hsetup. }
  split; [exact Heq|].
  rewrite Heq. destruct (Validate r) as [err|] eqn:Hvalid; [done|].
  intros _. split; [done|].
  intros w. apply Reconcile_returns. by apply Validate_None.
Qed.

Lemma sync_calls (r : t) (w : World) :
  exists s,
    trace (finalWorld (sync r w)) = trace w ++ s
    /\ phaseCalls CallSync CallSyncWithResult (negb (isNil (Sync r))) s
    /\ childSetResultStash (finalWorld (sync r w)) = childSetResultStash w.
Proof.
  unfold sync, phaseCalls.
  destruct (Sync r) as [f|]; [|destruct (SyncWithResult r) as [f|]];
    unfold bind, emit, callUser, ret, panic; simpl.
  - destruct (f (resource w) (cluster w)) as [[err res] cl]. simpl.
    exists [CallSync]. split_and!; try done. right. by left.
  - destruct (f (resource w) (cluster w)) as [[out res] cl]. simpl.
    exists [CallSyncWithResult]. split_and!; try done. right. by right.
  - exists []. rewrite app_nil_r. split_and!; try done. by left.
Qed.

Lemma errorLog_shape (e : error) (msg : string) :
  errorLog e msg = [] \/ exists e' msg', errorLog e msg = [LogError e' msg'].
Proof. unfold errorLog. destruct (errors_Is _ _); by eauto. Qed.

Lemma finalize_calls (r : t) (w : World) :
  exists result err w2 f,
    finalize r w = Returns (result, err) w2
    /\ trace w2 = trace w ++ f
    /\ phaseCalls CallFinalize CallFinalizeWithResult (negb (isNil (Finalize r))) f
    /\ childSetResultStash w2 = childSetResultStash w.
Proof.
  unfold finalize, phaseCalls.
  destruct (Finalize r) as [f|]; [|destruct (FinalizeWithResult r) as [f|]];
    unfold bind, emit, callUser, ret; simpl.
  - destruct (f (resource w) (cluster w)) as [[err res] cl].
    eexists _, _, _, [CallFinalize]. split_and!; try done. right. by left.
  - destruct (f (resource w) (cluster w)) as [[[result err] res] cl].
    eexists _, _, _, [CallFinalizeWithResult]. split_and!; try done. right. by right.
  - eexists _, _, _, []. rewrite app_nil_r. split_and!; try done. by left.
Qed.

Lemma finalize_phase_calls (r : t) (result : Result) (w1 : World) :
  exists o f l,
    (let* resource := getResource in
     if negb (isNil (GetDeletionTimestamp resource)) then
       let* (finalizeResult, err) := finalize r in
       let result := AggregateResults result finalizeResult in
       match err with
       | Some e => logUnlessQuiet e "unable to finalize" ;;; ret (result, Some e)
       | None => ret (result, None)
       end
     else ret (result, None)) w1 = o
    /\ trace (finalWorld o) = trace w1 ++ f ++ l
    /\ phaseCalls CallFinalize CallFinalizeWithResult (negb (isNil (Finalize r))) f
    /\ (l = [] \/ exists e msg, l = [LogError e msg])
    /\ childSetResultStash (finalWorld o) = childSetResultStash w1.
Proof.
  unfold bind at 1, getResource.
  destruct (negb _).
  - destruct (finalize_calls r w1) as (fres & ferr & w2 & f & Hrun & Htrace & Hf & Hstash).
    unfold bind at 1. rewrite Hrun. destruct ferr as [e|].
    + unfold bind. rewrite logUnlessQuiet_run.
      eexists _, f, (errorLog e "unable to finalize"). split; [done|]. simpl.
      rewrite Htrace, <- app_assoc. split_and!; try done. apply errorLog_shape.
    + eexists _, f, []. split; [done|]. simpl. rewrite Htrace, app_nil_r.
      split_and!; try done. by left.
  - eexists _, [], []. split; [done|]. simpl. rewrite app_nil_r.
    split_and!; try done; by left.
Qed.

(** X3.  Whatever the configuration, one [Reconcile] makes its calls in
    this order: at most one call of the sync action, then at most one call
    of the finalize action, then at most one error line in the log.  When
    both forms of an action are given, [Sync] is called and
    [SyncWithResult] is not, [Finalize] is called and [FinalizeWithResult]
    is not.  The stash of the child-set result is left alone. *)
Theorem SyncReconciler_Reconcile_call_order (r : t) (w : World) :
  exists s f l,
    trace (finalWorld (Reconcile r w)) = trace w ++ s ++ f ++ l
    /\ phaseCalls CallSync CallSyncWithResult (negb (isNil (Sync r))) s
    /\ phaseCalls CallFinalize CallFinalizeWithResult (negb (isNil (Finalize r))) f
    /\ (l = [] \/ exists e msg, l = [LogError e msg])
    /\ childSetResultStash (finalWorld (Reconcile r w)) = childSetResultStash w.
Proof.
  cut (exists o s f l,
         Reconcile r w = o
         /\ trace (finalWorld o) = trace w ++ s ++ f ++ l
         /\ phaseCalls CallSync CallSyncWithResult (negb (isNil (Sync r))) s
         /\ phaseCalls CallFinalize CallFinalizeWithResult (negb (isNil (Finalize r))) f
         /\ (l = [] \/ exists e msg, l = [LogError e msg])
         /\ childSetResultStash (finalWorld o) = childSetResultStash w).
  { intros (o & s & f & l & -> & H). by exists s, f, l. }
  unfold Reconcile, bind at 1, getResource.
  destruct (isNil (GetDeletionTimestamp (resource w)) || SyncDuringFinalization r).
  - destruct (sync_calls r w) as (s & Htrace & Hs & Hstash).
    unfold bind at 1. unfold bind at 1.
    destruct (sync r w) as [[sres [e|]] w1|w1]; simpl in Htrace, Hstash.
    + unfold bind. rewrite logUnlessQuiet_run.
      eexists _, s, [], (errorLog e "unable to sync"). split; [done|]. simpl.
      rewrite Htrace, <- app_assoc.
      split_and!; try done; [by left|apply errorLog_shape].
    + unfold ret at 1. unfold bind at 1.
      destruct (finalize_phase_calls r (AggregateResults emptyResult sres) w1)
        as (o & f & l & Hrun & Hf & Hfc & Hl & Hfs).
      exists o, s, f, l. split; [exact Hrun|].
      rewrite Hf, Htrace, Hfs, <- app_assoc. by split_and!.
    + eexists _, s, [], []. split; [done|]. simpl. rewrite Htrace, app_nil_r.
      split_and!; try done; by left.
  - unfold bind at 1. unfold ret at 1.
    destruct (finalize_phase_calls r emptyResult w) as (o & f & l & Hrun & Hf & Hfc & Hl & Hfs).
    exists o, [], f, l. split; [exact Hrun|]. rewrite Hf, Hfs.
    split_and!; try done; by left.
Qed.

End SyncReconcilerMore.

(** ** ChildSetReconciler: ownership, the units and their desired children *)

Section ChildSetReconcilerMore.
Context `{K : Kinds}.
Import ChildSetReconciler.
Local Open Scope go_scope.

(** X4.  The units of a pass share out the children by identity.  The
    ownership test of the unit of an identity accepts a child exactly when
    the [OurChild] of the reconciler accepts it (or is not given) and the
    child has that identity; the void reconciler, which finds the known
    children, accepts whatever [OurChild] accepts.  So no child is claimed
    by the units of two identities, and a known child is claimed by the
    unit of its own identity. *)
Theorem ChildSetReconciler_units_share_out_children (r : t)
    (identify : ChildType -> string) (desired : option ChildType)
    (desiredErr : option error) (id : string) (resource : ResourceType)
    (child : ChildType) :
  IdentifyChild r = Some identify ->
  let unit := fun id => childReconcilerFor r desired desiredErr id false in
  let void := childReconcilerFor r None None "" true in
  callOurChild void resource child = Some (accepted r resource child)
  /\ callOurChild (unit id) resource child
     = Some (accepted r resource child && String.eqb id (identify child))
  /\ (forall id', id' <> id ->
        callOurChild (unit id) resource child = Some true ->
        callOurChild (unit id') resource child = Some false)
  /\ (callOurChild void resource child = Some true ->
      callOurChild (unit (identify child)) resource child = Some true).
Proof.
  intros Hid unit void.
  assert (forall id0, callOurChild (unit id0) resource child
                      = Some (accepted r resource child && String.eqb id0 (identify child)))
    as Hunit.
  { intros id0. unfold callOurChild, accepted. simpl. rewrite Hid.
    destruct (OurChild r) as [ourChild|]; [|done].
    by destruct (ourChild resource child). }
  assert (callOurChild void resource child = Some (accepted r resource child)) as Hvoid.
  { unfold callOurChild, accepted. simpl.
    destruct (OurChild r) as [ourChild|]; [|done].
    by destruct (ourChild resource child). }
  split_and!.
  - exact Hvoid.
  - apply Hunit.
  - intros id' Hne. rewrite !Hunit. intros [= Hclaim].
    apply andb_prop in Hclaim as [-> Heq]. apply String.eqb_eq in Heq. subst id.
    simpl. f_equal. by apply String.eqb_neq.
  - rewrite Hvoid, Hunit. intros [= ->]. by rewrite String.eqb_refl.
Qed.

Lemma childUnits_composed (r : t) (identify : ChildType -> string)
    (known desired : list ChildType) (desiredErr : option error) :
  childUnits (guarded r (Sequence (perIdentityUnits r identify known desired desiredErr)))
  = map (fun id => childReconcilerFor r (desiredChildOf identify desired id)
                     desiredErr id false)
        (correlatedIDs identify known desired).
Proof.
  assert (forall ids : list string,
            flat_map childUnits
              (map (fun id => ChildUnit (childReconcilerFor r
                                (desiredChildOf identify desired id) desiredErr id false))
                   ids)
            = map (fun id => childReconcilerFor r (desiredChildOf identify desired id)
                               desiredErr id false) ids) as Hflat.
  { induction ids as [|id ids IH]; simpl; [done|]. by rewrite IH. }
  unfold guarded, perIdentityUnits.
  destruct (negb _); simpl; apply Hflat.
Qed.

Lemma find_identity (identify : ChildType -> string) (desired : list ChildType)
    (c : ChildType) :
  NoDup (map identify desired) -> c ∈ desired ->
  List.find (fun d => String.eqb (identify d) (identify c)) desired = Some c.
Proof.
  induction desired as [|d desired IH]; simpl; intros Hnodup Hin.
  - by apply elem_of_nil in Hin.
  - apply NoDup_cons in Hnodup as [Hnotin Hnodup].
    apply elem_of_cons in Hin as [->|Hin].
    + by rewrite String.eqb_refl.
    + destruct (String.eqb (identify d) (identify c)) eqn:Heq; [|by apply IH].
      apply String.eqb_eq in Heq. exfalso. apply Hnotin. rewrite Heq.
      apply list_elem_of_In, in_map, list_elem_of_In, Hin.
Qed.

Lemma find_no_identity (identify : ChildType -> string) (desired : list ChildType)
    (id : string) :
  id ∉ map identify desired ->
  List.find (fun d => String.eqb (identify d) id) desired = None.
Proof.
  induction desired as [|d desired IH]; simpl; intros Hnotin; [done|].
  apply not_elem_of_cons in Hnotin as [Hne Hnotin].
  destruct (String.eqb (identify d) id) eqn:Heq; [|by apply IH].
  apply String.eqb_eq in Heq. by subst.
Qed.

Lemma elem_of_map_identity (identify : ChildType -> string) (cs : list ChildType)
    (c : ChildType) :
  c ∈ cs -> identify c ∈ map identify cs.
Proof. intros Hin. apply list_elem_of_In, in_map, list_elem_of_In, Hin. Qed.

(** X5.  The units [composeChildReconcilers] builds from valid desired
    children: one unit per correlated identity, named after it.  Each
    desired child is the desired child of the unit of its identity; the
    unit of an identity that is only known has a nil desired child, which
    is what makes it delete.  Every unit answers the error of
    [DesiredChildren] (nil, or the status-only sentinel) as the error of its
    own desired child. *)
Theorem ChildSetReconciler_units_desired_children (r : t) (ctx : Context)
    (w : World) (known desired : list ChildType) (desiredErr : option error)
    (identify : ChildType -> string)
    (f : Context -> UserFn (list ChildType * option error))
    (res1 : ResourceType) (cl1 : Cluster) :
  IdentifyChild r = Some identify ->
  DesiredChildren r = Some f ->
  f ctx (resource w) (cluster w) = ((desired, desiredErr), res1, cl1) ->
  abortsPass desiredErr = false ->
  NoDup (map identify desired) ->
  "" ∉ map identify desired ->
  exists cr,
    composeChildReconcilers r ctx known w
      = Returns (inl cr) (afterDesiredChildren w res1 cl1)
    /\ map cr_Name (childUnits cr) = correlatedIDs identify known desired
    /\ (forall c, c ∈ desired ->
        exists u, u ∈ childUnits cr /\ cr_Name u = identify c
                  /\ forall res, cr_DesiredChild u res = (Some c, desiredErr))
    /\ (forall c, c ∈ known -> identify c ∉ map identify desired ->
        exists u, u ∈ childUnits cr /\ cr_Name u = identify c
                  /\ forall res, cr_DesiredChild u res = (None, desiredErr))
    /\ (forall u, u ∈ childUnits cr ->
        forall res, (cr_DesiredChild u res).2 = desiredErr).
Proof.
  intros Hid Hdesired Hcall Habort Hnodup Hnonempty.
  eexists. split.
  { exact (compose_valid r ctx known w identify f desired desiredErr res1 cl1
             Hid Hdesired Hcall Habort Hnodup Hnonempty). }
  rewrite childUnits_composed.
  set (mk := fun id => childReconcilerFor r (desiredChildOf identify desired id)
                         desiredErr id false).
  assert (forall id, id ∈ correlatedIDs identify known desired ->
                     mk id ∈ map mk (correlatedIDs identify known desired)) as Hmk.
  { intros id Hin. apply list_elem_of_In, in_map, list_elem_of_In, Hin. }
  split_and!.
  - rewrite map_map. simpl. apply map_id.
  - intros c Hin. exists (mk (identify c)). split_and!.
    + apply Hmk, elem_of_correlatedIDs. right. by apply elem_of_map_identity.
    + done.
    + intros res. simpl. f_equal.
      rewrite desiredChildOf_find by done. by apply find_identity.
  - intros c Hin Hnotin. exists (mk (identify c)). split_and!.
    + apply Hmk, elem_of_correlatedIDs. left. by apply elem_of_map_identity.
    + done.
    + intros res. simpl. f_equal.
      rewrite desiredChildOf_find by done. by apply find_no_identity.
  - intros u Hin res. apply list_elem_of_In, in_map_iff in Hin as (id & <- & _). done.
Qed.

(** X6.  A policy that answers the known children of the pass, which it
    reads from its context with [RetrieveKnownChildren], preserves them:
    when their identities are distinct and not empty, the units are those
    of the known identities, each known child is the desired child of its
    unit, and no unit has a nil desired child, so that none deletes. *)
Theorem ChildSetReconciler_preserving_policy (r : t) (ctx : Context)
    (w0 : World) (known : list ChildType) (identify : ChildType -> string) :
  IdentifyChild r = Some identify ->
  DesiredChildren r
  = Some (fun ctx res cl => ((RetrieveKnownChildren ctx, None), res, cl)) ->
  NoDup (map identify known) ->
  "" ∉ map identify known ->
  exists cr,
    composeChildReconcilers (init r) (stashKnownChildren ctx known) known w0
      = Returns (inl cr) (afterDesiredChildren w0 (resource w0) (cluster w0))
    /\ map cr_Name (childUnits cr)
       = StringSet.List (list_to_set (map identify known))
    /\ (forall c, c ∈ known ->
        exists u, u ∈ childUnits cr /\ cr_Name u = identify c
                  /\ forall res, cr_DesiredChild u res = (Some c, None))
    /\ (forall u res, u ∈ childUnits cr -> is_Some (cr_DesiredChild u res).1).
Proof.
  intros Hid Hdesired Hnodup Hnonempty.
  destruct (init_preserves r) as (_ & _ & HD & _ & _ & _ & _ & HI & _).
  rewrite <- HI in Hid. rewrite <- HD in Hdesired.
  eexists. split.
  { apply (compose_valid (init r) (stashKnownChildren ctx known) known w0 identify
             _ known None (resource w0) (cluster w0) Hid Hdesired); done. }
  rewrite childUnits_composed.
  set (mk := fun id => childReconcilerFor (init r) (desiredChildOf identify known id)
                         None id false).
  assert (correlatedIDs identify known known
          = StringSet.List (list_to_set (map identify known))) as Hids.
  { unfold correlatedIDs. f_equal. set_solver. }
  split_and!.
  - rewrite map_map. simpl. rewrite map_id. exact Hids.
  - intros c Hin. exists (mk (identify c)). split_and!.
    + apply list_elem_of_In, in_map, list_elem_of_In, elem_of_correlatedIDs.
      left. by apply elem_of_map_identity.
    + done.
    + intros res. simpl. f_equal.
      rewrite desiredChildOf_find by done. by apply find_identity.
  - intros u res Hin.
    apply list_elem_of_In, in_map_iff in Hin as (id & <- & Hin). simpl.
    apply list_elem_of_In, elem_of_correlatedIDs in Hin.
    assert (id ∈ map identify known) as Hin' by (by destruct Hin).
    apply list_elem_of_In, in_map_iff in Hin' as (c & <- & Hc).
    rewrite desiredChildOf_find by done.
    rewrite find_identity; [by eexists|done|by apply list_elem_of_In].
Qed.

Lemma collectDesired_valid_prefix (r : t) (identify : ChildType -> string)
    (pre rest : list ChildType) (ids0 : gset string) (m0 : gmap string ChildType)
    (w : World) :
  IdentifyChild r = Some identify ->
  NoDup (map identify pre) ->
  "" ∉ map identify pre ->
  (forall id, id ∈ map identify pre -> id ∉ ids0) ->
  collectDesired r (pre ++ rest) ids0 m0 w
  = collectDesired r rest (ids0 ∪ list_to_set (map identify pre))
      (fold_left (fun m c => <[identify c := c]> m) pre m0) w.
Proof.
  intros Hid. revert ids0 m0.
  induction pre as [|c pre IH]; intros ids0 m0 Hnodup Hnonempty Hfresh; simpl.
  - f_equal. set_solver.
  - apply NoDup_cons in Hnodup as [Hnotin Hnodup].
    apply not_elem_of_cons in Hnonempty as [Hne Hnonempty].
    rewrite Hid.
    assert (String.eqb (identify c) "" = false) as ->
      by (apply String.eqb_neq; congruence).
    assert (StringSet.Has ids0 (identify c) = false) as ->.
    { apply bool_decide_eq_false_2, Hfresh. simpl. apply elem_of_cons. by left. }
    rewrite IH; try done.
    + f_equal. unfold StringSet.Insert. simpl. set_solver.
    + intros id Hin. unfold StringSet.Insert.
      assert (id ∉ ids0) by (apply Hfresh; simpl; apply elem_of_cons; by right).
      set_solver.
Qed.

(** X7.  The error of the identity check names the first offending
    desired child, in the order [DesiredChildren] answered them: when the
    children before it have distinct, non-empty identities, an empty
    identity is reported as such, and an identity that one of them already
    has is reported as a duplicate, with that identity.  The known children
    play no part in the check. *)
Theorem ChildSetReconciler_first_invalid_identity (r : t) (ctx : Context)
    (w : World) (known pre post : list ChildType) (c : ChildType)
    (desiredErr : option error) (identify : ChildType -> string)
    (f : Context -> UserFn (list ChildType * option error))
    (res1 : ResourceType) (cl1 : Cluster) :
  IdentifyChild r = Some identify ->
  DesiredChildren r = Some f ->
  f ctx (resource w) (cluster w) = ((pre ++ c :: post, desiredErr), res1, cl1) ->
  abortsPass desiredErr = false ->
  NoDup (map identify pre) ->
  "" ∉ map identify pre ->
  identify c = "" \/ identify c ∈ map identify pre ->
  composeChildReconcilers r ctx known w
  = Returns (inr (if String.eqb (identify c) ""
                  then Errorf "desired child id may not be empty" []
                  else Errorf "duplicate child id found: %s" [identify c]))
            (afterDesiredChildren w res1 cl1).
Proof.
  intros Hid Hdesired Hcall Habort Hnodup Hnonempty Hbad.
  unfold composeChildReconcilers, bind at 1.
  rewrite (callDesiredChildren_run r ctx w f _ desiredErr res1 cl1 Hdesired Hcall).
  assert (match desiredErr with
          | Some err =>
              if negb (errors_Is desiredErr OnlyReconcileChildStatus_name)
              then Some err else None
          | None => None
          end = None) as ->.
  { unfold abortsPass in Habort. destruct desiredErr; [|done].
    simpl in Habort. unfold errors_Is. by rewrite Habort. }
  unfold bind at 1.
  rewrite (collectDesired_valid_prefix r identify); try done.
  simpl. rewrite Hid.
  destruct (String.eqb (identify c) "") eqn:Hempty; [done|].
  destruct Hbad as [Hbad|Hbad]; [by apply String.eqb_neq in Hempty|].
  assert (StringSet.Has (∅ ∪ list_to_set (map identify pre)) (identify c) = true) as ->;
    [|done].
  apply bool_decide_eq_true_2. set_solver.
Qed.

(** X8.  The reflection callback of a fresh reconciler, as [Reconcile]
    calls it once the units ran.  When
    [ReflectChildrenStatusOnParentWithError] is given it is the one called,
    whether or not [ReflectChildrenStatusOnParent] is given too.  When only
    [ReflectChildrenStatusOnParent] is given, it is called with the same
    result and the reflection answers a nil error.  When neither is given
    the call panics, after the stash was emptied. *)
Theorem ChildSetReconciler_reflection_callbacks (r : t) (ctx : Context) (w : World) :
  lazyInit r = false ->
  let handed := {| Children := stashChildren w |} in
  let after := fun res cl =>
    {| resource := res; cluster := cl; childSetResultStash := None;
       trace := trace w ++ [CallReflectChildrenStatus handed] |} in
  match ReflectChildrenStatusOnParentWithError r, ReflectChildrenStatusOnParent r with
  | Some reflect, _ =>
      reflectStatus (init r) ctx w
      = Returns (reflect ctx handed (resource w) (cluster w)).1.1
          (after (reflect ctx handed (resource w) (cluster w)).1.2
                 (reflect ctx handed (resource w) (cluster w)).2)
  | None, Some reflect =>
      reflectStatus (init r) ctx w
      = Returns None
          (after (reflect ctx handed (resource w) (cluster w)).1.2
                 (reflect ctx handed (resource w) (cluster w)).2)
  | None, None =>
      reflectStatus (init r) ctx w
      = Panics {| resource := resource w; cluster := cluster w;
                  childSetResultStash := None; trace := trace w |}
  end.
Proof.
  intros Hfresh handed after.
  destruct (ReflectChildrenStatusOnParentWithError r) as [reflectE|] eqn:HE;
    [|destruct (ReflectChildrenStatusOnParent r) as [reflect|] eqn:HR].
  - rewrite (reflectStatus_run (init r) ctx w reflectE); [done|].
    unfold init. rewrite Hfresh. simpl. by rewrite HE.
  - erewrite (reflectStatus_run (init r) ctx w);
      [|unfold init; rewrite Hfresh; simpl; by rewrite HE, HR].
    simpl. fold handed.
    by destruct (reflect ctx handed (resource w) (cluster w)) as [[[] res] cl].
  - unfold reflectStatus, bind, childSetResult_Clear, bind,
      childSetResult_RetrieveOrEmpty, setStash, ret.
    unfold init. rewrite Hfresh. simpl. rewrite HE, HR.
    by destruct (childSetResultStash w).
Qed.

Lemma Validate_fst (r : t) :
  (Validate r).1
  = if negb (String.eqb (Finalizer (init r)) "")
    then setSkipOwnerReference (init r) true else init r.
Proof.
  unfold Validate. cbv zeta.
  by repeat match goal with |- context [if ?b then _ else _] => destruct b end.
Qed.

Lemma lazyInit_init (r : t) : lazyInit (init r) = true.
Proof. unfold init. by destruct (lazyInit r) eqn:E. Qed.

Lemma init_initialised (r : t) : lazyInit r = true -> init r = r.
Proof. unfold init. by intros ->. Qed.

(** [Validate] on the receiver it left: the same receiver, the same error. *)
Lemma Validate_idempotent (r : t) : Validate (Validate r).1 = Validate r.
Proof.
  rewrite Validate_fst.
  set (r1 := if negb (String.eqb (Finalizer (init r)) "")
             then setSkipOwnerReference (init r) true else init r).
  assert (init r1 = r1) as Hinit.
  { apply init_initialised. subst r1. pose proof (lazyInit_init r).
    by destruct (negb _). }
  assert ((if negb (String.eqb (Finalizer r1) "")
           then setSkipOwnerReference r1 true else r1) = r1) as Hnorm.
  { subst r1. destruct (negb (String.eqb (Finalizer (init r)) "")) eqn:E; simpl.
    - by rewrite E.
    - by rewrite E. }
  unfold Validate at 1. cbv zeta. rewrite Hinit, Hnorm.
  unfold Validate. cbv zeta. by fold r1.
Qed.

(** X9.  [Validate] of a fresh reconciler with a finalizer: the receiver
    is left with [SkipOwnerReference] set, and every unit composed from it
    afterwards skips the owner reference; the void reconciler, which [init]
    built before the default was applied, keeps the configured value.
    Calling [Validate] again changes nothing. *)
Theorem ChildSetReconciler_Validate_defaults_after_init (r : t) :
  lazyInit r = false ->
  Finalizer r <> "" ->
  let r' := (Validate r).1 in
  SkipOwnerReference r' = true
  /\ (forall desired desiredErr id,
        cr_SkipOwnerReference (childReconcilerFor r' desired desiredErr id false) = true)
  /\ cr_SkipOwnerReference <$> voidReconciler r' = Some (SkipOwnerReference r)
  /\ Validate r' = Validate r.
Proof.
  intros Hfresh Hfinalizer r'.
  assert (r' = setSkipOwnerReference (init r) true) as Hr'.
  { subst r'. rewrite Validate_fst.
    destruct (init_preserves r) as (-> & _).
    apply String.eqb_neq in Hfinalizer. by rewrite Hfinalizer. }
  split_and!.
  - by rewrite Hr'.
  - intros desired desiredErr id. by rewrite Hr'.
  - rewrite Hr'. unfold init. by rewrite Hfresh.
  - apply Validate_idempotent.
Qed.

(** A reconciler [Validate] accepts has an object manager, and a void
    reconciler when it was fresh. *)
Lemma Validate_accepted_fields (r : t) :
  (Validate r).2 = None ->
  is_Some (ChildObjectManager (Validate r).1)
  /\ (lazyInit r = false -> is_Some (voidReconciler (Validate r).1)).
Proof.
  intros Hvalid. split.
  - rewrite Validate_fst. revert Hvalid. unfold Validate. cbv zeta.
    set (r1 := if negb (String.eqb (Finalizer (init r)) "")
               then setSkipOwnerReference (init r) true else init r).
    clearbody r1.
    repeat match goal with
           | |- context [if ?b then _ else _] => destruct b eqn:?
           end; simpl; try done.
    destruct (ChildObjectManager r1); [by eexists|done].
  - intros Hfresh. rewrite Validate_fst. unfold init. rewrite Hfresh. simpl.
    destruct (negb _); simpl; by eexists.
Qed.

Lemma ChildSet_Validate_init (r : t) : Validate (init r) = Validate r.
Proof.
  unfold Validate. cbv zeta.
  by rewrite (init_initialised (init r) (lazyInit_init r)).
Qed.

(** X10.  [SetupWithManager] of a fresh [ChildSetReconciler] never panics
    and always validates, also when [Setup] is nil.  When [Validate]
    rejects the configuration its error is returned and no set-up step
    ran: the builder is untouched.  When [SetupWithManager] returns nil the
    configuration is valid, and validating the receiver again returns nil
    and leaves it as it is. *)
Theorem ChildSetReconciler_SetupWithManager_validates
    (setupObjectManager : ObjectManager -> Builder -> option error * Builder)
    (setupChildReconciler : ChildReconciler -> Builder -> option error * Builder)
    (r : t) (bldr : Builder) :
  lazyInit r = false ->
  exists r' err bldr',
    ChildSetReconcilerSetup.SetupWithManager setupObjectManager setupChildReconciler
      r bldr = Some (r', err, bldr')
    /\ r' = (Validate r).1
    /\ (forall e, (Validate r).2 = Some e -> err = Some e /\ bldr' = bldr)
    /\ (err = None -> (Validate r).2 = None /\ Validate r' = (r', None)).
Proof.
  intros Hfresh. unfold ChildSetReconcilerSetup.SetupWithManager.
  rewrite ChildSet_Validate_init.
  pose proof (Validate_accepted_fields r) as Hfields.
  pose proof (Validate_idempotent r) as Hidem.
  destruct (Validate r) as [r1 [e|]] eqn:Hvalid; simpl in Hfields, Hidem.
  - eexists _, _, _. split; [done|]. by split_and!.
  - destruct (Hfields eq_refl) as [[om ->] Hvoid].
    destruct (Hvoid Hfresh) as [void ->].
    destruct (setupObjectManager om bldr) as [[e1|] bldr1].
    { eexists _, _, _. split; [done|]. by split_and!. }
    destruct (setupChildReconciler void bldr1) as [[e2|] bldr2].
    { eexists _, _, _. split; [done|]. by split_and!. }
    destruct (Setup r1) as [setup|].
    + destruct (setup bldr2) as [err bldr3].
      eexists _, _, _. split; [done|]. by split_and!.
    + eexists _, _, _. split; [done|]. by split_and!.
Qed.

Lemma fold_left_append_Err (children : list ChildSetPartialResult)
    (errs : list (option error)) :
  fold_left (fun errs childResult => errs ++ [Err childResult]) children errs
  = errs ++ map Err children.
Proof.
  revert errs. induction children as [|c children IH]; intros errs; simpl.
  - by rewrite app_nil_r.
  - by rewrite IH, <- app_assoc.
Qed.

Lemma omap_id_map_Err (children : list ChildSetPartialResult) :
  omap id (map Err children) = omap Err children.
Proof.
  induction children as [|c children IH]; simpl; [done|].
  destruct (Err c); [f_equal|]; exact IH.
Qed.

Lemma omap_Err_nil (children : list ChildSetPartialResult) :
  omap Err children = [] <-> Forall (fun c => Err c = None) children.
Proof.
  induction children as [|c children IH]; simpl.
  - split; [by constructor|done].
  - destruct (Err c) as [e|] eqn:He; simpl.
    + split; [done|]. intros H. apply Forall_cons in H as [H _]. congruence.
    + split.
      * intros H. constructor; [done|]. by apply IH.
      * intros H. apply Forall_cons in H as [_ H]. by apply IH.
Qed.

(** X11.  [AggregateError] of a child-set result is nil exactly when no
    child has an error; otherwise it holds the errors of the children that
    have one, in the order of the children, and nothing else. *)
Theorem ChildSetResult_AggregateError_nil_iff (result : ChildSetResult) :
  (AggregateError result = None
   <-> Forall (fun c => Err c = None) (Children result))
  /\ (forall errs, AggregateError result = Some errs ->
        errs = omap Err (Children result) /\ errs <> []).
Proof.
  unfold AggregateError, NewAggregate. cbv zeta.
  rewrite fold_left_append_Err, app_nil_l, omap_id_map_Err, <- omap_Err_nil.
  rewrite length_map.
  destruct (Children result) as [|c children]; [by split|].
  rewrite (bool_decide_eq_false_2 (length (c :: children) = 0%nat)) by done.
  generalize (omap Err (c :: children)). intros [|e errs]; simpl; split; try done.
  by intros errs' [= <-].
Qed.

(** X12.  When the store fails to list the children, a fresh reconciler's
    [Reconcile] returns that error as it is, with an empty [Result]: the
    listing is the only call made, [DesiredChildren] and the reflection
    callback are not called, and the stash is left alone. *)
Theorem ChildSetReconciler_list_failure (r : t) (ctx : Context) (w : World) (e : error) :
  lazyInit r = false ->
  let opts := cr_listOptions (childReconcilerFor r None None "" true) (resource w) in
  client_List opts (cluster w) = inr e ->
  Reconcile r ctx w = Returns (emptyResult, Some e) (withEvents w [CallList opts]).
Proof.
  intros Hfresh opts Hlist.
  unfold Reconcile, bind at 1, knownChildren, bind at 1, getResource.
  assert (voidReconciler (init r) = Some (childReconcilerFor r None None "" true)) as ->.
  { unfold init. by rewrite Hfresh. }
  unfold bind at 1, callList, bind at 1, emit. simpl. fold opts. by rewrite Hlist.
Qed.

End ChildSetReconcilerMore.

(** ** The conditions of a status *)

Section StatusMore.
Import Conditions.

(** X13.  [SetConditions] replaces the conditions and nothing else:
    [GetConditions] answers the list that was set, and the observed
    generation is kept.  [GetCondition] then answers the first condition of
    the asked type in that list, also when several have it, and nil exactly
    when none has it. *)
Theorem Status_condition_accessors (s : Status) (cs : list Condition) (t : string) :
  GetConditions (SetConditions s cs) = cs
  /\ ObservedGeneration (SetConditions s cs) = ObservedGeneration s
  /\ match GetCondition (SetConditions s cs) t with
     | Some c =>
         Type_ c = t
         /\ exists before after,
              cs = before ++ c :: after
              /\ Forall (fun c' => Type_ c' <> t) before
     | None => Forall (fun c' => Type_ c' <> t) cs
     end.
Proof.
  split_and!; [done|done|].
  unfold GetCondition, SetConditions. simpl.
  induction cs as [|c cs IH]; simpl; [by constructor|].
  destruct (String.eqb (Type_ c) t) eqn:Heq.
  - apply String.eqb_eq in Heq. split; [done|]. by exists [], cs.
  - apply String.eqb_neq in Heq.
    destruct (find _ cs) as [c'|].
    + destruct IH as (Hty & before & after & -> & Hbefore).
      split; [done|]. exists (c :: before), after. split; [done|]. by constructor.
    + by constructor.
Qed.

End StatusMore.

(** ** The assertions of the testing package *)

Section TestingFacts.
Import Testing.
Context `{F : Fakes}.
Local Open Scope nat_scope.

Lemma withErrors_nil (c : ExpectConfig) : withErrors c [] = c.
Proof. destruct c. unfold withErrors, setObservedErrors. simpl. by rewrite app_nil_r. Qed.

Lemma withErrors_app (c : ExpectConfig) (e1 e2 : list Value) :
  withErrors (withErrors c e1) e2 = withErrors c (e1 ++ e2).
Proof. unfold withErrors, setObservedErrors. simpl. by rewrite app_assoc. Qed.

Lemma reported_nil (t : option T) : reported t [] = t.
Proof. by destruct t. Qed.

Lemma reported_app (t : option T) (e1 e2 : list Value) :
  reported (reported t e1) e2 = reported t (e1 ++ e2).
Proof.
  destruct t as [t|]; [|done].
  destruct e1 as [|x e1]; [done|]. destruct e2 as [|y e2]; simpl.
  - by rewrite app_nil_r.
  - by rewrite <- app_assoc.
Qed.

(** [errorf] appends one line to the observed errors, and fails the test
    with it when there is one. *)
Lemma errorf_reports (c : ExpectConfig) (errs : list Value) (t : option T)
    (message : string) (args : list Value) :
  errorf (withErrors c errs) t message args
  = (withErrors c (errs ++ [VSprintf message args]),
     reported t [VSprintf message args]).
Proof. rewrite <- withErrors_app. by destruct t. Qed.

(** No discrepancy: the two lists agree. *)
Lemma discrepancies_0_iff {E A} (diff : E -> A -> string) (expected : list E)
    (actual : list A) :
  discrepancies diff expected actual = 0 <-> agree diff expected actual.
Proof.
  unfold discrepancies, agree. revert actual.
  induction expected as [|e expected IH]; intros [|a actual]; simpl.
  - split; [by constructor|done].
  - split; [lia|]. intros H. inversion H.
  - split; [lia|]. intros H. inversion H.
  - specialize (IH actual).
    destruct (String.eqb (diff e a) "") eqn:Heq; simpl.
    + apply String.eqb_eq in Heq. split.
      * intros H. constructor; [done|]. apply IH. lia.
      * intros H. apply Forall2_cons in H as [_ H]. apply IH in H. lia.
    + apply String.eqb_neq in Heq. split; [lia|].
      intros H. by apply Forall2_cons in H as [H _].
Qed.

Section Loops.
Context {E A : Type}.
Variable diff : E -> A -> string.
Variable actual : list A.
Variable check : ExpectConfig * option T -> nat * E -> ExpectConfig * option T.
Variable extra : ExpectConfig * option T -> A -> ExpectConfig * option T.
Variable c : ExpectConfig.

(** What the body of the first loop does from a state the assertion can
    be in, and the body of the second. *)
Hypothesis check_not_observed : forall errs t i e,
  actual !! i = None ->
  exists m, check (withErrors c errs, t) (i, e)
            = (withErrors c (errs ++ [m]), reported t [m]).
Hypothesis check_differs : forall errs t i e a,
  actual !! i = Some a -> diff e a <> "" ->
  exists m, check (withErrors c errs, t) (i, e)
            = (withErrors c (errs ++ [m]), reported t [m]).
Hypothesis check_same : forall errs t i e a,
  actual !! i = Some a -> diff e a = "" ->
  check (withErrors c errs, t) (i, e) = (withErrors c errs, t).
Hypothesis extra_unexpected : forall errs t x,
  exists m, extra (withErrors c errs, t) x
            = (withErrors c (errs ++ [m]), reported t [m]).

(** The first loop of an assertion, from position [k] on. *)
Lemma expectations_loop (expected : list E) (k : nat) (errs0 : list Value)
    (t : option T) :
  exists errs,
    foldl check (withErrors c errs0, t) (imap (fun i e => (i + k, e)) expected)
    = (withErrors c (errs0 ++ errs), reported t errs)
    /\ length errs
       = length (List.filter (fun ea => negb (String.eqb (diff ea.1 ea.2) ""))
                   (zip expected (drop k actual)))
         + (length expected - (length actual - k)).
Proof using check_not_observed check_differs check_same.
  revert k errs0 t.
  induction expected as [|e expected IH]; intros k errs0 t.
  - exists []. by rewrite app_nil_r, reported_nil.
  - rewrite imap_cons. cbn [foldl]. change (0 + k) with k.
    assert (imap ((fun i e0 => (i + k, e0)) ∘ S) expected
            = imap (fun i e0 => (i + S k, e0)) expected) as ->.
    { apply imap_ext. intros i x _. simpl. f_equal. lia. }
    destruct (actual !! k) as [a|] eqn:Hlookup.
    + pose proof (lookup_lt_Some _ _ _ Hlookup) as Hlt.
      rewrite (drop_S _ _ _ Hlookup). cbn [zip zip_with List.filter fst snd].
      destruct (String.eqb (diff e a) "") eqn:Heq.
      * apply String.eqb_eq in Heq. rewrite (check_same errs0 t k e a Hlookup Heq).
        destruct (IH (S k) errs0 t) as (errs & -> & Hlen).
        exists errs. split; [done|]. rewrite Hlen. simpl. lia.
      * apply String.eqb_neq in Heq.
        destruct (check_differs errs0 t k e a Hlookup Heq) as (m & ->).
        destruct (IH (S k) (errs0 ++ [m]) (reported t [m])) as (errs & -> & Hlen).
        exists (m :: errs). rewrite reported_app, <- app_assoc.
        split; [done|]. simpl. rewrite Hlen. simpl. lia.
    + pose proof (lookup_ge_None_1 _ _ Hlookup) as Hge.
      destruct (check_not_observed errs0 t k e Hlookup) as (m & ->).
      destruct (IH (S k) (errs0 ++ [m]) (reported t [m])) as (errs & -> & Hlen).
      exists (m :: errs). rewrite reported_app, <- app_assoc.
      split; [done|]. simpl. rewrite Hlen.
      rewrite !drop_ge by lia. rewrite !zip_with_nil_r. simpl. lia.
Qed.

(** The second loop: an error line per observation beyond the
    expectations. *)
Lemma unexpected_loop (rest : list A) (errs0 : list Value) (t : option T) :
  exists errs,
    foldl extra (withErrors c errs0, t) rest
    = (withErrors c (errs0 ++ errs), reported t errs)
    /\ length errs = length rest.
Proof using extra_unexpected.
  revert errs0 t. induction rest as [|x rest IH]; intros errs0 t.
  - exists []. by rewrite app_nil_r, reported_nil.
  - cbn [foldl]. destruct (extra_unexpected errs0 t x) as (m & ->).
    destruct (IH (errs0 ++ [m]) (reported t [m])) as (errs & -> & Hlen).
    exists (m :: errs). rewrite reported_app, <- app_assoc. split; [done|].
    simpl. by rewrite Hlen.
Qed.

(** Both loops: as many error lines as there are discrepancies.  The
    second loop reads the expectations and the observations again, from
    the configuration the first loop left. *)
Lemma assertion_loops (expectedOf : ExpectConfig -> list E)
    (actualOf : ExpectConfig -> list A) (expected : list E)
    (errs0 : list Value) (t : option T) :
  (forall errs, expectedOf (withErrors c errs) = expected) ->
  (forall errs, actualOf (withErrors c errs) = actual) ->
  exists errs,
    (let '(c', t') := foldl check (withErrors c errs0, t) (imap pair expected) in
     if bool_decide (length (expectedOf c') < length (actualOf c'))
     then foldl extra (c', t') (drop (length (expectedOf c')) (actualOf c'))
     else (c', t'))
    = (withErrors c (errs0 ++ errs), reported t errs)
    /\ length errs = discrepancies diff expected actual.
Proof using check_not_observed check_differs check_same extra_unexpected.
  intros Hexpected Hactual.
  destruct (expectations_loop expected 0 errs0 t) as (errs1 & Hrun1 & Hlen1).
  assert (imap (fun i e => (i + 0, e)) expected = imap pair expected) as Himap.
  { apply imap_ext. intros i x _. simpl. f_equal. lia. }
  rewrite Himap in Hrun1. rewrite Hrun1. cbv beta iota.
  rewrite Hexpected, Hactual.
  rewrite drop_0, Nat.sub_0_r in Hlen1.
  unfold discrepancies. case_bool_decide as Hlt.
  - destruct (unexpected_loop (drop (length expected) actual) (errs0 ++ errs1)
                (reported t errs1)) as (errs2 & -> & Hlen2).
    exists (errs1 ++ errs2). rewrite reported_app, <- app_assoc.
    split; [done|]. rewrite length_app, Hlen1, Hlen2, length_drop. lia.
  - exists errs1. split; [done|]. rewrite Hlen1. lia.
Qed.

End Loops.

Ltac assertion_step :=
  intros; cbn beta iota zeta;
  cbn [withErrors setObservedErrors client recorder tracker differ events
       getTrackRequests ExpectTracks ExpectEvents ExpectCreates ExpectUpdates
       ExpectPatches ExpectDeletes ExpectDeleteCollections ExpectStatusUpdates
       ExpectStatusPatches];
  repeat match goal with
         | H : ?l !! ?i = _ |- context [?l !! ?i] => rewrite H
         | H : ?d <> "" |- context [String.eqb ?d ""] =>
             rewrite (proj2 (String.eqb_neq d "") H)
         | H : ?d = "" |- context [String.eqb ?d ""] =>
             rewrite (proj2 (String.eqb_eq d "") H)
         end;
  cbn beta iota zeta;
  first [ reflexivity | eexists; apply errorf_reports ].

Ltac assertion_entry :=
  cbv zeta;
  cbn [withErrors setObservedErrors client recorder tracker events getTrackRequests
       ExpectTracks ExpectEvents ExpectPatches ExpectDeletes ExpectDeleteCollections
       ExpectStatusPatches].

Lemma compareActions_run (c : ExpectConfig) (errs0 : list Value) (t : option T)
    (actionName : string) (expected : list Object) (actual : list objectAction)
    (differ : Object -> Object -> string) :
  exists errs,
    compareActions (withErrors c errs0) t actionName expected actual differ
    = (withErrors c (errs0 ++ errs), reported t errs)
    /\ length errs = discrepancies (objectDiff differ) expected actual.
Proof.
  unfold compareActions. assertion_entry.
  apply assertion_loops
    with (diff := objectDiff differ)
         (expectedOf := fun _ => expected)
         (actualOf := fun _ => actual);
    unfold objectDiff; assertion_step.
Qed.

(** X14.  [compareActions] reports each discrepancy between the expected
    objects and the observed actions once: a position where the two
    differ, an expectation with no observation, an observation with no
    expectation.  The error lines are appended to the observed errors,
    nothing else of the configuration changes, and the test, when there is
    one, is failed with the same lines.  No line is reported exactly when
    the observed actions agree with the expectations position by
    position. *)
Theorem compareActions_reports_discrepancies (c : ExpectConfig) (t : option T)
    (actionName : string) (expected : list Object) (actual : list objectAction)
    (differ : Object -> Object -> string) :
  exists errs,
    compareActions c t actionName expected actual differ
    = (withErrors c errs, reported t errs)
    /\ length errs = discrepancies (objectDiff differ) expected actual
    /\ (errs = [] <-> agree (objectDiff differ) expected actual).
Proof.
  destruct (compareActions_run c [] t actionName expected actual differ)
    as (errs & Hrun & Hlen).
  rewrite withErrors_nil in Hrun.
  exists errs. split; [exact Hrun|]. split; [exact Hlen|].
  rewrite <- discrepancies_0_iff, <- Hlen. by destruct errs.
Qed.

Lemma AssertClientPatchExpectations_run (c : ExpectConfig) (errs0 : list Value)
    (t : option T) :
  exists errs,
    AssertClientPatchExpectations (withErrors c errs0) t
    = (withErrors c (errs0 ++ errs), reported t errs)
    /\ length errs
       = discrepancies (patchDiff c) (ExpectPatches c) (PatchActions (client c)).
Proof.
  unfold AssertClientPatchExpectations. assertion_entry.
  apply assertion_loops
    with (diff := patchDiff c)
         (expectedOf := ExpectPatches)
         (actualOf := fun c => PatchActions (client c));
    unfold patchDiff; assertion_step.
Qed.

Lemma AssertClientDeleteExpectations_run (c : ExpectConfig) (errs0 : list Value)
    (t : option T) :
  exists errs,
    AssertClientDeleteExpectations (withErrors c errs0) t
    = (withErrors c (errs0 ++ errs), reported t errs)
    /\ length errs
       = discrepancies (deleteDiff c) (ExpectDeletes c) (DeleteActions (client c)).
Proof.
  unfold AssertClientDeleteExpectations. assertion_entry.
  apply assertion_loops
    with (diff := deleteDiff c)
         (expectedOf := ExpectDeletes)
         (actualOf := fun c => DeleteActions (client c));
    unfold deleteDiff; assertion_step.
Qed.

Lemma AssertClientDeleteCollectionExpectations_run (c : ExpectConfig)
    (errs0 : list Value) (t : option T) :
  exists errs,
    AssertClientDeleteCollectionExpectations (withErrors c errs0) t
    = (withErrors c (errs0 ++ errs), reported t errs)
    /\ length errs
       = discrepancies (deleteCollectionDiff c)
           (ExpectDeleteCollections c) (DeleteCollectionActions (client c)).
Proof.
  unfold AssertClientDeleteCollectionExpectations. assertion_entry.
  apply assertion_loops
    with (diff := deleteCollectionDiff c)
         (expectedOf := ExpectDeleteCollections)
         (actualOf := fun c => DeleteCollectionActions (client c));
    unfold deleteCollectionDiff; assertion_step.
Qed.

Lemma AssertClientStatusPatchExpectations_run (c : ExpectConfig) (errs0 : list Value)
    (t : option T) :
  exists errs,
    AssertClientStatusPatchExpectations (withErrors c errs0) t
    = (withErrors c (errs0 ++ errs), reported t errs)
    /\ length errs
       = discrepancies (patchDiff c)
           (ExpectStatusPatches c) (StatusPatchActions (client c)).
Proof.
  unfold AssertClientStatusPatchExpectations. assertion_entry.
  apply assertion_loops
    with (diff := patchDiff c)
         (expectedOf := ExpectStatusPatches)
         (actualOf := fun c => StatusPatchActions (client c));
    unfold patchDiff; assertion_step.
Qed.

Lemma AssertRecorderExpectations_run (c : ExpectConfig) (errs0 : list Value)
    (t : option T) :
  exists errs,
    AssertRecorderExpectations (withErrors c errs0) t
    = (withErrors c (errs0 ++ errs), reported t errs)
    /\ length errs
       = discrepancies (Differ_Event (differ c)) (ExpectEvents c) (events (recorder c)).
Proof.
  unfold AssertRecorderExpectations. assertion_entry.
  apply assertion_loops
    with (diff := Differ_Event (differ c))
         (expectedOf := ExpectEvents)
         (actualOf := fun _ => events (recorder c));
    assertion_step.
Qed.

Lemma AssertTrackerExpectations_run (c : ExpectConfig) (errs0 : list Value)
    (t : option T) :
  exists errs,
    AssertTrackerExpectations (withErrors c errs0) t
    = (withErrors c (errs0 ++ errs), reported t errs)
    /\ length errs
       = discrepancies (trackDiff c) (ExpectTracks c) (getTrackRequests (tracker c)).
Proof.
  unfold AssertTrackerExpectations. assertion_entry.
  apply assertion_loops
    with (diff := trackDiff c)
         (expectedOf := ExpectTracks)
         (actualOf := fun _ => getTrackRequests (tracker c));
    unfold trackDiff; assertion_step.
Qed.

Lemma AssertClientCreateExpectations_run (c : ExpectConfig) (errs0 : list Value)
    (t : option T) :
  exists errs,
    AssertClientCreateExpectations (withErrors c errs0) t
    = (withErrors c (errs0 ++ errs), reported t errs)
    /\ length errs
       = discrepancies (objectDiff (Differ_ResourceCreate (differ c)))
           (ExpectCreates c) (CreateActions (client c)).
Proof.
  exact (compareActions_run c errs0 t "Create" (ExpectCreates c)
           (CreateActions (client c)) (Differ_ResourceCreate (differ c))).
Qed.

Lemma AssertClientUpdateExpectations_run (c : ExpectConfig) (errs0 : list Value)
    (t : option T) :
  exists errs,
    AssertClientUpdateExpectations (withErrors c errs0) t
    = (withErrors c (errs0 ++ errs), reported t errs)
    /\ length errs
       = discrepancies (objectDiff (Differ_ResourceUpdate (differ c)))
           (ExpectUpdates c) (UpdateActions (client c)).
Proof.
  exact (compareActions_run c errs0 t "Update" (ExpectUpdates c)
           (UpdateActions (client c)) (Differ_ResourceUpdate (differ c))).
Qed.

Lemma AssertClientStatusUpdateExpectations_run (c : ExpectConfig) (errs0 : list Value)
    (t : option T) :
  exists errs,
    AssertClientStatusUpdateExpectations (withErrors c errs0) t
    = (withErrors c (errs0 ++ errs), reported t errs)
    /\ length errs
       = discrepancies (objectDiff (Differ_ResourceStatusUpdate (differ c)))
           (ExpectStatusUpdates c) (StatusUpdateActions (client c)).
Proof.
  exact (compareActions_run c errs0 t "StatusUpdate" (ExpectStatusUpdates c)
           (StatusUpdateActions (client c)) (Differ_ResourceStatusUpdate (differ c))).
Qed.

(** The seven assertions on the client, each from the errors the ones
    before it reported. *)
Lemma AssertClientExpectations_run (c : ExpectConfig) (errs0 : list Value)
    (t : option T) :
  exists errs,
    AssertClientExpectations (withErrors c errs0) t
    = (withErrors c (errs0 ++ errs), reported t errs)
    /\ length errs = clientDiscrepancies c.
Proof.
  unfold AssertClientExpectations.
  destruct (AssertClientCreateExpectations_run c errs0 t) as (e1 & -> & Hlen1).
  destruct (AssertClientUpdateExpectations_run c (errs0 ++ e1) (reported t e1))
    as (e2 & -> & Hlen2).
  destruct (AssertClientPatchExpectations_run c ((errs0 ++ e1) ++ e2)
              (reported (reported t e1) e2))
    as (e3 & -> & Hlen3).
  destruct (AssertClientDeleteExpectations_run c (((errs0 ++ e1) ++ e2) ++ e3)
              (reported (reported (reported t e1) e2) e3))
    as (e4 & -> & Hlen4).
  destruct (AssertClientDeleteCollectionExpectations_run c
              ((((errs0 ++ e1) ++ e2) ++ e3) ++ e4)
              (reported (reported (reported (reported t e1) e2) e3) e4))
    as (e5 & -> & Hlen5).
  destruct (AssertClientStatusUpdateExpectations_run c
              (((((errs0 ++ e1) ++ e2) ++ e3) ++ e4) ++ e5)
              (reported (reported (reported (reported (reported t e1) e2) e3) e4) e5))
    as (e6 & -> & Hlen6).
  destruct (AssertClientStatusPatchExpectations_run c
              ((((((errs0 ++ e1) ++ e2) ++ e3) ++ e4) ++ e5) ++ e6)
              (reported (reported (reported (reported (reported (reported t e1) e2) e3)
                                     e4) e5) e6))
    as (e7 & -> & Hlen7).
  rewrite !reported_app.
  exists ((((((e1 ++ e2) ++ e3) ++ e4) ++ e5) ++ e6) ++ e7).
  split; [by rewrite <- !app_assoc|].
  rewrite !length_app. unfold clientDiscrepancies. lia.
Qed.

Lemma clientDiscrepancies_0_iff (c : ExpectConfig) :
  clientDiscrepancies c = 0 <-> clientAgrees c.
Proof.
  unfold clientDiscrepancies, clientAgrees. rewrite <- !discrepancies_0_iff. lia.
Qed.

(** X15.  [AssertClientExpectations] runs the seven assertions on the
    client in turn.  It reports as many error lines as there are
    discrepancies over the seven kinds of action, touches nothing of the
    configuration but the observed errors, and fails the test exactly when
    it reports a line.  It reports none exactly when the creates, updates,
    patches, deletes, collection deletes, status updates and status patches
    the client recorded all agree with the expectations. *)
Theorem AssertClientExpectations_passes_iff (c : ExpectConfig) (t : option T) :
  exists errs,
    AssertClientExpectations c t = (withErrors c errs, reported t errs)
    /\ length errs = clientDiscrepancies c
    /\ (errs = [] <-> clientAgrees c)
    /\ (forall t0, t = Some t0 -> failed t0 = false ->
        exists t1, reported t errs = Some t1
                   /\ (failed t1 = false <-> clientAgrees c)).
Proof.
  destruct (AssertClientExpectations_run c [] t) as (errs & Hrun & Hlen).
  rewrite withErrors_nil in Hrun.
  assert (errs = [] <-> clientAgrees c) as Hiff.
  { rewrite <- clientDiscrepancies_0_iff, <- Hlen. by destruct errs. }
  exists errs. split_and!; try done.
  intros t0 -> Hfailed. destruct errs as [|e errs]; simpl.
  - exists t0. split; [done|]. rewrite Hfailed. by rewrite <- Hiff.
  - eexists. split; [done|]. simpl. rewrite <- Hiff. done.
Qed.

(** X16.  [AssertExpectations] runs the assertions on the client, on the
    recorder and on the tracker in turn.  It reports one error line per
    discrepancy, and none exactly when the recorded client actions, the
    recorded events and the track requests all agree with the
    expectations, an expected track request being compared in its normal
    form. *)
Theorem AssertExpectations_passes_iff (c : ExpectConfig) (t : option T) :
  exists errs,
    AssertExpectations c t = (withErrors c errs, reported t errs)
    /\ length errs
       = clientDiscrepancies c
         + discrepancies (Differ_Event (differ c)) (ExpectEvents c) (events (recorder c))
         + discrepancies (trackDiff c) (ExpectTracks c) (getTrackRequests (tracker c))
    /\ (errs = [] <->
        clientAgrees c
        /\ agree (Differ_Event (differ c)) (ExpectEvents c) (events (recorder c))
        /\ agree (trackDiff c) (ExpectTracks c) (getTrackRequests (tracker c))).
Proof.
  unfold AssertExpectations.
  destruct (AssertClientExpectations_run c [] t) as (e1 & Hrun1 & Hlen1).
  rewrite withErrors_nil in Hrun1. rewrite Hrun1.
  destruct (AssertRecorderExpectations_run c ([] ++ e1) (reported t e1))
    as (e2 & Hrun2 & Hlen2).
  rewrite Hrun2.
  destruct (AssertTrackerExpectations_run c (([] ++ e1) ++ e2)
              (reported (reported t e1) e2))
    as (e3 & Hrun3 & Hlen3).
  rewrite Hrun3, !reported_app. simpl.
  exists ((e1 ++ e2) ++ e3). split; [by rewrite <- !app_assoc|]. split.
  - rewrite !length_app. lia.
  - rewrite <- clientDiscrepancies_0_iff, <- !discrepancies_0_iff,
      <- Hlen1, <- Hlen2, <- Hlen3.
    destruct e1, e2, e3; simpl; split; try done;
      try (intros (? & ? & ?); done); by split_and!.
Qed.

End TestingFacts.

(** ** Instances of the further properties *)

(** A reconciler with a [Setup] and no sync action is refused. *)
Lemma SyncReconciler_Setup_validates_first_witness :
  SyncReconciler.SetupWithManager (Cases.syncReconcilerWithSetup None) tt
  = (Some (Errorf "SyncReconciler %q must implement Sync or SyncWithResult"
             ["SyncReconciler"]), tt).
Proof.
  destruct (SyncReconciler_Setup_validates_first
              (Cases.syncReconcilerWithSetup None) Cases.setupOk tt eq_refl)
    as [Hsetup _].
  exact Hsetup.
Defined.

(** The child [a] belongs to the unit of [a], not to the unit of [b]. *)
Lemma ChildSetReconciler_units_share_out_children_witness :
  callOurChild
    (ChildSetReconciler.childReconcilerFor
       (Example.childSetReconciler "" [] None None) None None "b" false)
    Example.live ("a", 1)
  = Some false.
Proof.
  destruct (ChildSetReconciler_units_share_out_children
              (Example.childSetReconciler "" [] None None) fst None None "a"
              Example.live ("a", 1) eq_refl)
    as (_ & _ & Hother & _).
  apply (Hother "b"); [discriminate|reflexivity].
Defined.

(** Desired [a], [b]; known [b], [c]: the units of [a], [b] and [c]. *)
Lemma ChildSetReconciler_units_desired_children_witness :
  exists cr w',
    ChildSetReconciler.composeChildReconcilers
      (Example.childSetReconciler "" Example.desiredAB None None)
      Example.background Example.knownBC (Example.world Example.live Example.knownBC [])
    = Returns (inl cr) w'
    /\ map cr_Name (childUnits cr) = ["a"; "b"; "c"].
Proof.
  edestruct (ChildSetReconciler_units_desired_children
               (Example.childSetReconciler "" Example.desiredAB None None)
               Example.background (Example.world Example.live Example.knownBC [])
               Example.knownBC Example.desiredAB None fst)
    as (cr & Hcompose & Hnames & _).
  - reflexivity.
  - reflexivity.
  - reflexivity.
  - reflexivity.
  - apply (bool_decide_unpack _). vm_compute. exact I.
  - apply (bool_decide_unpack _). vm_compute. exact I.
  - exists cr. eexists. split; [exact Hcompose|].
    rewrite Hnames. vm_compute. reflexivity.
Defined.

(** The preserving policy with [b] and [c] known. *)
Lemma ChildSetReconciler_preserving_policy_witness :
  exists cr w',
    ChildSetReconciler.composeChildReconcilers
      (ChildSetReconciler.init
         (Cases.childSetReconcilerOf Cases.preserve (Some Example.manager) None None))
      (stashKnownChildren Example.background Example.knownBC) Example.knownBC
      (Example.world Example.live Example.knownBC [])
    = Returns (inl cr) w'
    /\ map cr_Name (childUnits cr) = ["b"; "c"].
Proof.
  edestruct (ChildSetReconciler_preserving_policy
               (Cases.childSetReconcilerOf Cases.preserve (Some Example.manager) None None)
               Example.background (Example.world Example.live Example.knownBC [])
               Example.knownBC fst)
    as (cr & Hcompose & Hnames & _).
  - reflexivity.
  - reflexivity.
  - apply (bool_decide_unpack _). vm_compute. exact I.
  - apply (bool_decide_unpack _). vm_compute. exact I.
  - exists cr. eexists. split; [exact Hcompose|].
    rewrite Hnames. vm_compute. reflexivity.
Defined.

(** Two desired children named [a]: the second one is the duplicate. *)
Lemma ChildSetReconciler_first_invalid_identity_witness :
  exists w',
    ChildSetReconciler.composeChildReconcilers
      (Example.childSetReconciler "" Example.desiredTwice None None)
      Example.background [] (Example.world Example.live [] [])
    = Returns (inr (Errorf "duplicate child id found: %s" ["a"])) w'.
Proof.
  eexists.
  apply (ChildSetReconciler_first_invalid_identity
           (Example.childSetReconciler "" Example.desiredTwice None None)
           Example.background (Example.world Example.live [] [])
           [] [("a", 1)] [] ("a", 2) None fst
           (Example.desiredChildren Example.desiredTwice None)
           Example.live {| Example.objects := []; Example.rejects := [] |}).
  - reflexivity.
  - reflexivity.
  - reflexivity.
  - reflexivity.
  - apply (bool_decide_unpack _). vm_compute. exact I.
  - apply (bool_decide_unpack _). vm_compute. exact I.
  - right. apply (bool_decide_unpack _). vm_compute. exact I.
Defined.

(** Only [ReflectChildrenStatusOnParent] is given: the reflection answers
    nil. *)
Lemma ChildSetReconciler_reflection_callbacks_witness :
  exists w',
    ChildSetReconciler.reflectStatus
      (ChildSetReconciler.init
         (Cases.childSetReconcilerOf Cases.preserve (Some Example.manager)
            (Some Cases.reflectOnly) None))
      Example.background (Example.world Example.live [] [])
    = Returns None w'.
Proof.
  eexists.
  exact (ChildSetReconciler_reflection_callbacks
           (Cases.childSetReconcilerOf Cases.preserve (Some Example.manager)
              (Some Cases.reflectOnly) None)
           Example.background (Example.world Example.live [] []) eq_refl).
Defined.

(** A fresh reconciler with a finalizer and [SkipOwnerReference] unset. *)
Lemma ChildSetReconciler_Validate_defaults_after_init_witness :
  ChildSetReconciler.SkipOwnerReference
    (ChildSetReconciler.Validate (Example.childSetReconciler "finalizer" [] None None)).1
  = true
  /\ cr_SkipOwnerReference
     <$> ChildSetReconciler.voidReconciler
           (ChildSetReconciler.Validate
              (Example.childSetReconciler "finalizer" [] None None)).1
     = Some false.
Proof.
  destruct (ChildSetReconciler_Validate_defaults_after_init
              (Example.childSetReconciler "finalizer" [] None None) eq_refl)
    as (Hskip & _ & Hvoid & _).
  - discriminate.
  - split; [exact Hskip|exact Hvoid].
Defined.

(** A reconciler without object manager and without [Setup] is refused,
    and the builder is not touched. *)
Lemma ChildSetReconciler_SetupWithManager_validates_witness :
  exists r',
    ChildSetReconcilerSetup.SetupWithManager Cases.setupObjectManagerOk
      Cases.setupChildReconcilerOk
      (Cases.childSetReconcilerOf Cases.preserve None (Some Cases.reflectOnly) None) tt
    = Some (r', Some (Errorf "ChildSetReconciler %q must implement ChildObjectManager"
                        ["KidChildSetReconciler"]), tt).
Proof.
  destruct (ChildSetReconciler_SetupWithManager_validates
              Cases.setupObjectManagerOk Cases.setupChildReconcilerOk
              (Cases.childSetReconcilerOf Cases.preserve None (Some Cases.reflectOnly) None)
              tt eq_refl)
    as (r' & err & bldr' & Hrun & _ & Hrejected & _).
  destruct (Hrejected _ eq_refl) as [-> ->].
  exists r'. exact Hrun.
Defined.

(** The store cannot be reached. *)
Lemma ChildSetReconciler_list_failure_witness :
  exists w',
    @ChildSetReconciler.Reconcile Cases.offline Cases.offlineReconciler
      Cases.offlineContext Cases.offlineWorld
    = Returns (emptyResult, Some Example.internalError) w'.
Proof.
  eexists.
  exact (@ChildSetReconciler_list_failure Cases.offline Cases.offlineReconciler
           Cases.offlineContext Cases.offlineWorld Example.internalError
           eq_refl eq_refl).
Defined.
